(** * navbat.py: the queue and booking engine of the appointment bot

    A shallow embedding of the SQLite store and of the handlers of
    [navbat.py] that read and write it, followed by the properties of the
    queue (walk-in line, scheduled bookings, dispatch of the next
    client), of the slot grid, of registration and of the cascade on
    provider deletion.

    Conventions of the embedding.
    - A table is the list of its rows in rowid order (every table is
      [INTEGER PRIMARY KEY AUTOINCREMENT], so insertion appends).
    - Python [int] and SQLite [INTEGER] are [Z]; a Python [str] and
      SQLite [TEXT] are [string], the bytes of the UTF-8 encoding
      (compared bytewise, as SQLite's BINARY collation does); a nullable
      [TEXT] column is [option string].
    - [ORDER BY] is a stable sort of the rows in rowid order: rows that
      tie on the sort key stay in rowid order, which is the order SQLite
      produces for these single-table scans.  [NULL] sorts before every
      value under [ASC].
    - A statement that violates a constraint raises
      [sqlite3.IntegrityError] and leaves the store as it was.
    - The column [queues.created_at] is written by its default and never
      read; it is left out.
    - Handlers are modelled after their callback payload has been split
      and converted ([int(...)]); what they send to Telegram is returned
      as a structured reply. *)

From Stdlib Require Import ZArith List Bool String Ascii Lia Permutation Sorted.
From Stdlib Require DecimalString.
Import ListNotations.
Local Open Scope string_scope.
Local Open Scope Z_scope.

Set Implicit Arguments.

(** ** Comparisons and [ORDER BY] *)

Module Sql.

(** A comparison that decides equality and is a strict total order. *)
Record good_cmp {A : Type} (c : A -> A -> comparison) : Prop := {
  cmp_eq : forall x y, c x y = Eq <-> x = y;
  cmp_opp : forall x y, c y x = CompOpp (c x y);
  cmp_lt_trans : forall x y z, c x y = Lt -> c y z = Lt -> c x z = Lt
}.

Definition leb_of {A : Type} (c : A -> A -> comparison) (x y : A) : bool :=
  match c x y with Gt => false | _ => true end.

(** [ORDER BY k1, k2]: the first key decides, the second breaks ties. *)
Definition lex {A B : Type} (ca : A -> A -> comparison)
    (cb : B -> B -> comparison) (x y : A * B) : comparison :=
  match ca (fst x) (fst y) with
  | Eq => cb (snd x) (snd y)
  | r => r
  end.

(** A nullable column under [ASC]: [NULL] first. *)
Definition null_first {A : Type} (c : A -> A -> comparison)
    (x y : option A) : comparison :=
  match x, y with
  | None, None => Eq
  | None, Some _ => Lt
  | Some _, None => Gt
  | Some a, Some b => c a b
  end.

Section OrderBy.
Variables (A K : Type).
Variable key : A -> K.
Variable c : K -> K -> comparison.

Definition row_leb (x y : A) : bool := leb_of c (key x) (key y).

(** [x] is not after [y] in the order of the query. *)
Definition le (x y : A) : Prop := row_leb x y = true.

Fixpoint insert (x : A) (l : list A) : list A :=
  match l with
  | [] => [x]
  | y :: l' => if row_leb x y then x :: l else y :: insert x l'
  end.

(** The rows of [l] (in rowid order) sorted by [key], ties kept in
    rowid order. *)
Fixpoint order_by (l : list A) : list A :=
  match l with
  | [] => []
  | x :: l' => insert x (order_by l')
  end.
End OrderBy.

End Sql.

(** ** The store *)

Record provider_row := {
  p_id : Z; p_owner : Z; p_name : string; p_ref : string
}.

Record service_row := {
  s_id : Z; s_provider : Z; s_name : string
}.

Record queue_row := {
  q_id : Z; q_provider : Z; q_user : Z; q_service : Z;
  q_position : Z; q_date : option string; q_time : option string
}.

Record busy_row := {
  b_id : Z; b_provider : Z; b_date : string; b_time : string
}.

(** The four tables, and for each the largest rowid it ever held
    ([sqlite_sequence], kept by [AUTOINCREMENT]). *)
Record DB := {
  providers : list provider_row;
  services : list service_row;
  queues : list queue_row;
  busy_times : list busy_row;
  seq_providers : Z;
  seq_services : Z;
  seq_queues : Z;
  seq_busy : Z
}.

Definition empty_db : DB :=
  {| providers := []; services := []; queues := []; busy_times := [];
     seq_providers := 0; seq_services := 0; seq_queues := 0; seq_busy := 0 |}.

(** The result of a statement that may violate a constraint. *)
Inductive result (A : Type) : Type :=
| Ok : A -> result A
| IntegrityError : result A.
Arguments IntegrityError {A}.

Definition max_of (l : list Z) : Z := fold_right Z.max 0 l.

(** The rowid [AUTOINCREMENT] gives the next row: one more than the
    largest rowid the table ever held. *)
Definition next_rowid (seq : Z) (ids : list Z) : Z :=
  Z.max seq (max_of ids) + 1.

Definition provider_exists (db : DB) (pid : Z) : bool :=
  existsb (fun p => p_id p =? pid) (providers db).

Definition service_exists (db : DB) (sid : Z) : bool :=
  existsb (fun s => s_id s =? sid) (services db).

(** Python truthiness of an [Optional[str]]: neither [None] nor empty. *)
Definition truthy (o : option string) : bool :=
  match o with
  | Some s => negb (s =? "")%string
  | None => false
  end.

(** ** DB wrappers *)

(** [create_provider]; [uuid.uuid4()] is drawn by the caller and its
    first eight characters are passed as [ref_code]. *)
Definition create_provider (db : DB) (owner_id : Z) (name ref_code : string)
  : result (string * DB) :=
  if existsb (fun p => (p_ref p =? ref_code)%string) (providers db)
  then IntegrityError
  else
    let id := next_rowid (seq_providers db) (map p_id (providers db)) in
    Ok (ref_code,
        {| providers := providers db ++
             [{| p_id := id; p_owner := owner_id; p_name := name; p_ref := ref_code |}];
           services := services db; queues := queues db;
           busy_times := busy_times db;
           seq_providers := id; seq_services := seq_services db;
           seq_queues := seq_queues db; seq_busy := seq_busy db |}).

Definition get_provider_by_ref (db : DB) (ref_code : string)
  : option (Z * string) :=
  option_map (fun p => (p_id p, p_name p))
    (find (fun p => (p_ref p =? ref_code)%string) (providers db)).

Definition get_provider_by_owner (db : DB) (owner_id : Z)
  : option (Z * string * string) :=
  option_map (fun p => (p_id p, p_name p, p_ref p))
    (find (fun p => p_owner p =? owner_id) (providers db)).

Definition get_services (db : DB) (provider_id : Z) : list (Z * string) :=
  map (fun s => (s_id s, s_name s))
    (filter (fun s => s_provider s =? provider_id) (services db)).

Definition add_service (db : DB) (provider_id : Z) (name : string)
  : bool * DB :=
  if negb (provider_exists db provider_id)
     || existsb (fun s => (s_provider s =? provider_id)
                          && (s_name s =? name)%string) (services db)
  then (false, db)
  else
    let id := next_rowid (seq_services db) (map s_id (services db)) in
    (true,
     {| providers := providers db;
        services := services db ++
          [{| s_id := id; s_provider := provider_id; s_name := name |}];
        queues := queues db; busy_times := busy_times db;
        seq_providers := seq_providers db; seq_services := id;
        seq_queues := seq_queues db; seq_busy := seq_busy db |}).

Definition set_queues (db : DB) (qs : list queue_row) (seq : Z) : DB :=
  {| providers := providers db; services := services db; queues := qs;
     busy_times := busy_times db;
     seq_providers := seq_providers db; seq_services := seq_services db;
     seq_queues := seq; seq_busy := seq_busy db |}.

(** [INSERT INTO queues ...]: both foreign keys are checked. *)
Definition insert_queue (db : DB) (provider_id user_id service_id position : Z)
    (date time : option string) : result DB :=
  if provider_exists db provider_id && service_exists db service_id
  then
    let id := next_rowid (seq_queues db) (map q_id (queues db)) in
    Ok (set_queues db
          (queues db ++
            [{| q_id := id; q_provider := provider_id; q_user := user_id;
                q_service := service_id; q_position := position;
                q_date := date; q_time := time |}])
          id)
  else IntegrityError.

(** The walk-in line of a provider: [WHERE provider_id=? AND position>0]. *)
Definition walkins (db : DB) (provider_id : Z) : list queue_row :=
  filter (fun q => (q_provider q =? provider_id) && (0 <? q_position q))
    (queues db).

(** [SELECT COALESCE(MAX(position),0) ... WHERE provider_id=? AND position>0] *)
Definition max_position (db : DB) (provider_id : Z) : Z :=
  max_of (map q_position (walkins db provider_id)).

Definition add_to_queue (db : DB) (provider_id user_id service_id : Z)
    (date time : option string) : result (Z * DB) :=
  if truthy date && truthy time then
    match insert_queue db provider_id user_id service_id 0 date time with
    | Ok db' => Ok (0, db')
    | IntegrityError => IntegrityError
    end
  else
    let next_pos := max_position db provider_id + 1 in
    match insert_queue db provider_id user_id service_id next_pos None None with
    | Ok db' => Ok (next_pos, db')
    | IntegrityError => IntegrityError
    end.

(** What [pop_next_in_queue] returns: a pair without date and time, or a
    4-tuple with them. *)
Inductive popped : Type :=
| PopWalkIn (user_id service_id : Z)
| PopScheduled (user_id service_id : Z) (date time : option string).

Definition text_cmp : option string -> option string -> comparison :=
  Sql.null_first String.compare.

(** [ORDER BY date, time ASC] *)
Definition by_date_time (rows : list queue_row) : list queue_row :=
  Sql.order_by (fun q => (q_date q, q_time q)) (Sql.lex text_cmp text_cmp) rows.

(** [ORDER BY position ASC] *)
Definition by_position (rows : list queue_row) : list queue_row :=
  Sql.order_by q_position Z.compare rows.

(** [DELETE FROM queues WHERE id=?] *)
Definition delete_queue_row (db : DB) (qid : Z) : DB :=
  set_queues db (filter (fun q => negb (q_id q =? qid)) (queues db))
    (seq_queues db).

Definition pop_next_in_queue (db : DB) (provider_id : Z)
    (include_scheduled : bool) : option popped * DB :=
  let row :=
    if include_scheduled
    then hd_error (by_date_time
                     (filter (fun q => q_provider q =? provider_id) (queues db)))
    else hd_error (by_position (walkins db provider_id)) in
  match row with
  | Some r =>
      let db' := delete_queue_row db (q_id r) in
      if include_scheduled
      then (Some (PopScheduled (q_user r) (q_service r) (q_date r) (q_time r)), db')
      else (Some (PopWalkIn (q_user r) (q_service r)), db')
  | None => (None, db)
  end.

(** [get_queue]: the walk-in line joined with the service names. *)
Definition service_name_of (db : DB) (service_id : Z) : option string :=
  option_map s_name (find (fun s => s_id s =? service_id) (services db)).

Definition get_queue (db : DB) (provider_id : Z) : list (Z * Z * string) :=
  flat_map
    (fun q => match service_name_of db (q_service q) with
              | Some n => [(q_position q, q_user q, n)]
              | None => []
              end)
    (by_position (walkins db provider_id)).

(** [DELETE FROM providers WHERE id=?] with [PRAGMA foreign_keys=ON]:
    the services and busy blocks of the provider go with it, and so do
    the queue entries that reference the provider or one of the deleted
    services ([ON DELETE CASCADE] on both foreign keys of [queues]). *)
Definition delete_provider (db : DB) (provider_id : Z) : DB :=
  let dead_services :=
    map s_id (filter (fun s => s_provider s =? provider_id) (services db)) in
  {| providers := filter (fun p => negb (p_id p =? provider_id)) (providers db);
     services := filter (fun s => negb (s_provider s =? provider_id)) (services db);
     queues :=
       filter (fun q => negb (q_provider q =? provider_id)
                        && negb (existsb (Z.eqb (q_service q)) dead_services))
         (queues db);
     busy_times := filter (fun b => negb (b_provider b =? provider_id)) (busy_times db);
     seq_providers := seq_providers db; seq_services := seq_services db;
     seq_queues := seq_queues db; seq_busy := seq_busy db |}.

Definition get_provider_owner (db : DB) (provider_id : Z) : option Z :=
  option_map p_owner (find (fun p => p_id p =? provider_id) (providers db)).

Definition set_busy (db : DB) (bs : list busy_row) (seq : Z) : DB :=
  {| providers := providers db; services := services db; queues := queues db;
     busy_times := bs;
     seq_providers := seq_providers db; seq_services := seq_services db;
     seq_queues := seq_queues db; seq_busy := seq |}.

Definition add_busy_time (db : DB) (provider_id : Z) (date time : string)
  : result (Z * DB) :=
  if provider_exists db provider_id
  then
    let id := next_rowid (seq_busy db) (map b_id (busy_times db)) in
    Ok (id,
        set_busy db
          (busy_times db ++
            [{| b_id := id; b_provider := provider_id;
                b_date := date; b_time := time |}])
          id)
  else IntegrityError.

Definition get_busy_times (db : DB) (provider_id : Z)
  : list (Z * string * string) :=
  map (fun b => (b_id b, b_date b, b_time b))
    (Sql.order_by (fun b => (b_date b, b_time b))
       (Sql.lex String.compare String.compare)
       (filter (fun b => b_provider b =? provider_id) (busy_times db))).

Definition remove_busy_time (db : DB) (busy_id : Z) : DB :=
  set_busy db (filter (fun b => negb (b_id b =? busy_id)) (busy_times db))
    (seq_busy db).

Definition opt_eqb (o : option string) (s : string) : bool :=
  match o with
  | Some x => (x =? s)%string
  | None => false
  end.

(** [get_booked_slots]: [list(set(booked + busy))], a list without
    repeats whose order Python leaves open; only membership is used. *)
Definition get_booked_slots (db : DB) (provider_id : Z) (date : string)
  : list string :=
  let booked :=
    flat_map (fun q => match q_time q with Some t => [t] | None => [] end)
      (filter (fun q => (q_provider q =? provider_id) && opt_eqb (q_date q) date)
         (queues db)) in
  let busy :=
    map b_time
      (filter (fun b => (b_provider b =? provider_id) && (b_date b =? date)%string)
         (busy_times db)) in
  nodup string_dec (booked ++ busy).

(** ** The slot grid *)

(** [str(n)] for an [int]. *)
Definition str_int (n : Z) : string :=
  DecimalString.NilZero.string_of_int (Z.to_int n).

(** The format [{n:02d}]: zero-padded to two characters. *)
Definition fmt02 (n : Z) : string :=
  let s := str_int n in
  if (String.length s <? 2)%nat then "0" ++ s else s.

(** [range(a, b)] *)
Definition range (a b : Z) : list Z :=
  map (fun i => a + Z.of_nat i) (seq 0 (Z.to_nat (b - a))).

(** The loop of [client_pick_date] followed by [slots[:-1]]. *)
Definition slots : list string :=
  removelast
    (flat_map (fun h => [fmt02 h ++ ":00"; fmt02 h ++ ":30"]) (range 9 18)).

Definition mem (s : string) (l : list string) : bool :=
  existsb (String.eqb s) l.

(** [[s for s in slots if s not in blocked]] *)
Definition available_slots (db : DB) (provider_id : Z) (date : string)
  : list string :=
  let blocked := get_booked_slots db provider_id date in
  filter (fun s => negb (mem s blocked)) slots.

(** ** Handlers *)

(** *** Listing the queue *)

Inductive queue_line : Type :=
| WalkInLine (pos user_id : Z) (service_name : string)
| ScheduledLine (date time : option string) (user_id : Z) (service_name : string).

Inductive show_queue_reply : Type :=
| SQ_NotRegistered
| SQ_Empty
| SQ_Lines (lines : list queue_line).

(** [ORDER BY position ASC, date, time ASC] *)
Definition by_position_date_time (rows : list queue_row) : list queue_row :=
  Sql.order_by (fun q => (q_position q, (q_date q, q_time q)))
    (Sql.lex Z.compare (Sql.lex text_cmp text_cmp)) rows.

(** The query of [show_queue]. *)
Definition queue_rows (db : DB) (provider_id : Z) : list queue_row :=
  by_position_date_time
    (filter (fun q => q_provider q =? provider_id) (queues db)).

Definition unknown_service : string := "❓ Noma'lum xizmat".

Definition render_line (db : DB) (q : queue_row) : queue_line :=
  let service_name :=
    match service_name_of db (q_service q) with
    | Some n => n
    | None => unknown_service
    end in
  if 0 <? q_position q
  then WalkInLine (q_position q) (q_user q) service_name
  else ScheduledLine (q_date q) (q_time q) (q_user q) service_name.

Definition show_queue (db : DB) (from_user : Z) : show_queue_reply :=
  match get_provider_by_owner db from_user with
  | None => SQ_NotRegistered
  | Some (provider_id, _, _) =>
      match queue_rows db provider_id with
      | [] => SQ_Empty
      | rows => SQ_Lines (map (render_line db) rows)
      end
  end.

(** *** Calling the next client *)

(** What [call_next] does: whom it notifies (best effort: a failed
    [send_message] is swallowed and changes nothing) and what it answers. *)
Inductive call_next_reply : Type :=
| CN_NotRegistered
| CN_Empty
| CN_WalkIn (user_id : Z) (service_name : string)
| CN_Scheduled (user_id : Z) (service_name : string) (date time : option string)
| CN_Raised.

Definition default_service : string := "Xizmat".

Definition service_label (db : DB) (service_id : Z) : string :=
  match service_name_of db service_id with
  | Some n => n
  | None => default_service
  end.

(** The unpacking [user_id, service_id = nxt] and its four-name
    sibling: a tuple of the other shape raises [ValueError]. *)
Definition unpack2 (nxt : popped) : option (Z * Z) :=
  match nxt with
  | PopWalkIn u s => Some (u, s)
  | PopScheduled _ _ _ _ => None
  end.

Definition unpack4 (nxt : popped)
  : option (Z * Z * option string * option string) :=
  match nxt with
  | PopScheduled u s d t => Some (u, s, d, t)
  | PopWalkIn _ _ => None
  end.

Definition call_next (db : DB) (from_user : Z) : call_next_reply * DB :=
  match get_provider_by_owner db from_user with
  | None => (CN_NotRegistered, db)
  | Some (pid, _, _) =>
      match pop_next_in_queue db pid false with
      | (None, db1) =>
          match pop_next_in_queue db1 pid true with
          | (None, db2) => (CN_Empty, db2)
          | (Some nxt, db2) =>
              match unpack4 nxt with
              | Some (user_id, service_id, date_val, time_val) =>
                  (CN_Scheduled user_id (service_label db2 service_id)
                     date_val time_val, db2)
              | None => (CN_Raised, db2)
              end
          end
      | (Some nxt, db1) =>
          match unpack2 nxt with
          | Some (user_id, service_id) =>
              (CN_WalkIn user_id (service_label db1 service_id), db1)
          | None => (CN_Raised, db1)
          end
      end
  end.

(** *** Clearing the queue, unregistering *)

Definition clear_queue (db : DB) (from_user : Z) : bool * DB :=
  match get_provider_by_owner db from_user with
  | None => (false, db)
  | Some (pid, _, _) =>
      (true,
       set_queues db (filter (fun q => negb (q_provider q =? pid)) (queues db))
         (seq_queues db))
  end.

Definition unregister (db : DB) (from_user : Z) : bool * DB :=
  match get_provider_by_owner db from_user with
  | None => (false, db)
  | Some (pid, _, _) => (true, delete_provider db pid)
  end.

(** *** Busy blocks *)

Inductive delete_busy_reply : Type :=
| DB_NoPermission
| DB_Deleted.

(** [admin_delete_busy] on the payload [delbusy:{busy_id}:{pid}].  The
    listing it sends afterwards only reads the store. *)
Definition admin_delete_busy (db : DB) (from_user busy_id pid : Z)
  : delete_busy_reply * DB :=
  match get_provider_owner db pid with
  | Some owner =>
      if owner =? from_user
      then (DB_Deleted, remove_busy_time db busy_id)
      else (DB_NoPermission, db)
  | None => (DB_NoPermission, db)
  end.

(** *** Booking a slot *)

Inductive book_reply : Type :=
| BK_SlotConflict
| BK_Booked (notified_owner : option Z) (service_name : string)
| BK_Raised.

(** [client_book_slot] on the payload
    [book:{provider_id}:{svc_id}:{sel_date}:{sel_time}]. *)
Definition client_book_slot (db : DB) (from_user provider_id svc_id : Z)
    (sel_date sel_time : string) : book_reply * DB :=
  let blocked := get_booked_slots db provider_id sel_date in
  if mem sel_time blocked then (BK_SlotConflict, db)
  else
    match add_to_queue db provider_id from_user svc_id
            (Some sel_date) (Some sel_time) with
    | Ok (_, db') =>
        (BK_Booked (get_provider_owner db' provider_id)
           (service_label db' svc_id), db')
    | IntegrityError => (BK_Raised, db)
    end.

(** *** Registration: a two-message conversation

    aiogram keeps one conversation state per (chat, user).  A message
    whose text is the registration button goes to [register_start]
    whatever the state; any other text (the [/start] command apart, which
    [on_start] takes) from a (chat, user) whose state is
    [RegisterProvider.name] goes to [register_finish], which is
    registered before the handlers of the menu buttons.

    The handlers are coroutines and polling takes up each update in a
    task of its own: while one handler stands at an [await] on Telegram,
    the next update is handled.  [register_finish] has one such [await]
    between its insert and [state.clear()], the call [bot.get_me()]; the
    other handlers of the registration are modelled as single steps
    (their [await]s on Telegram come after their last read or write, and
    an [await] on the in-memory state storage does not suspend). *)

Inductive fsm_state : Type :=
| RegisterProvider_name
| AddService_name
| BusyTimeStates_date
| BusyTimeStates_time.

Definition fsm_key : Type := (Z * Z)%type.

Definition fsm : Type := list (fsm_key * fsm_state).

Definition key_eqb (k1 k2 : fsm_key) : bool :=
  (fst k1 =? fst k2) && (snd k1 =? snd k2).

Definition get_state (st : fsm) (k : fsm_key) : option fsm_state :=
  option_map snd (find (fun e => key_eqb (fst e) k) st).

Definition clear_state (st : fsm) (k : fsm_key) : fsm :=
  filter (fun e => negb (key_eqb (fst e) k)) st.

Definition set_state (st : fsm) (k : fsm_key) (s : fsm_state) : fsm :=
  (k, s) :: clear_state st k.

(** [str.strip()].  A text is held as the bytes of its UTF-8 encoding;
    the characters stripped are those [str.isspace()] holds of: U+0009 to
    U+000D, U+001C to U+0020, U+0085, U+00A0, U+1680, U+2000 to U+200A,
    U+2028, U+2029, U+202F, U+205F and U+3000.  The first ten are one
    byte each, the next two are two bytes, the others three. *)
Definition is_space (c : ascii) : bool :=
  let n := nat_of_ascii c in
  (((9 <=? n) && (n <=? 13)) || ((28 <=? n) && (n <=? 32)))%nat.

Definition is_space2 (a b : ascii) : bool :=
  let a := nat_of_ascii a in
  let b := nat_of_ascii b in
  ((a =? 194) && ((b =? 133) || (b =? 160)))%nat.

Definition is_space3 (a b c : ascii) : bool :=
  let a := nat_of_ascii a in
  let b := nat_of_ascii b in
  let c := nat_of_ascii c in
  (((a =? 225) && (b =? 154) && (c =? 128))
   || ((a =? 226) && (b =? 128)
       && (((128 <=? c) && (c <=? 138)) || (c =? 168) || (c =? 169)
           || (c =? 175)))
   || ((a =? 226) && (b =? 129) && (c =? 159))
   || ((a =? 227) && (b =? 128) && (c =? 128)))%nat.

(** Drops the whitespace characters at the front of [l]; [sp2] and [sp3]
    recognise the two-byte and the three-byte ones in the order in which
    their bytes come in [l]. *)
Fixpoint strip_front (sp2 : ascii -> ascii -> bool)
    (sp3 : ascii -> ascii -> ascii -> bool) (l : list ascii) : list ascii :=
  match l with
  | a :: l1 =>
      if is_space a then strip_front sp2 sp3 l1
      else
        match l1 with
        | b :: l2 =>
            if sp2 a b then strip_front sp2 sp3 l2
            else
              match l2 with
              | c :: l3 => if sp3 a b c then strip_front sp2 sp3 l3 else l
              | [] => l
              end
        | [] => l
        end
  | [] => []
  end.

Definition lstrip (l : list ascii) : list ascii :=
  strip_front is_space2 is_space3 l.

(** [rstrip], on the reversed text: the bytes of a character come last
    byte first. *)
Definition rstrip_rev (l : list ascii) : list ascii :=
  strip_front (fun b a => is_space2 a b) (fun c b a => is_space3 a b c) l.

Definition strip (s : string) : string :=
  string_of_list_ascii
    (rev (rstrip_rev (rev (lstrip (list_ascii_of_string s))))).

Inductive register_reply : Type :=
| RG_AlreadyRegistered
| RG_AskName
| RG_EmptyName
| RG_Registered (name ref_code : string)
| RG_Raised.

Definition register_start (db : DB) (st : fsm) (chat_id from_user : Z)
  : register_reply * fsm :=
  match get_provider_by_owner db from_user with
  | Some _ => (RG_AlreadyRegistered, st)
  | None => (RG_AskName, set_state st (chat_id, from_user) RegisterProvider_name)
  end.

(** [register_finish]; [uuid8] is the token [create_provider] draws and
    [get_me_ok] tells whether the [bot.get_me()] call between the insert
    and [state.clear()] returns (it raises on a network failure). *)
Definition register_finish (db : DB) (st : fsm) (chat_id from_user : Z)
    (text uuid8 : string) (get_me_ok : bool) : register_reply * DB * fsm :=
  let name := strip text in
  if (name =? "")%string then (RG_EmptyName, db, st)
  else
    match create_provider db from_user name uuid8 with
    | IntegrityError => (RG_Raised, db, st)
    | Ok (ref, db') =>
        if get_me_ok
        then (RG_Registered name ref, db', clear_state st (chat_id, from_user))
        else (RG_Raised, db', st)
    end.

(** [register_finish] as far as [await bot.get_me()]: the name check
    and the insert.  [None] when the handler ends before the [await]
    (a blank name is answered, an insert that raises ends the handler),
    with the store as it was. *)
Definition register_finish_insert (db : DB) (from_user : Z)
    (text uuid8 : string) : option (string * string * DB) :=
  let name := strip text in
  if (name =? "")%string then None
  else
    match create_provider db from_user name uuid8 with
    | IntegrityError => None
    | Ok (ref, db') => Some (name, ref, db')
    end.

(** [register_finish] from that [await] on: when [bot.get_me()] returns,
    [state.clear()] and the answer; when it raises, the handler ends
    there. *)
Definition register_finish_resume (st : fsm) (chat_id from_user : Z)
    (get_me_ok : bool) : fsm :=
  if get_me_ok then clear_state st (chat_id, from_user) else st.

(** What happens during registration, and the handler each message
    reaches: the registration button; a text that is neither that button
    nor a [/start] command.  A text is handled in one piece ([SendText]:
    nothing else is handled before its [bot.get_me()] is back) or in two
    ([TextArrives]: the handler runs up to [await bot.get_me()];
    [GetMeReturns]: [bot.get_me()] is back for a handler of that chat and
    user, which runs to its end), with other events in between. *)
Inductive reg_event : Type :=
| PressRegister (chat_id from_user : Z)
| SendText (chat_id from_user : Z) (text uuid8 : string) (get_me_ok : bool)
| TextArrives (chat_id from_user : Z) (text uuid8 : string)
| GetMeReturns (chat_id from_user : Z) (get_me_ok : bool).

Definition reg_step (s : DB * fsm) (e : reg_event) : DB * fsm :=
  let (db, st) := s in
  match e with
  | PressRegister chat_id from_user =>
      (db, snd (register_start db st chat_id from_user))
  | SendText chat_id from_user text uuid8 get_me_ok =>
      match get_state st (chat_id, from_user) with
      | Some RegisterProvider_name =>
          let '(_, db', st') :=
            register_finish db st chat_id from_user text uuid8 get_me_ok in
          (db', st')
      | _ => (db, st)
      end
  | TextArrives chat_id from_user text uuid8 =>
      match get_state st (chat_id, from_user) with
      | Some RegisterProvider_name =>
          match register_finish_insert db from_user text uuid8 with
          | Some (_, _, db') => (db', st)
          | None => (db, st)
          end
      | _ => (db, st)
      end
  | GetMeReturns chat_id from_user get_me_ok =>
      (db, register_finish_resume st chat_id from_user get_me_ok)
  end.

Definition reg_run (s : DB * fsm) (es : list reg_event) : DB * fsm :=
  fold_left reg_step es s.






(** The provider records an owner holds. *)
Definition providers_of (db : DB) (owner_id : Z) : list provider_row :=
  filter (fun p => p_owner p =? owner_id) (providers db).

(** ** Runs of the walk-in line *)

(** The two operations on a provider's walk-in line: a walk-in joins
    ([add_to_queue] without date and time), the next one is popped. *)
Inductive line_op : Type :=
| Enqueue (user_id service_id : Z)
| Pop.

(** Runs the operations on provider [pid] and collects the positions
    [add_to_queue] returned, in order. *)
Fixpoint assigned (db : DB) (pid : Z) (ops : list line_op) : list Z :=
  match ops with
  | [] => []
  | Enqueue u s :: ops' =>
      match add_to_queue db pid u s None None with
      | Ok (pos, db') => pos :: assigned db' pid ops'
      | IntegrityError => assigned db pid ops'
      end
  | Pop :: ops' => assigned (snd (pop_next_in_queue db pid false)) pid ops'
  end.

(** No [Pop] of the run takes the last walk-in of the line: each one
    finds the line empty and takes nothing, or leaves a walk-in behind. *)
Fixpoint never_emptied (db : DB) (pid : Z) (ops : list line_op) : Prop :=
  match ops with
  | [] => True
  | Enqueue u s :: ops' =>
      match add_to_queue db pid u s None None with
      | Ok (_, db') => never_emptied db' pid ops'
      | IntegrityError => never_emptied db pid ops'
      end
  | Pop :: ops' =>
      let db' := snd (pop_next_in_queue db pid false) in
      (walkins db pid = [] \/ walkins db' pid <> []) /\
      never_emptied db' pid ops'
  end.

(** ** Shapes of queue entries *)

Definition is_walkin (q : queue_row) : Prop :=
  0 < q_position q /\ q_date q = None /\ q_time q = None.

Definition is_scheduled (q : queue_row) : Prop :=
  q_position q = 0 /\ (exists d, q_date q = Some d) /\ (exists t, q_time q = Some t).

(** Every entry has one of the two shapes. *)
Definition queue_shapes (db : DB) : Prop :=
  forall q, In q (queues db) -> is_walkin q \/ is_scheduled q.

(** Rowids are a primary key. *)
Definition queue_ids_unique (db : DB) : Prop := NoDup (map q_id (queues db)).

(** [d1 t1] is not later than [d2 t2], dates and times compared as the
    stored text. *)
Definition not_later (d1 t1 d2 t2 : string) : Prop :=
  String.compare d1 d2 = Lt \/ (d1 = d2 /\ String.compare t1 t2 <> Gt).

(** ** The operations that change the store *)

Inductive op : Type :=
| OpCreateProvider (owner_id : Z) (name ref_code : string)
| OpAddService (provider_id : Z) (name : string)
| OpAddToQueue (provider_id user_id service_id : Z) (date time : option string)
| OpPop (provider_id : Z) (include_scheduled : bool)
| OpCallNext (from_user : Z)
| OpClearQueue (from_user : Z)
| OpUnregister (from_user : Z)
| OpAddBusy (provider_id : Z) (date time : string)
| OpDeleteBusy (from_user busy_id pid : Z)
| OpBook (from_user provider_id svc_id : Z) (sel_date sel_time : string).

(** The store after a statement that may raise: as it was, if it did. *)
Definition store_after {A : Type} (r : result (A * DB)) (db : DB) : DB :=
  match r with
  | Ok (_, db') => db'
  | IntegrityError => db
  end.

Definition apply_op (db : DB) (o : op) : DB :=
  match o with
  | OpCreateProvider owner_id name ref_code =>
      store_after (create_provider db owner_id name ref_code) db
  | OpAddService provider_id name => snd (add_service db provider_id name)
  | OpAddToQueue provider_id user_id service_id date time =>
      store_after (add_to_queue db provider_id user_id service_id date time) db
  | OpPop provider_id include_scheduled =>
      snd (pop_next_in_queue db provider_id include_scheduled)
  | OpCallNext from_user => snd (call_next db from_user)
  | OpClearQueue from_user => snd (clear_queue db from_user)
  | OpUnregister from_user => snd (unregister db from_user)
  | OpAddBusy provider_id date time =>
      store_after (add_busy_time db provider_id date time) db
  | OpDeleteBusy from_user busy_id pid =>
      snd (admin_delete_busy db from_user busy_id pid)
  | OpBook from_user provider_id svc_id sel_date sel_time =>
      snd (client_book_slot db from_user provider_id svc_id sel_date sel_time)
  end.

Definition run (db : DB) (ops : list op) : DB := fold_left apply_op ops db.

(** What an operation does to the queue table: nothing, a deletion of
    some rows, or the insertion [add_to_queue] makes. *)
Inductive queue_change (db db' : DB) : Prop :=
| QC_same : queues db' = queues db -> queue_change db db'
| QC_deleted (f : queue_row -> bool) :
    queues db' = filter f (queues db) -> queue_change db db'
| QC_added (p u s pos : Z) (d t : option string) :
    add_to_queue db p u s d t = Ok (pos, db') -> queue_change db db'.

(** ** Sample stores *)

Module Demo.
(** A salon owned by user 100 with one service. *)
Definition salon : DB :=
  run empty_db [OpCreateProvider 100 "Salon" "abcd1234";
                OpAddService 1 "Haircut"].

(** Client 5 has booked 2025-08-20 09:00. *)
Definition booked : DB :=
  run salon [OpBook 5 1 1 "2025-08-20" "09:00"].

(** Then A (7), B (8) and C (9) walk in. *)
Definition line : DB :=
  run booked [OpAddToQueue 1 7 1 None None;
              OpAddToQueue 1 8 1 None None;
              OpAddToQueue 1 9 1 None None].

(** Two bookings, the later one made first. *)
Definition two_bookings : DB :=
  run salon [OpBook 6 1 1 "2025-08-25" "10:00";
             OpBook 5 1 1 "2025-08-20" "09:00"].

(** A second provider (owner 200) whose queue holds a booking for a
    service of the first: the payload [book:2:1:2025-08-25:10:00]. *)
Definition crossed : DB :=
  run salon [OpCreateProvider 200 "Barber" "ffff0000";
             OpBook 6 2 1 "2025-08-25" "10:00"].

(** Both providers have blocked a time. *)
Definition blocked : DB :=
  run salon [OpCreateProvider 200 "Barber" "ffff0000";
             OpAddBusy 1 "2025-08-25" "12:00";
             OpAddBusy 2 "2025-08-25" "13:00"].

Definition text_of (bytes : list nat) : string :=
  string_of_list_ascii (map ascii_of_nat bytes).

(** The characters [str.isspace()] holds of, each as its UTF-8 bytes. *)
Definition whitespace : list string :=
  map text_of
    [[9]; [10]; [11]; [12]; [13]; [28]; [29]; [30]; [31]; [32];
     [194; 133]; [194; 160]; [225; 154; 128];
     [226; 128; 128]; [226; 128; 129]; [226; 128; 130]; [226; 128; 131];
     [226; 128; 132]; [226; 128; 133]; [226; 128; 134]; [226; 128; 135];
     [226; 128; 136]; [226; 128; 137]; [226; 128; 138];
     [226; 128; 168]; [226; 128; 169]; [226; 128; 175]; [226; 129; 159];
     [227; 128; 128]]%nat.

(** A space, a no-break space (U+00A0) and an ideographic space
    (U+3000). *)
Definition blank : string := text_of [32; 194; 160; 227; 128; 128]%nat.
End Demo.

(** ** Properties of listings and runs, as predicates *)

(** In a listing, every walk-in comes before every scheduled entry. *)
Definition walkins_before_scheduled (l : list queue_row) : Prop :=
  forall (i j : nat) (ri rj : queue_row),
    nth_error l i = Some ri -> nth_error l j = Some rj ->
    0 < q_position ri -> q_position rj = 0 -> (i < j)%nat.

(** In a listing, every scheduled entry comes before every walk-in. *)
Definition scheduled_before_walkins (l : list queue_row) : Prop :=
  forall (i j : nat) (ri rj : queue_row),
    nth_error l i = Some ri -> nth_error l j = Some rj ->
    q_position ri = 0 -> 0 < q_position rj -> (i < j)%nat.

(** The positions handed out in a run never repeat and go up. *)
Definition strictly_increasing (l : list Z) : Prop := StronglySorted Z.lt l.

(** ** More handlers *)

(** *** Adding a service *)

Inductive add_service_reply : Type :=
| AS_NotRegistered
| AS_EmptyName
| AS_Added (name : string)
| AS_Exists (name : string).

(** [add_service_save], the handler of the state [AddService.name]. *)
Definition add_service_save (db : DB) (st : fsm) (chat_id from_user : Z)
    (text : string) : add_service_reply * DB * fsm :=
  match get_provider_by_owner db from_user with
  | None => (AS_NotRegistered, db, clear_state st (chat_id, from_user))
  | Some (provider_id, _, _) =>
      let svc_name := strip text in
      if (svc_name =? "")%string then (AS_EmptyName, db, st)
      else
        let (ok, db') := add_service db provider_id svc_name in
        (if ok then AS_Added svc_name else AS_Exists svc_name,
         db', clear_state st (chat_id, from_user))
  end.

(** *** Blocking a time *)

Inductive busy_time_reply : Type :=
| BT_BadFormat
| BT_NotRegistered
| BT_Blocked (date time : string)
| BT_Raised.

(** [f"{h:02d}:{m:02d}"] *)
Definition time_str (h m : Z) : string := fmt02 h ++ ":" ++ fmt02 m.

(** The tens digit and the units digit of [n], as text. *)
Definition two_digits (n : Z) : string :=
  String (ascii_of_nat (48 + Z.to_nat (n / 10)))
    (String (ascii_of_nat (48 + Z.to_nat (n mod 10))) "").

(** [admin_busy_time], the handler of the state [BusyTimeStates.time].
    [date_val] is the date kept in the conversation data; [parsed] is
    the pair [map(int, txt.split(":"))] yields, [None] when the text
    does not split into two integers.  The [assert] on the ranges is
    taken as executed. *)
Definition admin_busy_time (db : DB) (st : fsm) (chat_id from_user : Z)
    (date_val : string) (parsed : option (Z * Z))
  : busy_time_reply * DB * fsm :=
  match parsed with
  | None => (BT_BadFormat, db, st)
  | Some (h, m) =>
      if (0 <=? h) && (h <? 24) && (0 <=? m) && (m <? 60) then
        match get_provider_by_owner db from_user with
        | None => (BT_NotRegistered, db, clear_state st (chat_id, from_user))
        | Some (pid, _, _) =>
            match add_busy_time db pid date_val (time_str h m) with
            | Ok (_, db') =>
                (BT_Blocked date_val (time_str h m), db',
                 clear_state st (chat_id, from_user))
            | IntegrityError => (BT_Raised, db, st)
            end
        end
      else (BT_BadFormat, db, st)
  end.

Inductive list_busy_reply : Type :=
| LB_NotRegistered
| LB_None
| LB_Blocks (buttons : list (Z * string * string * Z)).

(** [admin_list_busy]: one button per block of the caller's provider,
    carrying the payload [delbusy:{busy_id}:{pid}]. *)
Definition admin_list_busy (db : DB) (from_user : Z) : list_busy_reply :=
  match get_provider_by_owner db from_user with
  | None => LB_NotRegistered
  | Some (pid, _, _) =>
      match get_busy_times db pid with
      | [] => LB_None
      | rows => LB_Blocks (map (fun '(busy_id, d, t) => (busy_id, d, t, pid)) rows)
      end
  end.

(** *** Choosing a service and a date *)

(** [client_pick_service] on the payload [svc:{svc_id}]: the name of the
    service and the payloads [date:{provider_id}:{svc_id}:{d}] of its
    buttons, one per date of [next_n_dates(7)], passed as [dates]. *)
Definition client_pick_service (db : DB) (svc_id : Z) (dates : list string)
  : option (string * list (Z * Z * string)) :=
  match find (fun s => s_id s =? svc_id) (services db) with
  | None => None
  | Some s => Some (s_name s, map (fun d => (s_provider s, svc_id, d)) dates)
  end.

Inductive pick_date_reply : Type :=
| PD_NoSlots
| PD_Slots (buttons : list (Z * Z * string * string)).

(** [client_pick_date] on the payload
    [date:{provider_id}:{svc_id}:{sel_date}]: the payloads
    [book:{provider_id}:{svc_id}:{sel_date}:{t}] of its buttons. *)
Definition client_pick_date (db : DB) (provider_id svc_id : Z)
    (sel_date : string) : pick_date_reply :=
  match available_slots db provider_id sel_date with
  | [] => PD_NoSlots
  | available =>
      PD_Slots (map (fun t => (provider_id, svc_id, sel_date, t)) available)
  end.

(** ** Integrity of the store *)

(** Every foreign key points to a row that exists. *)
Definition fk_ok (db : DB) : Prop :=
  (forall s, In s (services db) -> provider_exists db (s_provider s) = true) /\
  (forall q, In q (queues db) ->
     provider_exists db (q_provider q) = true /\
     service_exists db (q_service q) = true) /\
  (forall b, In b (busy_times db) -> provider_exists db (b_provider b) = true).

(** The primary keys and the two [UNIQUE] constraints hold. *)
Definition keys_ok (db : DB) : Prop :=
  NoDup (map p_id (providers db)) /\
  NoDup (map p_ref (providers db)) /\
  NoDup (map s_id (services db)) /\
  NoDup (map (fun s => (s_provider s, s_name s)) (services db)) /\
  NoDup (map q_id (queues db)) /\
  NoDup (map b_id (busy_times db)).

(** No two walk-ins of a provider share a position. *)
Definition positions_distinct (db : DB) : Prop :=
  forall pid, NoDup (map q_position (walkins db pid)).

(** What an operation does to the tables. *)
Inductive store_change (db db' : DB) : Prop :=
| SC_same :
    providers db' = providers db -> services db' = services db ->
    queues db' = queues db -> busy_times db' = busy_times db ->
    store_change db db'
| SC_provider (p : provider_row) :
    providers db' = (providers db ++ [p])%list ->
    ~ In (p_id p) (map p_id (providers db)) ->
    ~ In (p_ref p) (map p_ref (providers db)) ->
    services db' = services db -> queues db' = queues db ->
    busy_times db' = busy_times db ->
    store_change db db'
| SC_service (s : service_row) :
    services db' = (services db ++ [s])%list ->
    ~ In (s_id s) (map s_id (services db)) ->
    ~ In (s_provider s, s_name s)
         (map (fun s => (s_provider s, s_name s)) (services db)) ->
    provider_exists db (s_provider s) = true ->
    providers db' = providers db -> queues db' = queues db ->
    busy_times db' = busy_times db ->
    store_change db db'
| SC_queue_add (q : queue_row) :
    queues db' = (queues db ++ [q])%list ->
    ~ In (q_id q) (map q_id (queues db)) ->
    provider_exists db (q_provider q) = true ->
    service_exists db (q_service q) = true ->
    providers db' = providers db -> services db' = services db ->
    busy_times db' = busy_times db ->
    store_change db db'
| SC_queue_del (f : queue_row -> bool) :
    queues db' = filter f (queues db) ->
    providers db' = providers db -> services db' = services db ->
    busy_times db' = busy_times db ->
    store_change db db'
| SC_busy_add (b : busy_row) :
    busy_times db' = (busy_times db ++ [b])%list ->
    ~ In (b_id b) (map b_id (busy_times db)) ->
    provider_exists db (b_provider b) = true ->
    providers db' = providers db -> services db' = services db ->
    queues db' = queues db ->
    store_change db db'
| SC_busy_del (f : busy_row -> bool) :
    busy_times db' = filter f (busy_times db) ->
    providers db' = providers db -> services db' = services db ->
    queues db' = queues db ->
    store_change db db'
| SC_cascade (pid : Z) :
    providers db' = providers (delete_provider db pid) ->
    services db' = services (delete_provider db pid) ->
    queues db' = queues (delete_provider db pid) ->
    busy_times db' = busy_times (delete_provider db pid) ->
    store_change db db'.

(** Calling the next client [n] times. *)
Fixpoint call_next_n (n : nat) (db : DB) (from_user : Z)
  : list call_next_reply * DB :=
  match n with
  | O => ([], db)
  | S n' =>
      let (r, db1) := call_next db from_user in
      let (rs, db2) := call_next_n n' db1 from_user in
      (r :: rs, db2)
  end.

(** A reply of [call_next] that dispatches a client. *)
Definition is_dispatch (r : call_next_reply) : Prop :=
  match r with
  | CN_WalkIn _ _ | CN_Scheduled _ _ _ _ => True
  | _ => False
  end.

(** The queue entries of a provider. *)
Definition provider_rows (db : DB) (pid : Z) : list queue_row :=
  filter (fun q => q_provider q =? pid) (queues db).



(** ** The start command and the polling loop *)

Inductive start_reply : Type :=
| ST_ProviderNotFound
| ST_NoServices (provider_name : string)
| ST_Services (provider_name : string) (buttons : list (Z * string))
| ST_Menu (ref_code : string)
| ST_Register.

(** [on_start]; [payload] is the second word of the message, [""] when
    there is none.  The buttons carry [svc:{sid}] and show the name; the
    menu reply carries the caller's referral code in its link. *)
Definition on_start (db : DB) (from_user : Z) (payload : string) : start_reply :=
  if negb (payload =? "")%string then
    match get_provider_by_ref db payload with
    | None => ST_ProviderNotFound
    | Some (provider_id, provider_name) =>
        match get_services db provider_id with
        | [] => ST_NoServices provider_name
        | services => ST_Services provider_name services
        end
    end
  else
    match get_provider_by_owner db from_user with
    | Some (_, _, ref) => ST_Menu ref
    | None => ST_Register
    end.

Definition max_retries : nat := 5.

(** The loop of [main] from attempt [attempt] on, with [n_left]
    iterations of the [range] left; [fails i] tells whether
    [dp.start_polling] raises at attempt [i].  Returns the delays slept,
    in order, and whether the last exception was raised again. *)
Fixpoint retry_loop (fails : nat -> bool) (attempt n_left : nat)
    (retry_delay : Z) : list Z * bool :=
  match n_left with
  | O => ([], false)
  | S n' =>
      if fails attempt then
        if (attempt <? max_retries - 1)%nat then
          let (sleeps, raised) :=
            retry_loop fails (S attempt) n' (retry_delay * 2) in
          (retry_delay :: sleeps, raised)
        else ([], true)
      else ([], false)
  end.

Definition main (fails : nat -> bool) : list Z * bool :=
  retry_loop fails 0 max_retries 10.

(** * Facts *)

(** ** Orderings and [ORDER BY] *)

Module SqlFacts.
Import Sql.

Lemma ascii_compare_refl (a : ascii) : Ascii.compare a a = Eq.
Proof. apply N.compare_refl. Qed.

Lemma ascii_lt_trans (a b c : ascii) :
  Ascii.compare a b = Lt -> Ascii.compare b c = Lt -> Ascii.compare a c = Lt.
Proof. unfold Ascii.compare. rewrite !N.compare_lt_iff. lia. Qed.

Lemma string_compare_refl (s : string) : String.compare s s = Eq.
Proof.
  induction s as [|a s IH]; simpl; [reflexivity|].
  now rewrite ascii_compare_refl.
Qed.

Lemma string_lt_trans : forall x y z : string,
  String.compare x y = Lt -> String.compare y z = Lt -> String.compare x z = Lt.
Proof.
  induction x as [|a x IH]; intros [|b y] [|c z]; simpl; try easy.
  destruct (Ascii.compare a b) eqn:E1; try discriminate;
    destruct (Ascii.compare b c) eqn:E2; try discriminate; intros H1 H2.
  - apply Ascii.compare_eq_iff in E1, E2; subst.
    rewrite ascii_compare_refl; eauto.
  - apply Ascii.compare_eq_iff in E1; subst. now rewrite E2.
  - apply Ascii.compare_eq_iff in E2; subst. now rewrite E1.
  - now rewrite (ascii_lt_trans _ _ _ E1 E2).
Qed.

Lemma good_Z : good_cmp Z.compare.
Proof.
  split.
  - apply Z.compare_eq_iff.
  - intros x y. apply Z.compare_antisym.
  - intros x y z. rewrite !Z.compare_lt_iff. lia.
Qed.

Lemma good_string : good_cmp String.compare.
Proof.
  split.
  - intros x y; split.
    + apply String.compare_eq_iff.
    + intros ->. apply string_compare_refl.
  - intros x y. apply String.compare_antisym.
  - apply string_lt_trans.
Qed.

Lemma good_null_first (A : Type) (c : A -> A -> comparison) :
  good_cmp c -> good_cmp (null_first c).
Proof.
  intros [He Ho Ht]; split.
  - intros [x|] [y|]; simpl; try (split; congruence).
    rewrite He; split; congruence.
  - intros [x|] [y|]; simpl; auto.
  - intros [x|] [y|] [z|]; simpl; try congruence. apply Ht.
Qed.

Lemma good_lex (A B : Type) (ca : A -> A -> comparison)
    (cb : B -> B -> comparison) :
  good_cmp ca -> good_cmp cb -> good_cmp (lex ca cb).
Proof.
  intros [Hea Hoa Hta] [Heb Hob Htb]; split.
  - intros [a b] [a' b']; unfold lex; simpl.
    destruct (ca a a') eqn:E.
    + apply Hea in E; subst. rewrite Heb. split; congruence.
    + split; [discriminate|]. intros H; inversion H; subst.
      assert (ca a' a' = Eq) by now apply Hea. congruence.
    + split; [discriminate|]. intros H; inversion H; subst.
      assert (ca a' a' = Eq) by now apply Hea. congruence.
  - intros [a b] [a' b']; unfold lex; simpl.
    rewrite (Hoa a a'). destruct (ca a a'); simpl; auto.
  - intros [a b] [a' b'] [a'' b'']; unfold lex; simpl.
    destruct (ca a a') eqn:E1; try discriminate;
      destruct (ca a' a'') eqn:E2; try discriminate; intros H1 H2.
    + apply Hea in E1, E2; subst.
      assert (E : ca a'' a'' = Eq) by now apply Hea.
      rewrite E; eauto.
    + apply Hea in E1; subst. now rewrite E2.
    + apply Hea in E2; subst. now rewrite E1.
    + now rewrite (Hta _ _ _ E1 E2).
Qed.

Lemma good_text_cmp : good_cmp text_cmp.
Proof. apply good_null_first, good_string. Qed.

Section Leb.
Variables (K : Type) (c : K -> K -> comparison).
Hypothesis Hc : good_cmp c.

Lemma leb_refl (x : K) : leb_of c x x = true.
Proof.
  unfold leb_of. assert (E : c x x = Eq) by now apply (cmp_eq Hc).
  now rewrite E.
Qed.

Lemma leb_false_lt (x y : K) : leb_of c x y = false -> c y x = Lt.
Proof.
  unfold leb_of. rewrite (cmp_opp Hc x y).
  destruct (c x y); simpl; congruence.
Qed.

Lemma leb_total (x y : K) : leb_of c x y = true \/ leb_of c y x = true.
Proof.
  destruct (leb_of c x y) eqn:E; [now left|right].
  apply leb_false_lt in E. unfold leb_of. now rewrite E.
Qed.

Lemma leb_trans (x y z : K) :
  leb_of c x y = true -> leb_of c y z = true -> leb_of c x z = true.
Proof.
  unfold leb_of.
  destruct (c x y) eqn:E1; try discriminate;
    destruct (c y z) eqn:E2; try discriminate; intros _ _.
  - apply (cmp_eq Hc) in E1; subst. now rewrite E2.
  - apply (cmp_eq Hc) in E1; subst. now rewrite E2.
  - apply (cmp_eq Hc) in E2; subst. now rewrite E1.
  - now rewrite (cmp_lt_trans Hc _ _ _ E1 E2).
Qed.
End Leb.

Section Sorting.
Variables (A K : Type) (key : A -> K) (c : K -> K -> comparison).
Hypothesis Hc : good_cmp c.

Lemma insert_perm (x : A) (l : list A) :
  Permutation (insert key c x l) (x :: l).
Proof.
  induction l as [|y l IH]; simpl; [reflexivity|].
  destruct (row_leb key c x y); [reflexivity|].
  rewrite IH. apply perm_swap.
Qed.

Lemma order_by_perm (l : list A) : Permutation (order_by key c l) l.
Proof.
  induction l as [|x l IH]; simpl; [reflexivity|].
  rewrite insert_perm. now constructor.
Qed.

Lemma order_by_In (l : list A) (x : A) :
  In x (order_by key c l) <-> In x l.
Proof.
  split; apply Permutation_in;
    [apply order_by_perm | symmetry; apply order_by_perm].
Qed.

Lemma insert_sorted (x : A) (l : list A) :
  StronglySorted (le key c) l -> StronglySorted (le key c) (insert key c x l).
Proof.
  induction 1 as [|y l Hs IH Hy]; simpl.
  - repeat constructor.
  - destruct (row_leb key c x y) eqn:E.
    + constructor; [now constructor|].
      constructor; [exact E|].
      eapply Forall_impl; [|exact Hy].
      intros z Hz. unfold le, row_leb in *.
      eapply leb_trans; eauto.
    + constructor; [exact IH|].
      eapply Permutation_Forall; [symmetry; apply insert_perm|].
      constructor; [|exact Hy].
      unfold le, row_leb in *.
      destruct (leb_total Hc (key x) (key y)); congruence.
Qed.

Lemma order_by_sorted (l : list A) :
  StronglySorted (le key c) (order_by key c l).
Proof.
  induction l as [|x l IH]; simpl; [constructor|].
  now apply insert_sorted.
Qed.

(** The row [LIMIT 1] picks is a row of the query and no row comes
    before it. *)
Lemma first_is_least (l : list A) (r : A) :
  hd_error (order_by key c l) = Some r ->
  In r l /\ forall r', In r' l -> le key c r r'.
Proof.
  intros H. pose proof (order_by_sorted l) as Hs.
  destruct (order_by key c l) as [|x s] eqn:E; [discriminate|].
  inversion H; subst x; clear H.
  assert (Hin : forall y, In y l <-> In y (r :: s))
    by (intro y; rewrite <- E; symmetry; apply order_by_In).
  split; [apply Hin; now left|].
  intros r' Hr'. apply Hin in Hr'. inversion Hs; subst.
  destruct Hr' as [->|Hr'].
  - apply leb_refl; assumption.
  - eapply Forall_forall; eauto.
Qed.

Lemma first_none (l : list A) :
  hd_error (order_by key c l) = None -> l = [].
Proof.
  intros H. destruct (order_by key c l) eqn:E; [|discriminate].
  pose proof (order_by_perm l) as P. rewrite E in P.
  now apply Permutation_nil in P.
Qed.

Lemma first_some (l : list A) :
  l <> [] -> exists r, hd_error (order_by key c l) = Some r.
Proof.
  intros H. destruct (hd_error (order_by key c l)) eqn:E; [eauto|].
  now apply first_none in E.
Qed.
End Sorting.

Lemma sorted_nth (A : Type) (R : A -> A -> Prop) (l : list A) :
  StronglySorted R l ->
  forall (i j : nat) (x y : A), (i < j)%nat ->
    nth_error l i = Some x -> nth_error l j = Some y -> R x y.
Proof.
  induction 1 as [|a l Hs IH Ha]; intros i j x y Hij Hi Hj.
  - destruct i; discriminate.
  - destruct j as [|j]; [lia|]. simpl in Hj.
    destruct i as [|i]; simpl in Hi.
    + inversion Hi; subst. eapply Forall_forall; eauto.
      eapply nth_error_In; eauto.
    + apply (IH i j x y); [lia|assumption|assumption].
Qed.

End SqlFacts.

Unset Implicit Arguments.

(** ** The store: rows, rowids, deletion *)

Lemma NoDup_map_eq (A B : Type) (f : A -> B) (l : list A) (x y : A) :
  NoDup (map f l) -> In x l -> In y l -> f x = f y -> x = y.
Proof.
  induction l as [|a l IH]; simpl; [easy|].
  intros Hnd Hx Hy E. inversion Hnd as [|? ? Hna Hnd']; subst.
  destruct Hx as [->|Hx], Hy as [->|Hy]; auto.
  - exfalso. apply Hna. rewrite E. now apply in_map.
  - exfalso. apply Hna. rewrite <- E. now apply in_map.
Qed.

Lemma walkins_In (db : DB) (pid : Z) (q : queue_row) :
  In q (walkins db pid) <->
  In q (queues db) /\ q_provider q = pid /\ 0 < q_position q.
Proof.
  unfold walkins. rewrite filter_In, andb_true_iff, Z.eqb_eq, Z.ltb_lt.
  tauto.
Qed.

Lemma provider_rows_In (db : DB) (pid : Z) (q : queue_row) :
  In q (filter (fun q => q_provider q =? pid) (queues db)) <->
  In q (queues db) /\ q_provider q = pid.
Proof. rewrite filter_In, Z.eqb_eq. tauto. Qed.

(** With rowids a primary key, [DELETE ... WHERE id=?] on the rowid of a
    row takes that row and no other. *)
Lemma delete_queue_row_In (db : DB) (r q : queue_row) :
  queue_ids_unique db -> In r (queues db) ->
  (In q (queues (delete_queue_row db (q_id r))) <->
   In q (queues db) /\ q <> r).
Proof.
  intros Hu Hr. unfold delete_queue_row; simpl.
  rewrite filter_In, negb_true_iff, Z.eqb_neq. split.
  - intros [Hq Hne]. split; [assumption|]. congruence.
  - intros [Hq Hne]. split; [assumption|]. intro E. apply Hne.
    eapply NoDup_map_eq; eauto.
Qed.

Lemma delete_queue_row_frame (db : DB) (qid : Z) :
  providers (delete_queue_row db qid) = providers db /\
  services (delete_queue_row db qid) = services db /\
  busy_times (delete_queue_row db qid) = busy_times db.
Proof. now unfold delete_queue_row. Qed.

(** ** Popping *)

Lemma pop_walkin_some (db : DB) (pid : Z) :
  walkins db pid <> [] ->
  exists r,
    In r (queues db) /\ q_provider r = pid /\ 0 < q_position r /\
    (forall w, In w (queues db) -> q_provider w = pid -> 0 < q_position w ->
               q_position r <= q_position w) /\
    pop_next_in_queue db pid false =
      (Some (PopWalkIn (q_user r) (q_service r)), delete_queue_row db (q_id r)).
Proof.
  intros Hne.
  destruct (SqlFacts.first_some q_position Z.compare Hne) as [r Hr].
  destruct (SqlFacts.first_is_least q_position SqlFacts.good_Z _ Hr)
    as [Hin Hmin].
  apply walkins_In in Hin. destruct Hin as (Hin & Hp & Hpos).
  exists r. repeat split; try assumption.
  - intros w Hw Hwp Hwpos.
    assert (Hw' : In w (walkins db pid)) by (apply walkins_In; auto).
    specialize (Hmin w Hw').
    unfold Sql.le, Sql.row_leb, Sql.leb_of in Hmin.
    destruct (Z.compare_spec (q_position r) (q_position w));
      [lia | lia | discriminate].
  - unfold pop_next_in_queue, by_position. now rewrite Hr.
Qed.

Lemma pop_walkin_none (db : DB) (pid : Z) :
  walkins db pid = [] -> pop_next_in_queue db pid false = (None, db).
Proof. intros E. unfold pop_next_in_queue, by_position. now rewrite E. Qed.

Lemma date_time_le_some (d1 t1 d2 t2 : string) :
  Sql.leb_of (Sql.lex text_cmp text_cmp) (Some d1, Some t1) (Some d2, Some t2)
    = true ->
  not_later d1 t1 d2 t2.
Proof.
  unfold Sql.leb_of, Sql.lex, text_cmp, not_later; simpl.
  destruct (String.compare d1 d2) eqn:E; try discriminate.
  - apply String.compare_eq_iff in E; subst. intros H. right.
    split; [reflexivity|]. destruct (String.compare t1 t2); congruence.
  - now left.
Qed.

Lemma pop_any_some (db : DB) (pid : Z) :
  filter (fun q => q_provider q =? pid) (queues db) <> [] ->
  exists r,
    In r (queues db) /\ q_provider r = pid /\
    (forall s, In s (queues db) -> q_provider s = pid ->
       Sql.leb_of (Sql.lex text_cmp text_cmp)
         (q_date r, q_time r) (q_date s, q_time s) = true) /\
    pop_next_in_queue db pid true =
      (Some (PopScheduled (q_user r) (q_service r) (q_date r) (q_time r)),
       delete_queue_row db (q_id r)).
Proof.
  intros Hne.
  destruct (SqlFacts.first_some (fun q => (q_date q, q_time q))
              (Sql.lex text_cmp text_cmp) Hne) as [r Hr].
  assert (Hg : Sql.good_cmp (Sql.lex text_cmp text_cmp))
    by (apply SqlFacts.good_lex; apply SqlFacts.good_text_cmp).
  destruct (SqlFacts.first_is_least _ Hg _ Hr) as [Hin Hmin].
  apply provider_rows_In in Hin. destruct Hin as [Hin Hp].
  exists r. repeat split; try assumption.
  - intros s Hs Hsp. apply Hmin. apply provider_rows_In; auto.
  - unfold pop_next_in_queue, by_date_time. now rewrite Hr.
Qed.

Lemma pop_any_none (db : DB) (pid : Z) :
  filter (fun q => q_provider q =? pid) (queues db) = [] ->
  pop_next_in_queue db pid true = (None, db).
Proof. intros E. unfold pop_next_in_queue, by_date_time. now rewrite E. Qed.

Lemma nonempty_of_In (A : Type) (l : list A) (x : A) : In x l -> l <> [].
Proof. destruct l; simpl; [tauto|discriminate]. Qed.

(** ** Dispatch: walk-ins first *)

(** C1. Whenever the provider of the caller has an entry with
    [position > 0], [call_next] dispatches a walk-in: the entry it
    notifies and deletes has the lowest position of the provider's
    walk-in line, it is the only entry deleted, and every scheduled entry
    (position 0), whatever its date and time, is still in the queue. *)
Theorem call_next_prefers_walkins :
  forall (db : DB) (owner pid : Z) (name ref : string),
    queue_ids_unique db ->
    get_provider_by_owner db owner = Some (pid, name, ref) ->
    (exists w, In w (queues db) /\ q_provider w = pid /\ 0 < q_position w) ->
    exists r db',
      call_next db owner
        = (CN_WalkIn (q_user r) (service_label db (q_service r)), db') /\
      In r (queues db) /\ q_provider r = pid /\ 0 < q_position r /\
      (forall w, In w (queues db) -> q_provider w = pid -> 0 < q_position w ->
                 q_position r <= q_position w) /\
      queues db' = filter (fun q => negb (q_id q =? q_id r)) (queues db) /\
      (forall q, In q (queues db') <-> In q (queues db) /\ q <> r) /\
      (forall q, In q (queues db) -> q_position q = 0 -> In q (queues db')) /\
      providers db' = providers db /\ services db' = services db /\
      busy_times db' = busy_times db.
Proof.
  intros db owner pid name ref Hu Hp (w & Hw & Hwp & Hwpos).
  assert (Hne : walkins db pid <> []).
  { apply nonempty_of_In with (x := w). apply walkins_In; auto. }
  destruct (pop_walkin_some db pid Hne) as (r & Hr & Hrp & Hrpos & Hmin & Hpop).
  exists r, (delete_queue_row db (q_id r)).
  unfold call_next. rewrite Hp, Hpop. simpl.
  do 5 (split; [first [reflexivity | assumption]|]).
  split; [reflexivity|].
  split; [intro q; now apply delete_queue_row_In|].
  split; [|apply (delete_queue_row_frame db (q_id r))].
  intros q Hq H0. apply delete_queue_row_In; auto.
  split; [assumption|]. intros ->. lia.
Qed.

(** ** Dispatch: the earliest booking when the line is empty *)

Lemma walkins_nil (db : DB) (pid : Z) :
  (forall q, In q (queues db) -> q_provider q = pid -> q_position q <= 0) ->
  walkins db pid = [].
Proof.
  intros H. destruct (walkins db pid) as [|q l] eqn:E; [reflexivity|].
  assert (Hq : In q (walkins db pid)) by (rewrite E; now left).
  apply walkins_In in Hq. destruct Hq as (Hq & Hp & Hpos).
  specialize (H q Hq Hp). lia.
Qed.

Lemma provider_rows_nil (db : DB) (pid : Z) :
  (forall q, In q (queues db) -> q_provider q <> pid) ->
  filter (fun q => q_provider q =? pid) (queues db) = [].
Proof.
  intros H. destruct (filter _ (queues db)) as [|q l] eqn:E; [reflexivity|].
  assert (Hq : In q (filter (fun q => q_provider q =? pid) (queues db)))
    by (rewrite E; now left).
  apply provider_rows_In in Hq. destruct Hq as [Hq Hp].
  now apply H in Hq.
Qed.

(** C6. With no walk-in in the provider's queue, [call_next] dispatches
    the scheduled entry whose (date, time) is not later than that of any
    other scheduled entry of the provider, with no filter on the date
    (there is no notion of today in the choice), deletes that entry and
    no other; with no entry at all it answers that the queue is empty, a
    normal reply, and the store is as it was. *)
Theorem call_next_earliest_scheduled :
  forall (db : DB) (owner pid : Z) (name ref : string),
    queue_ids_unique db ->
    queue_shapes db ->
    get_provider_by_owner db owner = Some (pid, name, ref) ->
    (forall q, In q (queues db) -> q_provider q = pid -> q_position q <= 0) ->
    ((forall q, In q (queues db) -> q_provider q <> pid) ->
     call_next db owner = (CN_Empty, db))
    /\
    ((exists q, In q (queues db) /\ q_provider q = pid) ->
     exists r d t db',
       call_next db owner
         = (CN_Scheduled (q_user r) (service_label db (q_service r))
              (Some d) (Some t), db') /\
       In r (queues db) /\ q_provider r = pid /\
       q_position r = 0 /\ q_date r = Some d /\ q_time r = Some t /\
       (forall s ds ts,
          In s (queues db) -> q_provider s = pid ->
          q_date s = Some ds -> q_time s = Some ts ->
          not_later d t ds ts) /\
       queues db' = filter (fun q => negb (q_id q =? q_id r)) (queues db) /\
       (forall q, In q (queues db') <-> In q (queues db) /\ q <> r) /\
       providers db' = providers db /\ services db' = services db /\
       busy_times db' = busy_times db).
Proof.
  intros db owner pid name ref Hu Hs Hp Hno.
  pose proof (pop_walkin_none db pid (walkins_nil db pid Hno)) as Hw.
  unfold call_next. rewrite Hp, Hw. split.
  - intros Hnone.
    now rewrite (pop_any_none db pid (provider_rows_nil db pid Hnone)).
  - intros (q & Hq & Hqp).
    assert (Hne : filter (fun q => q_provider q =? pid) (queues db) <> []).
    { apply nonempty_of_In with (x := q). apply provider_rows_In; auto. }
    destruct (pop_any_some db pid Hne) as (r & Hr & Hrp & Hmin & Hpop).
    rewrite Hpop; simpl.
    destruct (Hs r Hr) as [(Hpos & _)|(H0 & (d & Hd) & (t & Ht))].
    { specialize (Hno r Hr Hrp). lia. }
    exists r, d, t, (delete_queue_row db (q_id r)).
    split; [now rewrite Hd, Ht|].
    do 5 (split; [assumption|]).
    split.
    { intros s ds ts Hsin Hsp Hds Hts.
      specialize (Hmin s Hsin Hsp). rewrite Hd, Ht, Hds, Hts in Hmin.
      now apply date_time_le_some. }
    split; [reflexivity|].
    split; [intro x; now apply delete_queue_row_In|].
    apply (delete_queue_row_frame db (q_id r)).
Qed.

(** ** The two dispatch rules on the sample stores *)

Lemma demo_line_ids : queue_ids_unique Demo.line.
Proof.
  unfold queue_ids_unique. vm_compute.
  repeat constructor; simpl; intuition discriminate.
Defined.

Lemma demo_two_bookings_ids : queue_ids_unique Demo.two_bookings.
Proof.
  unfold queue_ids_unique. vm_compute.
  repeat constructor; simpl; intuition discriminate.
Defined.

Lemma demo_two_bookings_shapes : queue_shapes Demo.two_bookings.
Proof.
  intros q Hq. vm_compute in Hq.
  destruct Hq as [<-|[<-|[]]]; right; unfold is_scheduled; simpl; eauto.
Defined.

(** The salon has a booking for 2025-08-20 09:00 and the walk-ins A, B
    and C: the walk-in at position 1 is called, the booking stays. *)
Lemma call_next_prefers_walkins_witness :
  exists r db',
    call_next Demo.line 100
      = (CN_WalkIn (q_user r) (service_label Demo.line (q_service r)), db') /\
    In r (queues Demo.line) /\ q_provider r = 1 /\ 0 < q_position r /\
    (forall w, In w (queues Demo.line) -> q_provider w = 1 ->
               0 < q_position w -> q_position r <= q_position w) /\
    queues db' = filter (fun q => negb (q_id q =? q_id r)) (queues Demo.line) /\
    (forall q, In q (queues db') <-> In q (queues Demo.line) /\ q <> r) /\
    (forall q, In q (queues Demo.line) -> q_position q = 0 -> In q (queues db')) /\
    providers db' = providers Demo.line /\ services db' = services Demo.line /\
    busy_times db' = busy_times Demo.line.
Proof.
  apply (call_next_prefers_walkins Demo.line 100 1 "Salon" "abcd1234").
  - exact demo_line_ids.
  - reflexivity.
  - exists {| q_id := 2; q_provider := 1; q_user := 7; q_service := 1;
              q_position := 1; q_date := None; q_time := None |}.
    vm_compute. intuition.
Defined.

(** Walk-ins A, B, C are called in that order, then the booking, then
    the queue is empty. *)
Example call_next_scenario :
  let s1 := call_next Demo.line 100 in
  let s2 := call_next (snd s1) 100 in
  let s3 := call_next (snd s2) 100 in
  let s4 := call_next (snd s3) 100 in
  let s5 := call_next (snd s4) 100 in
  map fst [s1; s2; s3; s4; s5]
  = [CN_WalkIn 7 "Haircut"; CN_WalkIn 8 "Haircut"; CN_WalkIn 9 "Haircut";
     CN_Scheduled 5 "Haircut" (Some "2025-08-20") (Some "09:00"); CN_Empty]
  /\ snd s5 = snd s4.
Proof. vm_compute. split; reflexivity. Qed.

Lemma call_next_earliest_scheduled_witness :
  (exists r d t db',
     call_next Demo.two_bookings 100
       = (CN_Scheduled (q_user r)
            (service_label Demo.two_bookings (q_service r))
            (Some d) (Some t), db') /\
     In r (queues Demo.two_bookings) /\ q_provider r = 1 /\
     q_position r = 0 /\ q_date r = Some d /\ q_time r = Some t /\
     (forall s ds ts,
        In s (queues Demo.two_bookings) -> q_provider s = 1 ->
        q_date s = Some ds -> q_time s = Some ts ->
        not_later d t ds ts) /\
     queues db'
       = filter (fun q => negb (q_id q =? q_id r)) (queues Demo.two_bookings) /\
     (forall q, In q (queues db') <-> In q (queues Demo.two_bookings) /\ q <> r) /\
     providers db' = providers Demo.two_bookings /\
     services db' = services Demo.two_bookings /\
     busy_times db' = busy_times Demo.two_bookings).
Proof.
  apply (call_next_earliest_scheduled Demo.two_bookings 100 1 "Salon" "abcd1234").
  - exact demo_two_bookings_ids.
  - exact demo_two_bookings_shapes.
  - reflexivity.
  - intros q Hq _. vm_compute in Hq.
    destruct Hq as [<-|[<-|[]]]; simpl; lia.
  - exists {| q_id := 1; q_provider := 1; q_user := 6; q_service := 1;
              q_position := 0; q_date := Some "2025-08-25";
              q_time := Some "10:00" |}.
    vm_compute. intuition.
Defined.

(** The earlier of the two bookings is called, though it was made last. *)
Example call_next_two_bookings :
  fst (call_next Demo.two_bookings 100)
  = CN_Scheduled 5 "Haircut" (Some "2025-08-20") (Some "09:00").
Proof. reflexivity. Qed.

(** ** Listing the queue *)

Lemma good_listing_cmp :
  Sql.good_cmp (Sql.lex Z.compare (Sql.lex text_cmp text_cmp)).
Proof.
  apply SqlFacts.good_lex; [apply SqlFacts.good_Z|].
  apply SqlFacts.good_lex; apply SqlFacts.good_text_cmp.
Qed.

(** What the sort key of [show_queue] says of two rows in order. *)
Lemma listing_le_inv (r s : queue_row) :
  Sql.le (fun q => (q_position q, (q_date q, q_time q)))
    (Sql.lex Z.compare (Sql.lex text_cmp text_cmp)) r s ->
  q_position r <= q_position s /\
  (q_position r = q_position s ->
   Sql.leb_of (Sql.lex text_cmp text_cmp)
     (q_date r, q_time r) (q_date s, q_time s) = true).
Proof.
  unfold Sql.le, Sql.row_leb, Sql.leb_of.
  unfold Sql.lex at 1; simpl.
  destruct (Z.compare_spec (q_position r) (q_position s)) as [E|E|E].
  - intros H. split; [lia|]. intros _. exact H.
  - intros _. split; [lia|]. lia.
  - discriminate.
Qed.

(** The listing of the sample store: the booking first, then A, B, C. *)
Example show_queue_demo :
  show_queue Demo.line 100
  = SQ_Lines [ScheduledLine (Some "2025-08-20") (Some "09:00") 5 "Haircut";
              WalkInLine 1 7 "Haircut"; WalkInLine 2 8 "Haircut";
              WalkInLine 3 9 "Haircut"].
Proof. reflexivity. Qed.

(** C2, as stated, fails: with [ORDER BY position ASC] the scheduled
    entries (position 0) come first.  In the sample store the booking is
    at index 0 of the listing and walk-in A at index 1. *)
Lemma listing_walkins_first_fails :
  ~ (forall (db : DB) (pid : Z),
       (exists w, In w (queues db) /\ q_provider w = pid /\ 0 < q_position w) ->
       (exists s, In s (queues db) /\ q_provider s = pid /\ q_position s = 0) ->
       walkins_before_scheduled (queue_rows db pid)).
Proof.
  intros H.
  assert (Hw : exists w, In w (queues Demo.line) /\ q_provider w = 1
                         /\ 0 < q_position w).
  { exists {| q_id := 2; q_provider := 1; q_user := 7; q_service := 1;
              q_position := 1; q_date := None; q_time := None |}.
    vm_compute. intuition. }
  assert (Hs : exists s, In s (queues Demo.line) /\ q_provider s = 1
                         /\ q_position s = 0).
  { exists {| q_id := 1; q_provider := 1; q_user := 5; q_service := 1;
              q_position := 0; q_date := Some "2025-08-20";
              q_time := Some "09:00" |}.
    vm_compute. intuition. }
  specialize (H Demo.line 1 Hw Hs 1%nat 0%nat _ _ eq_refl eq_refl).
  simpl in H. lia.
Qed.

(** C2, amended.  The listing of [show_queue] holds exactly the entries
    of the provider, ordered by position ascending, then date, then
    time: every scheduled entry (position 0) comes before every walk-in
    (position > 0), walk-ins are in ascending position, and scheduled
    entries are among themselves in ascending (date, time). *)
Theorem listing_order :
  forall (db : DB) (pid : Z),
    Permutation (queue_rows db pid)
      (filter (fun q => q_provider q =? pid) (queues db)) /\
    scheduled_before_walkins (queue_rows db pid) /\
    (forall (i j : nat) (ri rj : queue_row),
       (i < j)%nat ->
       nth_error (queue_rows db pid) i = Some ri ->
       nth_error (queue_rows db pid) j = Some rj ->
       q_position ri <= q_position rj /\
       (forall di ti dj tj,
          q_position ri = q_position rj ->
          q_date ri = Some di -> q_time ri = Some ti ->
          q_date rj = Some dj -> q_time rj = Some tj ->
          not_later di ti dj tj)).
Proof.
  intros db pid.
  assert (Hsorted :
    forall (i j : nat) (ri rj : queue_row),
      (i < j)%nat ->
      nth_error (queue_rows db pid) i = Some ri ->
      nth_error (queue_rows db pid) j = Some rj ->
      q_position ri <= q_position rj /\
      (q_position ri = q_position rj ->
       Sql.leb_of (Sql.lex text_cmp text_cmp)
         (q_date ri, q_time ri) (q_date rj, q_time rj) = true)).
  { intros i j ri rj Hij Hi Hj. apply listing_le_inv.
    eapply SqlFacts.sorted_nth; [|exact Hij|exact Hi|exact Hj].
    apply SqlFacts.order_by_sorted, good_listing_cmp. }
  split; [apply SqlFacts.order_by_perm|]. split.
  - intros i j ri rj Hi Hj H0 Hpos.
    destruct (Nat.lt_trichotomy i j) as [Hlt|[->|Hgt]]; [exact Hlt| |].
    + rewrite Hi in Hj. inversion Hj; subst. lia.
    + destruct (Hsorted j i rj ri Hgt Hj Hi) as [Hle _]. lia.
  - intros i j ri rj Hij Hi Hj.
    destruct (Hsorted i j ri rj Hij Hi Hj) as [Hle Htie].
    split; [exact Hle|].
    intros di ti dj tj E Hdi Hti Hdj Htj. specialize (Htie E).
    rewrite Hdi, Hti, Hdj, Htj in Htie. now apply date_time_le_some.
Qed.

(** The booking at index 0 and walk-in A at index 1 of the listing of
    the sample store. *)
Lemma listing_order_witness :
  q_position {| q_id := 1; q_provider := 1; q_user := 5; q_service := 1;
                q_position := 0; q_date := Some "2025-08-20";
                q_time := Some "09:00" |}
  <= q_position {| q_id := 2; q_provider := 1; q_user := 7; q_service := 1;
                   q_position := 1; q_date := None; q_time := None |}.
Proof.
  apply (proj2 (proj2 (listing_order Demo.line 1)) 0%nat 1%nat _ _
           ltac:(constructor) eq_refl eq_refl).
Defined.

(** ** Maxima and fresh rowids *)

Lemma max_of_nonneg (l : list Z) : 0 <= max_of l.
Proof. induction l; simpl; lia. Qed.

Lemma max_of_ub (l : list Z) (x : Z) : In x l -> x <= max_of l.
Proof.
  induction l as [|a l IH]; simpl; [easy|].
  intros [->|H]; [lia|]. specialize (IH H). lia.
Qed.

Lemma max_of_app (l1 l2 : list Z) :
  max_of (l1 ++ l2) = Z.max (max_of l1) (max_of l2).
Proof.
  induction l1 as [|a l1 IH]; simpl.
  - pose proof (max_of_nonneg l2). lia.
  - rewrite IH. lia.
Qed.

Lemma max_of_le (l1 l2 : list Z) :
  (forall x, In x l1 -> exists y, In y l2 /\ x <= y) ->
  max_of l1 <= max_of l2.
Proof.
  induction l1 as [|a l1 IH]; simpl; intros H.
  - apply max_of_nonneg.
  - destruct (H a (or_introl eq_refl)) as (y & Hy & Hay).
    apply max_of_ub in Hy.
    assert (max_of l1 <= max_of l2) by (apply IH; intros x Hx; apply H; now right).
    lia.
Qed.

Lemma next_rowid_fresh (seq : Z) (ids : list Z) :
  ~ In (next_rowid seq ids) ids.
Proof.
  intros H. apply max_of_ub in H. unfold next_rowid in H. lia.
Qed.

Lemma NoDup_snoc (A : Type) (l : list A) (x : A) :
  NoDup l -> ~ In x l -> NoDup (l ++ [x]).
Proof.
  intros Hl Hx. apply NoDup_app; [exact Hl|repeat constructor; easy|].
  intros y Hy [<-|[]]. contradiction.
Qed.

Lemma NoDup_map_filter (A B : Type) (f : A -> B) (g : A -> bool) (l : list A) :
  NoDup (map f l) -> NoDup (map f (filter g l)).
Proof.
  induction l as [|a l IH]; simpl; [easy|].
  intros H. inversion H as [|? ? Hna Hnd]; subst.
  destruct (g a); simpl; [|auto].
  constructor; [|auto].
  intros Hin. apply Hna. apply in_map_iff in Hin.
  destruct Hin as (x & <- & Hx). apply filter_In in Hx.
  apply in_map. tauto.
Qed.

(** ** Joining the queue *)

Lemma insert_queue_spec (db db' : DB) (p u s pos : Z) (d t : option string) :
  insert_queue db p u s pos d t = Ok db' ->
  queues db' =
    (queues db ++
      [{| q_id := next_rowid (seq_queues db) (map q_id (queues db));
          q_provider := p; q_user := u; q_service := s;
          q_position := pos; q_date := d; q_time := t |}])%list /\
  providers db' = providers db /\ services db' = services db /\
  busy_times db' = busy_times db.
Proof.
  unfold insert_queue.
  destruct (provider_exists db p && service_exists db s); [|discriminate].
  intros H; inversion H; subst; clear H. simpl. auto.
Qed.

(** The row [add_to_queue] inserts: a scheduled one (position 0, the
    date and time given) when both date and time are non-empty, a
    walk-in at the next position otherwise. *)
Lemma add_to_queue_spec (db db' : DB) (p u s pos : Z) (d t : option string) :
  add_to_queue db p u s d t = Ok (pos, db') ->
  exists row,
    queues db' = (queues db ++ [row])%list /\
    q_id row = next_rowid (seq_queues db) (map q_id (queues db)) /\
    q_provider row = p /\ q_user row = u /\ q_service row = s /\
    q_position row = pos /\
    ((truthy d = true /\ truthy t = true /\ pos = 0 /\
      q_date row = d /\ q_time row = t) \/
     (truthy d && truthy t = false /\ pos = max_position db p + 1 /\
      q_date row = None /\ q_time row = None)) /\
    providers db' = providers db /\ services db' = services db /\
    busy_times db' = busy_times db.
Proof.
  unfold add_to_queue.
  destruct (truthy d && truthy t) eqn:E.
  - destruct (insert_queue db p u s 0 d t) as [db1|] eqn:Hi; [|discriminate].
    intros H; inversion H; subst; clear H.
    apply insert_queue_spec in Hi. destruct Hi as (Hq & Hf).
    apply andb_true_iff in E.
    eexists; split; [exact Hq|]. simpl. intuition.
  - destruct (insert_queue db p u s (max_position db p + 1) None None)
      as [db1|] eqn:Hi; [|discriminate].
    intros H; inversion H; subst; clear H.
    apply insert_queue_spec in Hi. destruct Hi as (Hq & Hf).
    eexists; split; [exact Hq|]. simpl. intuition.
Qed.

Lemma truthy_some (o : option string) :
  truthy o = true -> exists s, o = Some s /\ s <> "".
Proof.
  destruct o as [s|]; simpl; [|discriminate].
  rewrite negb_true_iff, String.eqb_neq. eauto.
Qed.

Lemma max_position_nonneg (db : DB) (pid : Z) : 0 <= max_position db pid.
Proof. apply max_of_nonneg. Qed.

Lemma add_to_queue_shape (db db' : DB) (p u s pos : Z) (d t : option string) :
  add_to_queue db p u s d t = Ok (pos, db') ->
  exists row,
    queues db' = (queues db ++ [row])%list /\ q_position row = pos /\
    q_provider row = p /\
    ((is_walkin row /\ pos = max_position db p + 1) \/
     (is_scheduled row /\ pos = 0)).
Proof.
  intros H. apply add_to_queue_spec in H.
  destruct H as (row & Hq & _ & Hp & _ & _ & Hpos & Hcase & _).
  exists row. repeat (split; [assumption|]).
  pose proof (max_position_nonneg db p).
  destruct Hcase as [(Hd & Ht & H0 & Hrd & Hrt)|(_ & Hn & Hrd & Hrt)].
  - right. split; [|assumption].
    apply truthy_some in Hd. apply truthy_some in Ht.
    destruct Hd as (sd & -> & _), Ht as (st & -> & _).
    unfold is_scheduled. rewrite Hpos, Hrd, Hrt. eauto.
  - left. split; [|assumption].
    unfold is_walkin. rewrite Hpos, Hrd, Hrt. repeat split; lia.
Qed.

Lemma add_to_queue_ids (db db' : DB) (p u s pos : Z) (d t : option string) :
  add_to_queue db p u s d t = Ok (pos, db') ->
  queue_ids_unique db -> queue_ids_unique db'.
Proof.
  intros H Hu. apply add_to_queue_spec in H.
  destruct H as (row & Hq & Hid & _).
  unfold queue_ids_unique in *. rewrite Hq, map_app; simpl.
  apply NoDup_snoc; [exact Hu|]. rewrite Hid. apply next_rowid_fresh.
Qed.

(** A walk-in joins at one more than the highest position in the line,
    behind everybody in it, and is then the highest itself. *)
Lemma enqueue_walkin (db db' : DB) (pid u s pos : Z) :
  add_to_queue db pid u s None None = Ok (pos, db') ->
  pos = 1 + max_position db pid /\
  (forall w, In w (walkins db pid) -> q_position w < pos) /\
  max_position db' pid = pos.
Proof.
  intros H. apply add_to_queue_spec in H.
  destruct H as (row & Hq & _ & Hp & _ & _ & Hpos & Hcase & _).
  destruct Hcase as [(Hd & _)|(_ & Hn & _)]; [discriminate|].
  pose proof (max_position_nonneg db pid) as H0.
  split; [lia|]. split.
  - intros w Hw. unfold max_position in Hn.
    assert (q_position w <= max_of (map q_position (walkins db pid)))
      by (apply max_of_ub; now apply in_map).
    lia.
  - unfold max_position, walkins in *. rewrite Hq, filter_app. simpl.
    rewrite Hp, Z.eqb_refl. simpl.
    assert (E : (0 <? q_position row) = true) by (apply Z.ltb_lt; lia).
    rewrite E, map_app, max_of_app. simpl. lia.
Qed.

(** ** Leaving the queue *)

Lemma nonempty_has (A : Type) (l : list A) : l <> [] -> exists x, In x l.
Proof. destruct l as [|x l]; [congruence|]. exists x. now left. Qed.

Lemma pop_queues (db : DB) (pid : Z) (b : bool) :
  snd (pop_next_in_queue db pid b) = db \/
  exists qid, snd (pop_next_in_queue db pid b) = delete_queue_row db qid.
Proof.
  unfold pop_next_in_queue.
  destruct b.
  - destruct (hd_error _) as [r|]; simpl; eauto.
  - destruct (hd_error _) as [r|]; simpl; eauto.
Qed.

Lemma delete_queue_row_ids (db : DB) (qid : Z) :
  queue_ids_unique db -> queue_ids_unique (delete_queue_row db qid).
Proof. unfold queue_ids_unique; simpl. apply NoDup_map_filter. Qed.

Lemma pop_ids (db : DB) (pid : Z) (b : bool) :
  queue_ids_unique db -> queue_ids_unique (snd (pop_next_in_queue db pid b)).
Proof.
  intros Hu. destruct (pop_queues db pid b) as [->|(qid & ->)];
    [exact Hu | now apply delete_queue_row_ids].
Qed.

(** Popping leaves the highest position of the line as it was, unless it
    took the last walk-in. *)
Lemma pop_keeps_max (db : DB) (pid : Z) :
  queue_ids_unique db ->
  walkins db pid = [] \/
  walkins (snd (pop_next_in_queue db pid false)) pid <> [] ->
  max_position (snd (pop_next_in_queue db pid false)) pid = max_position db pid.
Proof.
  intros Hu Hne.
  destruct (walkins db pid) as [|w0 l0] eqn:E.
  { now rewrite (pop_walkin_none db pid E). }
  destruct Hne as [Hne|Hne]; [discriminate Hne|].
  assert (Hne0 : walkins db pid <> []) by (rewrite E; discriminate).
  destruct (pop_walkin_some db pid Hne0) as (r & Hr & Hrp & Hrpos & Hmin & Hpop).
  rewrite Hpop in *. simpl in *.
  set (db' := delete_queue_row db (q_id r)) in *.
  assert (Hw' : forall q, In q (walkins db' pid) <->
                          In q (walkins db pid) /\ q <> r).
  { intros q. rewrite !walkins_In. unfold db'.
    rewrite (delete_queue_row_In db r q Hu Hr). tauto. }
  unfold max_position. apply Z.le_antisymm; apply max_of_le; intros x Hx;
    apply in_map_iff in Hx; destruct Hx as (q & <- & Hq).
  - exists (q_position q). split; [|lia].
    apply in_map. now apply Hw'.
  - destruct (Z.eq_dec (q_id q) (q_id r)) as [Eid|Nid].
    + apply walkins_In in Hq. destruct Hq as (Hq & _).
      assert (q = r) by (eapply NoDup_map_eq; eauto). subst q.
      destruct (nonempty_has _ _ Hne) as [w Hw].
      exists (q_position w). split; [now apply in_map|].
      apply Hw' in Hw. destruct Hw as [Hw _].
      apply walkins_In in Hw. destruct Hw as (Hw1 & Hw2 & Hw3). auto.
    + exists (q_position q). split; [|lia].
      apply in_map, Hw'. split; [assumption|]. congruence.
Qed.

(** ** Positions over a run of the line *)

(** C3, as stated, fails: after the only walk-in has been popped the
    numbering starts again at 1, so position 1 is handed out twice. *)
Lemma walkin_positions_reused :
  ~ (forall (db : DB) (pid : Z) (ops : list line_op),
       strictly_increasing (assigned db pid ops)).
Proof.
  intros H.
  specialize (H Demo.salon 1 [Enqueue 7 1; Pop; Enqueue 8 1]).
  vm_compute in H. inversion H as [|? ? _ Hall]; subst.
  inversion Hall as [|? ? Hlt _]; subst. discriminate Hlt.
Qed.

Lemma assigned_increasing (pid : Z) (ops : list line_op) :
  forall db : DB,
    queue_ids_unique db ->
    never_emptied db pid ops ->
    strictly_increasing (assigned db pid ops) /\
    Forall (fun p => max_position db pid < p) (assigned db pid ops).
Proof.
  unfold strictly_increasing.
  induction ops as [|o ops IH]; intros db Hu Hne; simpl.
  - split; constructor.
  - destruct o as [u s|]; simpl in Hne.
    + destruct (add_to_queue db pid u s None None) as [[pos db']|] eqn:Ha.
      * destruct (enqueue_walkin db db' pid u s pos Ha) as (Hpos & _ & Hmax).
        destruct (IH db' (add_to_queue_ids _ _ _ _ _ _ _ _ Ha Hu) Hne)
          as [Hs Hf].
        rewrite Hmax in Hf. pose proof (max_position_nonneg db pid).
        split.
        -- constructor; assumption.
        -- constructor; [lia|].
           eapply Forall_impl; [|exact Hf]. simpl; intros; lia.
      * now apply IH.
    + destruct Hne as [Hne1 Hne2].
      destruct (IH _ (pop_ids db pid false Hu) Hne2) as [Hs Hf].
      rewrite (pop_keeps_max db pid Hu Hne1) in Hf. now split.
Qed.

(** C3, amended.  A walk-in gets one more than the highest position in
    the provider's line at that moment, which is above every position in
    the line; over a run of enqueues and pops in which no pop takes the
    last walk-in (a pop that finds the line empty takes nothing), the
    positions handed out go up strictly, so none repeats; and on an
    empty line, so also once the line has been emptied, the numbering
    starts again at 1. *)
Theorem walkin_positions :
  forall (db : DB) (pid : Z),
    (forall u s pos db',
       add_to_queue db pid u s None None = Ok (pos, db') ->
       pos = 1 + max_position db pid /\
       (forall w, In w (walkins db pid) -> q_position w < pos) /\
       max_position db' pid = pos) /\
    (forall ops,
       queue_ids_unique db ->
       never_emptied db pid ops ->
       strictly_increasing (assigned db pid ops) /\
       Forall (fun p => max_position db pid < p) (assigned db pid ops)) /\
    (forall u s pos db',
       walkins db pid = [] ->
       add_to_queue db pid u s None None = Ok (pos, db') ->
       pos = 1).
Proof.
  intros db pid. split; [|split].
  - intros u s pos db'. apply enqueue_walkin.
  - intros ops. apply assigned_increasing.
  - intros u s pos db' Hnil Ha.
    destruct (enqueue_walkin db db' pid u s pos Ha) as (Hpos & _).
    unfold max_position in Hpos. rewrite Hnil in Hpos. exact Hpos.
Qed.

Lemma demo_salon_ids : queue_ids_unique Demo.salon.
Proof. unfold queue_ids_unique. vm_compute. constructor. Defined.

(** The owner calls on the empty line, A, B and C join, A is called, D
    joins: positions 1, 2, 3, 4. *)
Lemma walkin_positions_witness :
  strictly_increasing
    (assigned Demo.salon 1 [Pop; Enqueue 7 1; Enqueue 8 1; Enqueue 9 1; Pop;
                            Enqueue 10 1]) /\
  assigned Demo.salon 1 [Pop; Enqueue 7 1; Enqueue 8 1; Enqueue 9 1; Pop;
                         Enqueue 10 1] = [1; 2; 3; 4].
Proof.
  assert (Hne : never_emptied Demo.salon 1
                  [Pop; Enqueue 7 1; Enqueue 8 1; Enqueue 9 1; Pop;
                   Enqueue 10 1]).
  { vm_compute. split; [left; reflexivity|].
    split; [right; discriminate|exact I]. }
  split; [|reflexivity].
  exact (proj1 (proj1 (proj2 (walkin_positions Demo.salon 1))
                  _ demo_salon_ids Hne)).
Defined.

(** A pop that finds the line empty does not count as emptying it. *)
Example pop_on_empty_line :
  never_emptied Demo.salon 1 [Pop; Enqueue 7 1; Enqueue 8 1] /\
  assigned Demo.salon 1 [Pop; Enqueue 7 1; Enqueue 8 1] = [1; 2].
Proof.
  split; [|reflexivity]. vm_compute. split; [left; reflexivity|exact I].
Qed.

(** ** The two shapes of a queue entry *)

Lemma shapes_exclusive (q : queue_row) : ~ (is_walkin q /\ is_scheduled q).
Proof. unfold is_walkin, is_scheduled. intros [(H & _) (H0 & _)]. lia. Qed.

Lemma pop_change (db : DB) (pid : Z) (b : bool) :
  queue_change db (snd (pop_next_in_queue db pid b)).
Proof.
  destruct (pop_queues db pid b) as [->|(qid & ->)].
  - now apply QC_same.
  - now eapply QC_deleted.
Qed.

Lemma filter_filter (A : Type) (f g : A -> bool) (l : list A) :
  filter f (filter g l) = filter (fun x => g x && f x) l.
Proof.
  induction l as [|a l IH]; simpl; [reflexivity|].
  destruct (g a); simpl; [destruct (f a)|]; now rewrite IH.
Qed.

Lemma call_next_change (db : DB) (from_user : Z) :
  queue_change db (snd (call_next db from_user)).
Proof.
  unfold call_next.
  destruct (get_provider_by_owner db from_user) as [[[pid n] r]|];
    [|now apply QC_same].
  pose proof (pop_queues db pid false) as H1.
  destruct (pop_next_in_queue db pid false) as [[nxt|] db1]; simpl in H1.
  - assert (Hc : queue_change db db1).
    { destruct H1 as [->|(qid & ->)];
        [now apply QC_same | now eapply QC_deleted]. }
    destruct (unpack2 nxt) as [[u s]|]; exact Hc.
  - pose proof (pop_queues db1 pid true) as H2.
    destruct (pop_next_in_queue db1 pid true) as [[nxt|] db2]; simpl in H2.
    + assert (Hc : queue_change db db2).
      { destruct H1 as [->|(q1 & ->)], H2 as [->|(q2 & ->)].
        - now apply QC_same.
        - now eapply QC_deleted.
        - now eapply QC_deleted.
        - eapply QC_deleted. simpl. apply filter_filter. }
      destruct (unpack4 nxt) as [[[[u s] d] t]|]; exact Hc.
    + destruct H1 as [->|(q1 & ->)], H2 as [->|(q2 & ->)].
      * now apply QC_same.
      * now eapply QC_deleted.
      * now eapply QC_deleted.
      * eapply QC_deleted. simpl. apply filter_filter.
Qed.

Lemma apply_op_change (db : DB) (o : op) : queue_change db (apply_op db o).
Proof.
  destruct o; simpl.
  - unfold create_provider.
    destruct (existsb _ (providers db)); simpl; now apply QC_same.
  - unfold add_service.
    destruct (negb _ || _); simpl; now apply QC_same.
  - destruct (add_to_queue db provider_id user_id service_id date time)
      as [[pos db']|] eqn:E; simpl.
    + eapply QC_added; exact E.
    + now apply QC_same.
  - apply pop_change.
  - apply call_next_change.
  - unfold clear_queue.
    destruct (get_provider_by_owner db from_user) as [[[pid n] r]|]; simpl.
    + now eapply QC_deleted.
    + now apply QC_same.
  - unfold unregister.
    destruct (get_provider_by_owner db from_user) as [[[pid n] r]|]; simpl.
    + now eapply QC_deleted.
    + now apply QC_same.
  - unfold add_busy_time.
    destruct (provider_exists db provider_id); simpl; now apply QC_same.
  - unfold admin_delete_busy.
    destruct (get_provider_owner db pid) as [owner|]; [|now apply QC_same].
    destruct (owner =? from_user); simpl; now apply QC_same.
  - unfold client_book_slot.
    destruct (mem sel_time _); [now apply QC_same|].
    destruct (add_to_queue db provider_id from_user svc_id (Some sel_date)
                (Some sel_time)) as [[pos db']|] eqn:E; simpl.
    + eapply QC_added; exact E.
    + now apply QC_same.
Qed.

Lemma change_shapes (db db' : DB) :
  queue_change db db' -> queue_shapes db -> queue_shapes db'.
Proof.
  intros [E|f E|p u s pos d t E] Hs q Hq.
  - rewrite E in Hq. auto.
  - rewrite E in Hq. apply filter_In in Hq. apply Hs. tauto.
  - apply add_to_queue_shape in E.
    destruct E as (row & Eq & _ & _ & Hrow).
    rewrite Eq in Hq. apply in_app_or in Hq.
    destruct Hq as [Hq|[<-|[]]]; [auto|]. tauto.
Qed.

Lemma change_ids (db db' : DB) :
  queue_change db db' -> queue_ids_unique db -> queue_ids_unique db'.
Proof.
  intros [E|f E|p u s pos d t E] Hu.
  - unfold queue_ids_unique. now rewrite E.
  - unfold queue_ids_unique. rewrite E. now apply NoDup_map_filter.
  - eapply add_to_queue_ids; eauto.
Qed.

Lemma run_invariants (ops : list op) :
  forall db : DB,
    queue_shapes db /\ queue_ids_unique db ->
    queue_shapes (run db ops) /\ queue_ids_unique (run db ops).
Proof.
  induction ops as [|o ops IH]; intros db [Hs Hu]; simpl; [auto|].
  apply IH. pose proof (apply_op_change db o) as Hc. split.
  - eapply change_shapes; eauto.
  - eapply change_ids; eauto.
Qed.

Lemma empty_invariants : queue_shapes empty_db /\ queue_ids_unique empty_db.
Proof. split; [intros q []|constructor]. Qed.

(** Every store the operations can build from the empty one keeps the
    rowids of the queue unique. *)
Lemma reachable_ids (ops : list op) : queue_ids_unique (run empty_db ops).
Proof. apply (run_invariants ops empty_db empty_invariants). Qed.

(** A scheduled insertion changes no walk-in line. *)
Lemma scheduled_not_counted (db db' : DB) (p u s : Z) (d t : option string) :
  add_to_queue db p u s d t = Ok (0, db') ->
  forall pid, walkins db' pid = walkins db pid.
Proof.
  intros H pid. apply add_to_queue_spec in H.
  destruct H as (row & Hq & _ & _ & _ & _ & Hpos & _).
  unfold walkins. rewrite Hq, filter_app. simpl.
  rewrite Hpos. simpl. rewrite andb_false_r. apply app_nil_r.
Qed.

(** C9. The entry [add_to_queue] inserts is a walk-in (position > 0, no
    date, no time) or a scheduled entry (position 0, a date and a time),
    never both; every operation on the store keeps all entries in one of
    the two shapes, so every store built from the empty one has only such
    entries; and the next walk-in position ignores scheduled entries: no
    entry counted for it is scheduled, and inserting a scheduled entry
    changes the next position of no provider. *)
Theorem queue_entry_modes :
  (forall db p u s d t pos db',
     add_to_queue db p u s d t = Ok (pos, db') ->
     exists row,
       queues db' = (queues db ++ [row])%list /\ q_position row = pos /\
       q_provider row = p /\
       ((is_walkin row /\ pos = max_position db p + 1) \/
        (is_scheduled row /\ pos = 0))) /\
  (forall q, ~ (is_walkin q /\ is_scheduled q)) /\
  (forall db o, queue_shapes db -> queue_shapes (apply_op db o)) /\
  (forall ops, queue_shapes (run empty_db ops)) /\
  (forall db pid q, In q (walkins db pid) -> ~ is_scheduled q) /\
  (forall db p u s d t db',
     add_to_queue db p u s d t = Ok (0, db') ->
     forall pid, max_position db' pid = max_position db pid).
Proof.
  split; [intros; eapply add_to_queue_shape; eauto|].
  split; [apply shapes_exclusive|].
  split; [intros db o; apply change_shapes, apply_op_change|].
  split; [intros ops; apply (run_invariants ops empty_db empty_invariants)|].
  split.
  - intros db pid q Hq (H0 & _). apply walkins_In in Hq. lia.
  - intros db p u s d t db' H pid. unfold max_position.
    now rewrite (scheduled_not_counted db db' p u s d t H pid).
Qed.

(** A booking and a walk-in on the sample store: the booking has
    position 0 and leaves the next walk-in position at 1. *)
Lemma queue_entry_modes_witness :
  (exists row,
     queues Demo.booked = (queues Demo.salon ++ [row])%list /\
     q_position row = 0 /\ q_provider row = 1 /\
     ((is_walkin row /\ 0 = max_position Demo.salon 1 + 1) \/
      (is_scheduled row /\ 0 = 0))) /\
  max_position Demo.booked 1 = max_position Demo.salon 1.
Proof.
  split.
  - apply (proj1 queue_entry_modes Demo.salon 1 5 1
             (Some "2025-08-20") (Some "09:00") 0 Demo.booked).
    reflexivity.
  - apply (proj2 (proj2 (proj2 (proj2 (proj2 queue_entry_modes))))
             Demo.salon 1 5 1 (Some "2025-08-20") (Some "09:00") Demo.booked).
    reflexivity.
Defined.

(** ** Booked slots and the conflict check *)

Lemma mem_In (s : string) (l : list string) : mem s l = true <-> In s l.
Proof.
  unfold mem. rewrite existsb_exists. split.
  - intros (x & Hx & E). apply String.eqb_eq in E. now subst.
  - intros H. exists s. split; [assumption|apply String.eqb_refl].
Qed.

Lemma opt_eqb_eq (o : option string) (s : string) :
  opt_eqb o s = true <-> o = Some s.
Proof.
  destruct o as [x|]; simpl; [|split; discriminate].
  rewrite String.eqb_eq. split; congruence.
Qed.

(** A time is booked for a provider and a date when a queue entry of the
    provider has that date and time, or a busy block of the provider
    does. *)
Lemma get_booked_slots_In (db : DB) (p : Z) (d t : string) :
  In t (get_booked_slots db p d) <->
  (exists q, In q (queues db) /\ q_provider q = p /\
             q_date q = Some d /\ q_time q = Some t) \/
  (exists b, In b (busy_times db) /\ b_provider b = p /\
             b_date b = d /\ b_time b = t).
Proof.
  unfold get_booked_slots. rewrite nodup_In, in_app_iff, in_flat_map, in_map_iff.
  split.
  - intros [(q & Hq & Ht)|(b & Hb & Hin)].
    + left. exists q. apply filter_In in Hq. destruct Hq as [Hq Hc].
      apply andb_true_iff in Hc. destruct Hc as [Hp Hd].
      apply Z.eqb_eq in Hp. apply opt_eqb_eq in Hd.
      destruct (q_time q) as [x|]; [|contradiction].
      destruct Ht as [->|[]]. auto.
    + right. exists b. apply filter_In in Hin. destruct Hin as [Hin Hc].
      apply andb_true_iff in Hc. destruct Hc as [Hp Hd].
      apply Z.eqb_eq in Hp. apply String.eqb_eq in Hd. auto.
  - intros [(q & Hq & Hp & Hd & Ht)|(b & Hb & Hp & Hd & Ht)].
    + left. exists q. split.
      * apply filter_In. split; [assumption|].
        apply andb_true_iff. split; [now apply Z.eqb_eq|now apply opt_eqb_eq].
      * rewrite Ht. now left.
    + right. exists b. split; [assumption|].
      apply filter_In. split; [assumption|].
      apply andb_true_iff. split; [now apply Z.eqb_eq|now apply String.eqb_eq].
Qed.

(** C4. [client_book_slot] reads the booked slots of the provider and
    date from the store it is about to write, and answers with the slot
    conflict exactly when the time is among them (a scheduled entry or a
    busy block of that provider, date and time exists); on a conflict
    the store is unchanged.  Without a conflict the store gets one new
    queue entry, unless the insertion violates a foreign key, which
    leaves the store unchanged as well. *)
Theorem booking_conflict :
  forall (db : DB) (u p s : Z) (d t : string),
    (fst (client_book_slot db u p s d t) = BK_SlotConflict <->
     In t (get_booked_slots db p d)) /\
    (In t (get_booked_slots db p d) <->
     (exists q, In q (queues db) /\ q_provider q = p /\
                q_date q = Some d /\ q_time q = Some t) \/
     (exists b, In b (busy_times db) /\ b_provider b = p /\
                b_date b = d /\ b_time b = t)) /\
    (fst (client_book_slot db u p s d t) = BK_SlotConflict ->
     snd (client_book_slot db u p s d t) = db) /\
    (~ In t (get_booked_slots db p d) ->
     client_book_slot db u p s d t = (BK_Raised, db) \/
     exists owner name row,
       fst (client_book_slot db u p s d t) = BK_Booked owner name /\
       queues (snd (client_book_slot db u p s d t))
         = (queues db ++ [row])%list /\
       q_provider row = p /\ q_user row = u /\ q_service row = s).
Proof.
  intros db u p s d t.
  assert (Hfst : fst (client_book_slot db u p s d t) = BK_SlotConflict <->
                 In t (get_booked_slots db p d)).
  { rewrite <- mem_In. unfold client_book_slot.
    destruct (mem t (get_booked_slots db p d)); simpl; [tauto|].
    destruct (add_to_queue db p u s (Some d) (Some t)) as [[pos db']|];
      simpl; split; discriminate. }
  split; [exact Hfst|]. split; [apply get_booked_slots_In|]. split.
  - intros H. apply Hfst, mem_In in H. unfold client_book_slot.
    cbv zeta. now rewrite H.
  - intros H. rewrite <- mem_In in H. apply not_true_is_false in H.
    unfold client_book_slot. cbv zeta. rewrite H.
    destruct (add_to_queue db p u s (Some d) (Some t)) as [[pos db']|] eqn:E;
      [right|now left].
    apply add_to_queue_spec in E.
    destruct E as (row & Hq & _ & Hp & Hu & Hs & _).
    exists (get_provider_owner db' p), (service_label db' s), row.
    simpl. auto.
Qed.

(** A books 2025-08-25 10:00, then B asks for the same slot. *)
Lemma booking_conflict_witness :
  snd (client_book_slot Demo.two_bookings 8 1 1 "2025-08-25" "10:00")
  = Demo.two_bookings.
Proof.
  apply (proj1 (proj2 (proj2
           (booking_conflict Demo.two_bookings 8 1 1 "2025-08-25" "10:00")))).
  reflexivity.
Defined.

(** ** The slot grid and availability *)

Lemma slots_nonempty (t : string) : In t slots -> t <> "".
Proof.
  intros H. vm_compute in H.
  repeat (destruct H as [<-|H]; [discriminate|]). contradiction.
Qed.

Lemma available_slots_In (db : DB) (p : Z) (d t : string) :
  In t (available_slots db p d) <->
  In t slots /\ ~ In t (get_booked_slots db p d).
Proof.
  unfold available_slots. cbv zeta. rewrite filter_In, negb_true_iff.
  split; intros [H1 H2]; split; try assumption.
  - intros H. apply mem_In in H. congruence.
  - apply not_true_is_false. intros H. apply H2. now apply mem_In.
Qed.

(** After a scheduled entry for [p], [d], [t] has been appended, the
    booked slots of [p] on [d] are the former ones and [t]. *)
Lemma booked_after_insert (db db' : DB) (row : queue_row) (p : Z) (d t x : string) :
  queues db' = (queues db ++ [row])%list ->
  busy_times db' = busy_times db ->
  q_provider row = p -> q_date row = Some d -> q_time row = Some t ->
  (In x (get_booked_slots db' p d) <->
   In x (get_booked_slots db p d) \/ x = t).
Proof.
  intros Hq Hb Hp Hd Ht. rewrite !get_booked_slots_In, Hq, Hb. split.
  - intros [(q & Hin & H1 & H2 & H3)|H]; [|tauto].
    apply in_app_or in Hin. destruct Hin as [Hin|[<-|[]]].
    + left. left. eauto.
    + right. congruence.
  - intros [[(q & Hin & H)|H]| ->].
    + left. exists q. split; [apply in_or_app; now left|assumption].
    + now right.
    + left. exists row. split; [apply in_or_app; right; now left|auto].
Qed.

Lemma filter_ext_bool (A : Type) (f g : A -> bool) (l : list A) :
  (forall x, f x = g x) -> filter f l = filter g l.
Proof. intros H. apply filter_ext_in. auto. Qed.

(** Booking the free slot [t] of date [d] takes [t], and only [t], out of
    what is available on [d]. *)
Lemma book_then_available (db db' : DB) (u p s : Z) (d t : string)
    (owner : option Z) (name : string) :
  d <> "" ->
  In t (available_slots db p d) ->
  client_book_slot db u p s d t = (BK_Booked owner name, db') ->
  available_slots db' p d
  = filter (fun x => negb (x =? t)%string) (available_slots db p d).
Proof.
  intros Hd Ht Hb.
  apply available_slots_In in Ht. destruct Ht as [Hslot Hfree].
  pose proof (slots_nonempty t Hslot) as Hne.
  unfold client_book_slot in Hb. cbv zeta in Hb.
  destruct (mem t (get_booked_slots db p d)); [discriminate|].
  destruct (add_to_queue db p u s (Some d) (Some t)) as [[pos db1]|] eqn:E;
    [|discriminate].
  inversion Hb; subst db1; clear Hb.
  apply add_to_queue_spec in E.
  destruct E as (row & Hq & _ & Hp & _ & _ & _ & Hcase & _ & _ & Hbusy).
  destruct Hcase as [(_ & _ & _ & Hrd & Hrt)|(Hf & _)].
  2:{ simpl in Hf. apply andb_false_iff in Hf.
      rewrite !negb_false_iff, !String.eqb_eq in Hf. tauto. }
  unfold available_slots. cbv zeta. rewrite filter_filter.
  apply filter_ext_bool. intros x.
  destruct (mem x (get_booked_slots db' p d)) eqn:E1;
    destruct (mem x (get_booked_slots db p d)) eqn:E2;
    destruct (String.eqb_spec x t) as [->|Hxt]; simpl; try reflexivity;
    exfalso.
  - apply mem_In in E1.
    apply (booked_after_insert db db' row p d t x Hq Hbusy Hp Hrd Hrt) in E1.
    destruct E1 as [E1|E1]; [|contradiction].
    apply mem_In in E1. congruence.
  - assert (H : In t (get_booked_slots db' p d))
      by (apply (booked_after_insert db db' row p d t t Hq Hbusy Hp Hrd Hrt);
          now right).
    apply mem_In in H. congruence.
  - assert (H : In x (get_booked_slots db' p d)).
    { apply (booked_after_insert db db' row p d t x Hq Hbusy Hp Hrd Hrt).
      left. now apply mem_In. }
    apply mem_In in H. congruence.
  - assert (H : In t (get_booked_slots db' p d))
      by (apply (booked_after_insert db db' row p d t t Hq Hbusy Hp Hrd Hrt);
          now right).
    apply mem_In in H. congruence.
Qed.

(** C5. The grid is the 17 half-hour marks from 09:00 to 17:00; the
    available slots of a provider and date are the grid without the
    booked slots, in grid order, so no available slot is booked; and
    booking an available slot of a date takes exactly that slot out of
    what is available on that date. *)
Theorem available_slots_grid :
  slots = ["09:00"; "09:30"; "10:00"; "10:30"; "11:00"; "11:30"; "12:00";
           "12:30"; "13:00"; "13:30"; "14:00"; "14:30"; "15:00"; "15:30";
           "16:00"; "16:30"; "17:00"] /\
  List.length slots = 17%nat /\
  (forall db p d,
     available_slots db p d
     = filter (fun s => negb (mem s (get_booked_slots db p d))) slots) /\
  (forall db p d t,
     In t (available_slots db p d) <->
     In t slots /\ ~ In t (get_booked_slots db p d)) /\
  (forall db db' u p s d t owner name,
     d <> "" ->
     In t (available_slots db p d) ->
     client_book_slot db u p s d t = (BK_Booked owner name, db') ->
     available_slots db' p d
     = filter (fun x => negb (x =? t)%string) (available_slots db p d) /\
     (forall x, In x (available_slots db' p d) <->
                In x (available_slots db p d) /\ x <> t)).
Proof.
  split; [reflexivity|]. split; [reflexivity|]. split; [reflexivity|].
  split; [apply available_slots_In|].
  intros db db' u p s d t owner name Hd Ht Hb.
  pose proof (book_then_available db db' u p s d t owner name Hd Ht Hb) as E.
  split; [exact E|].
  intros x. rewrite E, filter_In, negb_true_iff, String.eqb_neq. tauto.
Qed.

(** Client A books 2025-08-25 10:00 at the salon: 10:00 is no longer
    available on that date, 09:00 still is. *)
Lemma available_slots_grid_witness :
  available_slots (snd (client_book_slot Demo.salon 6 1 1 "2025-08-25" "10:00"))
    1 "2025-08-25"
  = filter (fun x => negb (x =? "10:00")%string)
      (available_slots Demo.salon 1 "2025-08-25") /\
  In "09:00"
    (available_slots (snd (client_book_slot Demo.salon 6 1 1 "2025-08-25" "10:00"))
       1 "2025-08-25") /\
  ~ In "10:00"
    (available_slots (snd (client_book_slot Demo.salon 6 1 1 "2025-08-25" "10:00"))
       1 "2025-08-25").
Proof.
  split; [|split].
  - apply (proj1 (proj2 (proj2 (proj2 (proj2 available_slots_grid)))
             Demo.salon _ 6 1 1 "2025-08-25" "10:00" (Some 100) "Haircut"
             ltac:(discriminate)
             ltac:(vm_compute; tauto)
             eq_refl)).
  - vm_compute. tauto.
  - vm_compute. intuition discriminate.
Defined.

(** With an empty date in the payload [add_to_queue] takes its walk-in
    branch: the entry gets a position and books no slot. *)
Remark book_empty_date_is_walkin :
  queues (snd (client_book_slot Demo.salon 6 1 1 "" "10:00"))
  = [{| q_id := 1; q_provider := 1; q_user := 6; q_service := 1;
        q_position := 1; q_date := None; q_time := None |}].
Proof. reflexivity. Qed.

(** ** Deleting a provider *)

Lemma filter_none (A : Type) (f : A -> bool) (l : list A) :
  (forall x, In x l -> f x = false) -> filter f l = [].
Proof.
  induction l as [|a l IH]; simpl; intros H; [reflexivity|].
  rewrite (H a (or_introl eq_refl)). apply IH. intros x Hx. apply H. now right.
Qed.

Lemma delete_provider_queues_In (db : DB) (pid : Z) (q : queue_row) :
  In q (queues (delete_provider db pid)) <->
  In q (queues db) /\ q_provider q <> pid /\
  ~ (exists s, In s (services db) /\ s_provider s = pid /\ s_id s = q_service q).
Proof.
  unfold delete_provider; simpl.
  rewrite filter_In, andb_true_iff, !negb_true_iff, Z.eqb_neq.
  assert (E : existsb (Z.eqb (q_service q))
                (map s_id (filter (fun s => s_provider s =? pid) (services db)))
              = false <->
              ~ (exists s, In s (services db) /\ s_provider s = pid
                           /\ s_id s = q_service q)).
  { rewrite <- not_true_iff_false, existsb_exists. apply not_iff_compat. split.
    - intros (x & Hx & Ex). apply in_map_iff in Hx.
      destruct Hx as (s & <- & Hs). apply filter_In in Hs.
      destruct Hs as [Hs Hp]. apply Z.eqb_eq in Hp, Ex. eauto.
    - intros (s & Hs & Hp & Ex). exists (s_id s). split.
      + apply in_map, filter_In. split; [assumption|now apply Z.eqb_eq].
      + apply Z.eqb_eq. congruence. }
  rewrite E. tauto.
Qed.

Lemma delete_provider_no_rows (db : DB) (pid : Z) :
  filter (fun q => q_provider q =? pid) (queues (delete_provider db pid)) = [].
Proof.
  apply filter_none. intros q Hq. apply delete_provider_queues_In in Hq.
  apply Z.eqb_neq. tauto.
Qed.

Lemma delete_provider_no_walkins (db : DB) (pid : Z) :
  walkins (delete_provider db pid) pid = [].
Proof.
  apply filter_none. intros q Hq. apply delete_provider_queues_In in Hq.
  apply andb_false_iff. left. apply Z.eqb_neq. tauto.
Qed.

Lemma delete_provider_no_busy (db : DB) (pid : Z) :
  filter (fun b => b_provider b =? pid) (busy_times (delete_provider db pid)) = [].
Proof.
  apply filter_none. intros b Hb. unfold delete_provider in Hb; simpl in Hb.
  apply filter_In in Hb. destruct Hb as [_ Hb].
  now apply negb_true_iff in Hb.
Qed.

Lemma filter_other (A : Type) (key : A -> Z) (pid p' : Z) (l : list A) :
  p' <> pid ->
  filter (fun x => key x =? p') (filter (fun x => negb (key x =? pid)) l)
  = filter (fun x => key x =? p') l.
Proof.
  intros Hne. rewrite filter_filter. apply filter_ext_bool. intros x.
  destruct (Z.eqb_spec (key x) pid) as [E|E];
    destruct (Z.eqb_spec (key x) p') as [E'|E']; simpl; congruence.
Qed.

(** C8, as stated, fails in its last part: a queue entry of another
    provider that references a service of the deleted provider goes with
    that service.  In the sample store provider 2 holds a booking for
    service 1, which belongs to provider 1; deleting provider 1 removes
    it. *)
Lemma delete_provider_spares_others_fails :
  ~ (forall (db : DB) (pid : Z) (q : queue_row),
       In q (queues db) -> q_provider q <> pid ->
       In q (queues (delete_provider db pid))).
Proof.
  intros H.
  specialize (H Demo.crossed 1
    {| q_id := 1; q_provider := 2; q_user := 6; q_service := 1;
       q_position := 0; q_date := Some "2025-08-25"; q_time := Some "10:00" |}).
  vm_compute in H. apply H; [now left|discriminate].
Qed.

(** C8, amended.  Deleting a provider removes its record, all its
    services, all its queue entries and all its busy blocks, so that the
    queries on that provider return nothing; the services and busy
    blocks of other providers are untouched, and so are their queue
    entries except those that reference a service of the deleted
    provider, which are deleted with the service. *)
Theorem delete_provider_cascade :
  forall (db : DB) (pid : Z),
    (forall p, In p (providers (delete_provider db pid)) <->
               In p (providers db) /\ p_id p <> pid) /\
    (forall s, In s (services (delete_provider db pid)) <->
               In s (services db) /\ s_provider s <> pid) /\
    (forall b, In b (busy_times (delete_provider db pid)) <->
               In b (busy_times db) /\ b_provider b <> pid) /\
    (forall q, In q (queues (delete_provider db pid)) <->
               In q (queues db) /\ q_provider q <> pid /\
               ~ (exists s, In s (services db) /\ s_provider s = pid /\
                            s_id s = q_service q)) /\
    get_services (delete_provider db pid) pid = [] /\
    get_queue (delete_provider db pid) pid = [] /\
    queue_rows (delete_provider db pid) pid = [] /\
    get_busy_times (delete_provider db pid) pid = [] /\
    (forall d, get_booked_slots (delete_provider db pid) pid d = []) /\
    (forall p', p' <> pid ->
       get_services (delete_provider db pid) p' = get_services db p' /\
       get_busy_times (delete_provider db pid) p' = get_busy_times db p').
Proof.
  intros db pid.
  split. { intros p. unfold delete_provider; simpl.
           rewrite filter_In, negb_true_iff, Z.eqb_neq. tauto. }
  split. { intros s. unfold delete_provider; simpl.
           rewrite filter_In, negb_true_iff, Z.eqb_neq. tauto. }
  split. { intros b. unfold delete_provider; simpl.
           rewrite filter_In, negb_true_iff, Z.eqb_neq. tauto. }
  split. { apply delete_provider_queues_In. }
  split. { unfold get_services. rewrite filter_none; [reflexivity|].
           intros s Hs. unfold delete_provider in Hs; simpl in Hs.
           apply filter_In in Hs. destruct Hs as [_ Hs].
           now apply negb_true_iff in Hs. }
  split. { unfold get_queue, by_position.
           now rewrite delete_provider_no_walkins. }
  split. { unfold queue_rows, by_position_date_time.
           now rewrite delete_provider_no_rows. }
  split. { unfold get_busy_times. now rewrite delete_provider_no_busy. }
  split. { intros d. unfold get_booked_slots.
           rewrite !filter_none; [reflexivity| |].
           - intros b Hb. unfold delete_provider in Hb; simpl in Hb.
             apply filter_In in Hb. destruct Hb as [_ Hb].
             apply negb_true_iff in Hb. now rewrite Hb.
           - intros q Hq. apply delete_provider_queues_In in Hq.
             apply andb_false_iff. left. apply Z.eqb_neq. tauto. }
  intros p' Hne. unfold get_services, get_busy_times, delete_provider; simpl.
  now rewrite (filter_other _ s_provider pid p' _ Hne),
    (filter_other _ b_provider pid p' _ Hne).
Qed.

(** Deleting provider 1 leaves the busy block of provider 2. *)
Lemma delete_provider_cascade_witness :
  get_services (delete_provider Demo.blocked 1) 2 = get_services Demo.blocked 2 /\
  get_busy_times (delete_provider Demo.blocked 1) 2
  = get_busy_times Demo.blocked 2.
Proof.
  apply (proj2 (proj2 (proj2 (proj2 (proj2 (proj2 (proj2 (proj2 (proj2
           (delete_provider_cascade Demo.blocked 1)))))))))).
  discriminate.
Defined.

(** Unregistering the owner of the salon on the store with a queue. *)
Example unregister_demo :
  unregister Demo.line 100
  = (true,
     {| providers := []; services := []; queues := []; busy_times := [];
        seq_providers := 1; seq_services := 1; seq_queues := 4;
        seq_busy := 0 |}).
Proof. reflexivity. Qed.

(** ** Deleting a busy block *)

Lemma remove_busy_time_In (db : DB) (busy_id : Z) (b : busy_row) :
  In b (busy_times (remove_busy_time db busy_id)) <->
  In b (busy_times db) /\ b_id b <> busy_id.
Proof.
  unfold remove_busy_time; simpl.
  rewrite filter_In, negb_true_iff, Z.eqb_neq. tauto.
Qed.

(** C10. [admin_delete_busy] checks the caller against the owner of the
    provider named in the payload and then deletes the block with the
    given rowid, whichever provider the block belongs to: in the sample
    store the owner of provider 2 sends [delbusy:1:2] and block 1, which
    belongs to provider 1, is deleted. *)
Theorem delete_busy_unchecked :
  (forall db caller busy_id pid,
     get_provider_owner db pid = Some caller ->
     admin_delete_busy db caller busy_id pid
     = (DB_Deleted, remove_busy_time db busy_id)) /\
  (forall db busy_id b,
     In b (busy_times (remove_busy_time db busy_id)) <->
     In b (busy_times db) /\ b_id b <> busy_id) /\
  (exists db caller busy_id pid b,
     In b (busy_times db) /\ b_id b = busy_id /\ b_provider b <> pid /\
     get_provider_owner db pid = Some caller /\
     get_provider_owner db (b_provider b) <> Some caller /\
     fst (admin_delete_busy db caller busy_id pid) = DB_Deleted /\
     ~ In b (busy_times (snd (admin_delete_busy db caller busy_id pid)))).
Proof.
  split; [|split].
  - intros db caller busy_id pid H. unfold admin_delete_busy.
    now rewrite H, Z.eqb_refl.
  - apply remove_busy_time_In.
  - exists Demo.blocked, 200, 1, 2,
      {| b_id := 1; b_provider := 1; b_date := "2025-08-25"; b_time := "12:00" |}.
    vm_compute. repeat split; try discriminate; try tauto.
    intros [H|[]]. discriminate H.
Qed.

Lemma delete_busy_unchecked_witness :
  admin_delete_busy Demo.blocked 200 1 2
  = (DB_Deleted, remove_busy_time Demo.blocked 1).
Proof.
  apply (proj1 delete_busy_unchecked Demo.blocked 200 1 2). reflexivity.
Defined.

(** ** Registration *)

(** [register_start] turns away an owner who has a provider record. *)
Lemma register_start_refuses (db : DB) (st : fsm) (chat_id owner : Z)
    (p : Z * string * string) :
  get_provider_by_owner db owner = Some p ->
  register_start db st chat_id owner = (RG_AlreadyRegistered, st).
Proof. intros H. unfold register_start. now rewrite H. Qed.

(** [create_provider] itself does not look at the owner: with a fresh
    token it inserts a record whoever the owner is. *)
Lemma create_provider_adds (db : DB) (owner : Z) (name ref : string) :
  existsb (fun p => (p_ref p =? ref)%string) (providers db) = false ->
  exists db',
    create_provider db owner name ref = Ok (ref, db') /\
    providers_of db' owner
    = (providers_of db owner ++
       [{| p_id := next_rowid (seq_providers db) (map p_id (providers db));
           p_owner := owner; p_name := name; p_ref := ref |}])%list.
Proof.
  intros H. unfold create_provider. rewrite H. eexists. split; [reflexivity|].
  unfold providers_of; simpl. rewrite filter_app; simpl.
  now rewrite Z.eqb_refl.
Qed.

(** C7 at its failing inputs.  User 100 presses the registration button
    in two chats and then sends a name in each: [register_finish] does
    not look for an existing record, and the owner ends with two
    provider records.  The same happens in one chat when [bot.get_me()]
    raises after the insert: the conversation state is not cleared and
    the next text registers again. *)
Theorem register_twice :
  providers_of
    (fst (reg_run (empty_db, [])
            [PressRegister 1 100; PressRegister 2 100;
             SendText 1 100 "Salon" "aaaaaaaa" true;
             SendText 2 100 "Salon 2" "bbbbbbbb" true])) 100
  = [{| p_id := 1; p_owner := 100; p_name := "Salon"; p_ref := "aaaaaaaa" |};
     {| p_id := 2; p_owner := 100; p_name := "Salon 2"; p_ref := "bbbbbbbb" |}]
  /\
  providers_of
    (fst (reg_run (empty_db, [])
            [PressRegister 1 100;
             SendText 1 100 "Salon" "aaaaaaaa" false;
             SendText 1 100 "Salon 2" "bbbbbbbb" true])) 100
  = [{| p_id := 1; p_owner := 100; p_name := "Salon"; p_ref := "aaaaaaaa" |};
     {| p_id := 2; p_owner := 100; p_name := "Salon 2"; p_ref := "bbbbbbbb" |}].
Proof. split; reflexivity. Qed.

(** In one chat, with [bot.get_me()] answering, a second registration
    is turned away. *)
Example register_once :
  providers_of
    (fst (reg_run (empty_db, [])
            [PressRegister 1 100; SendText 1 100 "Salon" "aaaaaaaa" true;
             PressRegister 1 100; SendText 1 100 "Salon 2" "bbbbbbbb" true])) 100
  = [{| p_id := 1; p_owner := 100; p_name := "Salon"; p_ref := "aaaaaaaa" |}].
Proof. reflexivity. Qed.

(** * More of the store and of the handlers *)

(** ** What each operation does to the tables *)

Lemma provider_exists_iff (db : DB) (pid : Z) :
  provider_exists db pid = true <-> In pid (map p_id (providers db)).
Proof.
  unfold provider_exists. rewrite existsb_exists, in_map_iff.
  split; intros (p & H1 & H2).
  - apply Z.eqb_eq in H2. eauto.
  - exists p. split; [assumption|now apply Z.eqb_eq].
Qed.

Lemma service_exists_iff (db : DB) (sid : Z) :
  service_exists db sid = true <-> In sid (map s_id (services db)).
Proof.
  unfold service_exists. rewrite existsb_exists, in_map_iff.
  split; intros (s & H1 & H2).
  - apply Z.eqb_eq in H2. eauto.
  - exists s. split; [assumption|now apply Z.eqb_eq].
Qed.

Lemma filter_all (A : Type) (l : list A) : filter (fun _ => true) l = l.
Proof. induction l as [|a l IH]; simpl; [reflexivity|now rewrite IH]. Qed.

Lemma ref_fresh (db : DB) (ref : string) :
  existsb (fun p => (p_ref p =? ref)%string) (providers db) = false ->
  ~ In ref (map p_ref (providers db)).
Proof.
  intros H Hin. apply in_map_iff in Hin. destruct Hin as (p & E & Hp).
  apply not_true_iff_false in H. apply H. apply existsb_exists.
  exists p. split; [assumption|now apply String.eqb_eq].
Qed.

Lemma name_fresh (db : DB) (pid : Z) (name : string) :
  existsb (fun s => (s_provider s =? pid) && (s_name s =? name)%string)
    (services db) = false ->
  ~ In (pid, name) (map (fun s => (s_provider s, s_name s)) (services db)).
Proof.
  intros H Hin. apply in_map_iff in Hin. destruct Hin as (s & E & Hs).
  inversion E; subst; clear E.
  apply not_true_iff_false in H. apply H. apply existsb_exists.
  exists s. split; [assumption|].
  now rewrite Z.eqb_refl, String.eqb_refl.
Qed.

Lemma create_provider_change (db : DB) (owner : Z) (name ref : string) :
  store_change db (store_after (create_provider db owner name ref) db).
Proof.
  unfold create_provider.
  destruct (existsb _ (providers db)) eqn:E; simpl.
  - now apply SC_same.
  - eapply SC_provider; simpl; try reflexivity.
    + apply next_rowid_fresh.
    + now apply ref_fresh.
Qed.

Lemma add_service_change (db : DB) (pid : Z) (name : string) :
  store_change db (snd (add_service db pid name)).
Proof.
  unfold add_service.
  destruct (negb (provider_exists db pid)) eqn:E1; simpl;
    [now apply SC_same|].
  destruct (existsb _ (services db)) eqn:E2; simpl; [now apply SC_same|].
  eapply SC_service; simpl; try reflexivity.
  - apply next_rowid_fresh.
  - now apply name_fresh.
  - now apply negb_false_iff in E1.
Qed.

Lemma add_to_queue_fk (db db' : DB) (p u s pos : Z) (d t : option string) :
  add_to_queue db p u s d t = Ok (pos, db') ->
  provider_exists db p = true /\ service_exists db s = true.
Proof.
  unfold add_to_queue, insert_queue.
  destruct (provider_exists db p && service_exists db s) eqn:E.
  - intros _. now apply andb_true_iff in E.
  - destruct (truthy d && truthy t); discriminate.
Qed.

Lemma add_to_queue_change (db db' : DB) (p u s pos : Z) (d t : option string) :
  add_to_queue db p u s d t = Ok (pos, db') -> store_change db db'.
Proof.
  intros H. destruct (add_to_queue_fk _ _ _ _ _ _ _ _ H) as [Hp Hs].
  apply add_to_queue_spec in H.
  destruct H as (row & Hq & Hid & Hrp & _ & Hrs & _ & _ & H1 & H2 & H3).
  eapply SC_queue_add; eauto.
  - rewrite Hid. apply next_rowid_fresh.
  - now rewrite Hrp.
  - now rewrite Hrs.
Qed.

Lemma pop_deletes (db : DB) (pid : Z) (b : bool) :
  exists f,
    queues (snd (pop_next_in_queue db pid b)) = filter f (queues db) /\
    providers (snd (pop_next_in_queue db pid b)) = providers db /\
    services (snd (pop_next_in_queue db pid b)) = services db /\
    busy_times (snd (pop_next_in_queue db pid b)) = busy_times db.
Proof.
  destruct (pop_queues db pid b) as [->|(qid & ->)].
  - exists (fun _ => true). now rewrite filter_all.
  - eexists. simpl. repeat split; reflexivity.
Qed.

(** [call_next] writes to the queue table only, and only deletes. *)
Lemma call_next_deletes (db : DB) (from_user : Z) :
  exists f,
    queues (snd (call_next db from_user)) = filter f (queues db) /\
    providers (snd (call_next db from_user)) = providers db /\
    services (snd (call_next db from_user)) = services db /\
    busy_times (snd (call_next db from_user)) = busy_times db.
Proof.
  unfold call_next.
  destruct (get_provider_by_owner db from_user) as [[[pid n] r]|].
  2:{ exists (fun _ => true). now rewrite filter_all. }
  pose proof (pop_deletes db pid false) as (f1 & H1).
  destruct (pop_next_in_queue db pid false) as [[nxt|] db1]; simpl in H1.
  - exists f1. destruct (unpack2 nxt) as [[u s]|]; exact H1.
  - pose proof (pop_deletes db1 pid true) as (f2 & H2).
    destruct H1 as (Hq1 & Hp1 & Hs1 & Hb1).
    assert (H : forall db2,
      queues db2 = filter f2 (queues db1) /\ providers db2 = providers db1 /\
      services db2 = services db1 /\ busy_times db2 = busy_times db1 ->
      queues db2 = filter (fun x => f1 x && f2 x) (queues db) /\
      providers db2 = providers db /\ services db2 = services db /\
      busy_times db2 = busy_times db).
    { intros db2 (Hq2 & Hp2 & Hs2 & Hb2).
      rewrite Hq2, Hq1, filter_filter. repeat split; congruence. }
    exists (fun x => f1 x && f2 x).
    destruct (pop_next_in_queue db1 pid true) as [[nxt|] db2]; simpl in H2.
    + destruct (unpack4 nxt) as [[[[u s] d] t]|]; now apply H.
    + now apply H.
Qed.

Lemma apply_op_store_change (db : DB) (o : op) :
  store_change db (apply_op db o).
Proof.
  destruct o; simpl.
  - apply create_provider_change.
  - apply add_service_change.
  - destruct (add_to_queue db provider_id user_id service_id date time)
      as [[pos db']|] eqn:E; simpl.
    + eapply add_to_queue_change; eauto.
    + now apply SC_same.
  - destruct (pop_deletes db provider_id include_scheduled)
      as (f & Hq & Hp & Hs & Hb).
    eapply SC_queue_del; eauto.
  - destruct (call_next_deletes db from_user) as (f & Hq & Hp & Hs & Hb).
    eapply SC_queue_del; eauto.
  - unfold clear_queue.
    destruct (get_provider_by_owner db from_user) as [[[pid n] r]|]; simpl.
    + now eapply SC_queue_del.
    + now apply SC_same.
  - unfold unregister.
    destruct (get_provider_by_owner db from_user) as [[[pid n] r]|]; simpl.
    + now eapply SC_cascade.
    + now apply SC_same.
  - unfold add_busy_time.
    destruct (provider_exists db provider_id) eqn:E; simpl.
    + eapply SC_busy_add; simpl; try reflexivity; [|exact E].
      apply next_rowid_fresh.
    + now apply SC_same.
  - unfold admin_delete_busy.
    destruct (get_provider_owner db pid) as [owner|]; [|now apply SC_same].
    destruct (owner =? from_user); simpl.
    + now eapply SC_busy_del.
    + now apply SC_same.
  - unfold client_book_slot. cbv zeta.
    destruct (mem sel_time _); [now apply SC_same|].
    destruct (add_to_queue db provider_id from_user svc_id (Some sel_date)
                (Some sel_time)) as [[pos db']|] eqn:E; simpl.
    + eapply add_to_queue_change; eauto.
    + now apply SC_same.
Qed.

(** ** Referential integrity and keys *)

Lemma in_map_snoc (A B : Type) (f : A -> B) (l : list A) (a : A) (y : B) :
  In y (map f l) -> In y (map f (l ++ [a])).
Proof. intros H. rewrite map_app. apply in_or_app. now left. Qed.

Lemma fk_ok_In (db : DB) :
  fk_ok db <->
  (forall s, In s (services db) -> In (s_provider s) (map p_id (providers db))) /\
  (forall q, In q (queues db) ->
     In (q_provider q) (map p_id (providers db)) /\
     In (q_service q) (map s_id (services db))) /\
  (forall b, In b (busy_times db) -> In (b_provider b) (map p_id (providers db))).
Proof.
  unfold fk_ok. split; intros (H1 & H2 & H3); repeat split.
  - intros s Hs. apply provider_exists_iff; auto.
  - apply provider_exists_iff. now apply H2.
  - apply service_exists_iff. now apply H2.
  - intros b Hb. apply provider_exists_iff; auto.
  - intros s Hs. apply provider_exists_iff; auto.
  - apply provider_exists_iff. now apply H2.
  - apply service_exists_iff. now apply H2.
  - intros b Hb. apply provider_exists_iff; auto.
Qed.

Lemma cascade_fk (db : DB) (pid : Z) : fk_ok db -> fk_ok (delete_provider db pid).
Proof.
  rewrite !fk_ok_In. intros (H1 & H2 & H3).
  assert (Hp : forall x, x <> pid -> In x (map p_id (providers db)) ->
                         In x (map p_id (providers (delete_provider db pid)))).
  { intros x Hx Hin. apply in_map_iff in Hin. destruct Hin as (p & <- & Hin).
    apply in_map. unfold delete_provider; simpl. apply filter_In.
    split; [assumption|]. now apply negb_true_iff, Z.eqb_neq. }
  repeat split.
  - intros s Hs. unfold delete_provider in Hs; simpl in Hs.
    apply filter_In in Hs. destruct Hs as [Hs Hne].
    apply negb_true_iff, Z.eqb_neq in Hne. auto.
  - apply delete_provider_queues_In in H. destruct H as (Hq & Hne & _).
    apply Hp; [assumption|]. now apply H2.
  - apply delete_provider_queues_In in H. destruct H as (Hq & Hne & Hdead).
    destruct (H2 q Hq) as [_ Hs]. apply in_map_iff in Hs.
    destruct Hs as (s & Es & Hs). rewrite <- Es. apply in_map.
    unfold delete_provider; simpl. apply filter_In. split; [assumption|].
    apply negb_true_iff, Z.eqb_neq. intros E. apply Hdead. eauto.
  - intros b Hb. unfold delete_provider in Hb; simpl in Hb.
    apply filter_In in Hb. destruct Hb as [Hb Hne].
    apply negb_true_iff, Z.eqb_neq in Hne. auto.
Qed.

Lemma store_change_fk (db db' : DB) :
  store_change db db' -> fk_ok db -> fk_ok db'.
Proof.
  intros Hc Hfk.
  destruct Hc as [Ep Es Eq Eb | p Ep _ _ Es Eq Eb | s Es _ _ Hs Ep Eq Eb
                 | q Eq _ Hqp Hqs Ep Es Eb | f Eq Ep Es Eb
                 | b Eb _ Hbp Ep Es Eq | f Eb Ep Es Eq | pid Ep Es Eq Eb].
  8:{ apply (cascade_fk db pid) in Hfk. rewrite fk_ok_In in *.
      rewrite Ep, Es, Eq, Eb. exact Hfk. }
  all: rewrite fk_ok_In in *; destruct Hfk as (H1 & H2 & H3);
    try apply provider_exists_iff in Hs;
    try apply provider_exists_iff in Hqp;
    try apply service_exists_iff in Hqs;
    try apply provider_exists_iff in Hbp;
    rewrite Ep, Es, Eq, Eb.
  - auto.
  - repeat split.
    + intros s Hs. apply in_map_snoc; auto.
    + apply in_map_snoc. now apply H2.
    + now apply H2.
    + intros b Hb. apply in_map_snoc; auto.
  - repeat split.
    + intros x Hx. apply in_app_or in Hx. destruct Hx as [Hx|[<-|[]]]; auto.
    + now apply H2.
    + apply in_map_snoc. now apply H2.
    + assumption.
  - repeat split; try assumption.
    + apply in_app_or in H. destruct H as [H|[<-|[]]]; [now apply H2|assumption].
    + apply in_app_or in H. destruct H as [H|[<-|[]]]; [now apply H2|assumption].
  - repeat split; try assumption.
    + apply filter_In in H. now apply H2.
    + apply filter_In in H. now apply H2.
  - repeat split; try assumption; try (now apply H2).
    intros x Hx. apply in_app_or in Hx. destruct Hx as [Hx|[<-|[]]]; auto.
  - repeat split; try assumption; try (now apply H2).
    intros x Hx. apply filter_In in Hx. apply H3. tauto.
Qed.

Lemma store_change_keys (db db' : DB) :
  store_change db db' -> keys_ok db -> keys_ok db'.
Proof.
  unfold keys_ok. intros Hc (K1 & K2 & K3 & K4 & K5 & K6).
  destruct Hc as [Ep Es Eq Eb | p Ep F1 F2 Es Eq Eb | s Es F1 F2 _ Ep Eq Eb
                 | q Eq F1 _ _ Ep Es Eb | f Eq Ep Es Eb
                 | b Eb F1 _ Ep Es Eq | f Eb Ep Es Eq | pid Ep Es Eq Eb];
    rewrite Ep, Es, Eq, Eb; clear Ep Es Eq Eb;
    try (unfold delete_provider; simpl);
    rewrite ?map_app; simpl;
    repeat split;
    first [ assumption
          | now apply NoDup_snoc
          | now apply NoDup_map_filter ].
Qed.

Lemma empty_fk_keys : fk_ok empty_db /\ keys_ok empty_db.
Proof.
  split.
  - unfold fk_ok; simpl. repeat split; intros; contradiction.
  - unfold keys_ok; simpl. repeat split; constructor.
Qed.

Lemma run_fk_keys (ops : list op) :
  forall db : DB,
    fk_ok db /\ keys_ok db -> fk_ok (run db ops) /\ keys_ok (run db ops).
Proof.
  induction ops as [|o ops IH]; intros db [Hf Hk]; simpl; [auto|].
  apply IH. pose proof (apply_op_store_change db o) as Hc. split.
  - eapply store_change_fk; eauto.
  - eapply store_change_keys; eauto.
Qed.

(** X1. Referential integrity.  Every operation keeps each foreign key
    pointing to an existing row (inserts are checked, deleting a
    provider takes its dependents along), so in every store built from
    the empty one each service and busy block has its provider and each
    queue entry has its provider and its service. *)
Theorem referential_integrity :
  (forall db o, fk_ok db -> fk_ok (apply_op db o)) /\
  (forall ops, fk_ok (run empty_db ops)) /\
  (forall ops q,
     In q (queues (run empty_db ops)) ->
     (exists p, In p (providers (run empty_db ops)) /\ p_id p = q_provider q) /\
     (exists s, In s (services (run empty_db ops)) /\ s_id s = q_service q)).
Proof.
  split; [intros db o; apply store_change_fk, apply_op_store_change|].
  split; [intros ops; apply (run_fk_keys ops empty_db empty_fk_keys)|].
  intros ops q Hq.
  pose proof (proj1 (run_fk_keys ops empty_db empty_fk_keys)) as Hfk.
  apply fk_ok_In in Hfk. destruct Hfk as (_ & H2 & _).
  destruct (H2 q Hq) as [Hp Hs].
  apply in_map_iff in Hp, Hs.
  destruct Hp as (p & Ep & Hp), Hs as (s & Es & Hs).
  split; [exists p|exists s]; auto.
Qed.

(** X2. Keys.  Every operation keeps the rowids of each table pairwise
    distinct, the referral codes of providers pairwise distinct and the
    names of the services of a provider pairwise distinct; so they are in
    every store built from the empty one. *)
Theorem keys_unique :
  (forall db o, keys_ok db -> keys_ok (apply_op db o)) /\
  (forall ops, keys_ok (run empty_db ops)) /\
  (forall ops s1 s2,
     In s1 (services (run empty_db ops)) ->
     In s2 (services (run empty_db ops)) ->
     s_provider s1 = s_provider s2 -> s_name s1 = s_name s2 -> s1 = s2).
Proof.
  split; [intros db o; apply store_change_keys, apply_op_store_change|].
  split; [intros ops; apply (run_fk_keys ops empty_db empty_fk_keys)|].
  intros ops s1 s2 H1 H2 Ep En.
  pose proof (proj2 (run_fk_keys ops empty_db empty_fk_keys)) as Hk.
  destruct Hk as (_ & _ & _ & K4 & _).
  eapply (NoDup_map_eq _ _ (fun s => (s_provider s, s_name s))); eauto.
  simpl. congruence.
Qed.

(** ** Providers and services: insert and look up *)

Lemma find_snoc (A : Type) (f : A -> bool) (l : list A) (a : A) :
  find f (l ++ [a]) =
  match find f l with
  | Some x => Some x
  | None => if f a then Some a else None
  end.
Proof.
  induction l as [|x l IH]; simpl; [reflexivity|].
  destruct (f x); [reflexivity|exact IH].
Qed.

Lemma find_none_iff (A : Type) (f : A -> bool) (l : list A) :
  find f l = None <-> forall x, In x l -> f x = false.
Proof.
  split.
  - apply find_none.
  - induction l as [|a l IH]; simpl; intros H; [reflexivity|].
    rewrite (H a (or_introl eq_refl)). apply IH. intros x Hx. apply H. now right.
Qed.

Lemma ref_taken (db : DB) (ref : string) :
  existsb (fun p => (p_ref p =? ref)%string) (providers db) = true <->
  In ref (map p_ref (providers db)).
Proof.
  rewrite existsb_exists, in_map_iff. split; intros (p & H1 & H2).
  - apply String.eqb_eq in H2. eauto.
  - exists p. split; [assumption|now apply String.eqb_eq].
Qed.

(** X3. [create_provider] raises exactly when the referral code is
    taken, and then writes nothing.  Otherwise the new record is found
    by its code, every other code resolves as before, an owner with no
    record so far is resolved to the new one, and an owner who had a
    record is still resolved to the record found before (a second record
    of the same owner is never the one looked up). *)
Theorem create_provider_lookup :
  forall (db : DB) (owner : Z) (name ref : string),
    (create_provider db owner name ref = IntegrityError <->
     In ref (map p_ref (providers db))) /\
    (forall r db',
       create_provider db owner name ref = Ok (r, db') ->
       r = ref /\
       get_provider_by_ref db' ref
       = Some (next_rowid (seq_providers db) (map p_id (providers db)), name) /\
       (forall ref', ref' <> ref ->
          get_provider_by_ref db' ref' = get_provider_by_ref db ref') /\
       (get_provider_by_owner db owner = None ->
        get_provider_by_owner db' owner
        = Some (next_rowid (seq_providers db) (map p_id (providers db)),
                name, ref)) /\
       (forall o x, get_provider_by_owner db o = Some x ->
                    get_provider_by_owner db' o = Some x)).
Proof.
  intros db owner name ref. unfold create_provider.
  destruct (existsb _ (providers db)) eqn:E.
  - split; [|discriminate]. split; [intros _|reflexivity]. now apply ref_taken.
  - split.
    + split; [discriminate|]. intros H. apply ref_taken in H. congruence.
    + intros r db' H. inversion H; subst; clear H.
      unfold get_provider_by_ref, get_provider_by_owner; simpl.
      split; [reflexivity|]. split; [|split; [|split]].
      * rewrite find_snoc; simpl. rewrite String.eqb_refl.
        assert (Hn : find (fun p => (p_ref p =? r)%string) (providers db) = None).
        { apply find_none_iff. intros x Hx.
          apply not_true_iff_false. intros Ex. apply String.eqb_eq in Ex.
          apply not_true_iff_false in E. apply E. apply ref_taken.
          rewrite <- Ex. now apply in_map. }
        now rewrite Hn.
      * intros ref' Hne. rewrite find_snoc; simpl.
        destruct (find _ (providers db)); [reflexivity|].
        destruct (String.eqb_spec r ref'); [congruence|reflexivity].
      * intros Hnone. rewrite find_snoc; simpl. rewrite Z.eqb_refl.
        destruct (find _ (providers db)); [discriminate|reflexivity].
      * intros o x Hx. rewrite find_snoc.
        destruct (find _ (providers db)); [exact Hx|discriminate].
Qed.

Lemma create_provider_lookup_witness :
  get_provider_by_ref
    (run Demo.salon [OpCreateProvider 200 "Barber" "ffff0000"]) "ffff0000"
  = Some (next_rowid (seq_providers Demo.salon)
            (map p_id (providers Demo.salon)), "Barber").
Proof.
  apply (proj2 (create_provider_lookup Demo.salon 200 "Barber" "ffff0000")
           "ffff0000"
           (run Demo.salon [OpCreateProvider 200 "Barber" "ffff0000"])).
  vm_compute. reflexivity.
Defined.

Lemma filter_snoc (A : Type) (f : A -> bool) (l : list A) (a : A) :
  filter f (l ++ [a]) = (filter f l ++ (if f a then [a] else []))%list.
Proof. rewrite filter_app. simpl. now destruct (f a). Qed.

Lemma service_taken (db : DB) (pid : Z) (name : string) :
  existsb (fun s => (s_provider s =? pid) && (s_name s =? name)%string)
    (services db) = true <->
  exists s, In s (services db) /\ s_provider s = pid /\ s_name s = name.
Proof.
  rewrite existsb_exists. split; intros (s & Hs & H).
  - apply andb_true_iff in H. destruct H as [H1 H2].
    apply Z.eqb_eq in H1. apply String.eqb_eq in H2. eauto.
  - destruct H as [H1 H2]. exists s. split; [assumption|].
    apply andb_true_iff. split; [now apply Z.eqb_eq|now apply String.eqb_eq].
Qed.

Lemma add_service_cases (db : DB) (pid : Z) (name : string) :
  (provider_exists db pid = false /\ add_service db pid name = (false, db)) \/
  (provider_exists db pid = true /\
   existsb (fun s => (s_provider s =? pid) && (s_name s =? name)%string)
     (services db) = true /\
   add_service db pid name = (false, db)) \/
  (provider_exists db pid = true /\
   existsb (fun s => (s_provider s =? pid) && (s_name s =? name)%string)
     (services db) = false /\
   add_service db pid name
   = (true,
      {| providers := providers db;
         services := services db ++
           [{| s_id := next_rowid (seq_services db) (map s_id (services db));
               s_provider := pid; s_name := name |}];
         queues := queues db; busy_times := busy_times db;
         seq_providers := seq_providers db;
         seq_services := next_rowid (seq_services db) (map s_id (services db));
         seq_queues := seq_queues db; seq_busy := seq_busy db |})).
Proof.
  unfold add_service.
  destruct (provider_exists db pid); simpl; [|now left].
  destruct (existsb _ (services db)); simpl; right; [left|right]; auto.
Qed.

(** X4. [add_service] answers [False] exactly when the provider does
    not exist or already has a service of that name, and then writes
    nothing; when it answers [True] the service is the last of the
    provider's list and the lists of other providers are as before; a
    second call with the same name is always turned away. *)
Theorem add_service_behaviour :
  forall (db : DB) (pid : Z) (name : string),
    (fst (add_service db pid name) = false <->
     provider_exists db pid = false \/
     exists s, In s (services db) /\ s_provider s = pid /\ s_name s = name) /\
    (fst (add_service db pid name) = false ->
     snd (add_service db pid name) = db) /\
    (fst (add_service db pid name) = true ->
     get_services (snd (add_service db pid name)) pid
     = (get_services db pid ++
        [(next_rowid (seq_services db) (map s_id (services db)), name)])%list /\
     forall p', p' <> pid ->
       get_services (snd (add_service db pid name)) p' = get_services db p') /\
    add_service (snd (add_service db pid name)) pid name
    = (false, snd (add_service db pid name)).
Proof.
  intros db pid name.
  destruct (add_service_cases db pid name)
    as [(Ep & E)|[(Ep & Ed & E)|(Ep & Ed & E)]]; rewrite E; simpl.
  - split; [tauto|]. split; [reflexivity|]. split; [discriminate|exact E].
  - split; [split; [intros _; right; now apply service_taken|reflexivity]|].
    split; [reflexivity|]. split; [discriminate|exact E].
  - split.
    { split; [discriminate|]. intros [H|H]; [congruence|].
      apply service_taken in H. congruence. }
    split; [discriminate|]. split.
    + intros _. unfold get_services; simpl. split.
      * rewrite filter_snoc; simpl. rewrite Z.eqb_refl, map_app. reflexivity.
      * intros p' Hne. rewrite filter_snoc; simpl.
        destruct (Z.eqb_spec pid p'); [congruence|]. now rewrite app_nil_r.
    + unfold add_service, provider_exists in *; simpl. rewrite Ep; simpl.
      rewrite existsb_app; simpl.
      now rewrite Z.eqb_refl, String.eqb_refl, orb_true_r.
Qed.

Lemma add_service_behaviour_witness :
  snd (add_service Demo.salon 1 "Haircut") = Demo.salon.
Proof.
  apply (proj1 (proj2 (add_service_behaviour Demo.salon 1 "Haircut"))).
  reflexivity.
Defined.

(** ** The walk-in line: distinct positions, its listing *)

Lemma walkins_of_filter (db db' : DB) (f : queue_row -> bool) (pid : Z) :
  queues db' = filter f (queues db) ->
  walkins db' pid = filter f (walkins db pid).
Proof.
  intros E. unfold walkins. rewrite E, !filter_filter.
  apply filter_ext_bool. intros x. apply andb_comm.
Qed.

Lemma change_positions (db db' : DB) :
  queue_change db db' -> positions_distinct db -> positions_distinct db'.
Proof.
  intros [E|f E|p u s pos d t E] Hd pid.
  - unfold walkins. rewrite E. apply Hd.
  - rewrite (walkins_of_filter db db' f pid E). apply NoDup_map_filter, Hd.
  - apply add_to_queue_spec in E.
    destruct E as (row & Hq & _ & Hp & _ & _ & Hpos & Hcase & _).
    unfold walkins. rewrite Hq, filter_snoc, Hp, Hpos.
    destruct Hcase as [(_ & _ & -> & _)|(_ & Hn & _)].
    + simpl. rewrite andb_false_r, app_nil_r. apply Hd.
    + destruct (Z.eqb_spec p pid) as [->|Hne]; simpl.
      * pose proof (max_position_nonneg db pid).
        assert (Hlt : (0 <? pos) = true) by (apply Z.ltb_lt; lia).
        rewrite Hlt, map_app; simpl. rewrite Hpos.
        apply NoDup_snoc; [apply Hd|].
        intros Hin. apply max_of_ub in Hin.
        unfold max_position, walkins in Hn. lia.
      * rewrite app_nil_r. apply Hd.
Qed.

Lemma run_positions (ops : list op) :
  forall db : DB, positions_distinct db -> positions_distinct (run db ops).
Proof.
  induction ops as [|o ops IH]; intros db Hd; simpl; [exact Hd|].
  apply IH. eapply change_positions; [apply apply_op_change|exact Hd].
Qed.

Lemma service_name_of_some (db : DB) (sid : Z) :
  service_exists db sid = true -> exists n, service_name_of db sid = Some n.
Proof.
  unfold service_exists, service_name_of. intros H.
  destruct (find (fun s => s_id s =? sid) (services db)) as [s|] eqn:E.
  - simpl. eauto.
  - apply existsb_exists in H. destruct H as (x & Hx & Ex).
    apply (find_none _ _ E) in Hx. congruence.
Qed.

Lemma join_keeps_all (db : DB) (l : list queue_row) :
  (forall q, In q l -> service_exists db (q_service q) = true) ->
  map (fun x => (fst (fst x), snd (fst x)))
    (flat_map
       (fun q => match service_name_of db (q_service q) with
                 | Some n => [(q_position q, q_user q, n)]
                 | None => []
                 end) l)
  = map (fun q => (q_position q, q_user q)) l.
Proof.
  induction l as [|q l IH]; intros H; simpl; [reflexivity|].
  destruct (service_name_of_some db (q_service q) (H q (or_introl eq_refl)))
    as [n ->].
  simpl. rewrite IH; [reflexivity|]. intros x Hx. apply H. now right.
Qed.

Lemma sorted_distinct_strict (l : list queue_row) :
  StronglySorted (Sql.le q_position Z.compare) l ->
  NoDup (map q_position l) ->
  StronglySorted Z.lt (map q_position l).
Proof.
  induction 1 as [|q l Hs IH Hq]; simpl; intros Hn; [constructor|].
  inversion Hn as [|? ? Hnin Hn']; subst.
  constructor; [auto|].
  apply Forall_forall. intros x Hx. apply in_map_iff in Hx.
  destruct Hx as (r & <- & Hr).
  assert (Hle : Sql.le q_position Z.compare q r)
    by (eapply Forall_forall; eauto).
  unfold Sql.le, Sql.row_leb, Sql.leb_of in Hle.
  destruct (Z.compare_spec (q_position q) (q_position r)) as [E|E|E];
    [|assumption|discriminate].
  exfalso. apply Hnin. rewrite E. now apply in_map.
Qed.

(** X5. In every store built from the empty one no two walk-ins of a
    provider share a position; [get_queue] lists every walk-in of the
    provider (the join drops none) with its position and client, in
    strictly ascending position. *)
Theorem walkin_line_listing :
  forall (ops : list op) (pid : Z),
    NoDup (map q_position (walkins (run empty_db ops) pid)) /\
    Permutation
      (map (fun x => (fst (fst x), snd (fst x)))
         (get_queue (run empty_db ops) pid))
      (map (fun q => (q_position q, q_user q))
         (walkins (run empty_db ops) pid)) /\
    StronglySorted Z.lt
      (map (fun x => fst (fst x)) (get_queue (run empty_db ops) pid)).
Proof.
  intros ops pid. set (db := run empty_db ops).
  assert (Hd : positions_distinct db).
  { apply run_positions. intros p. constructor. }
  assert (Hfk : fk_ok db) by apply (run_fk_keys ops empty_db empty_fk_keys).
  assert (Hjoin :
    map (fun x => (fst (fst x), snd (fst x))) (get_queue db pid)
    = map (fun q => (q_position q, q_user q)) (by_position (walkins db pid))).
  { unfold get_queue. apply join_keeps_all. intros q Hq.
    apply SqlFacts.order_by_In, walkins_In in Hq.
    destruct Hfk as (_ & H2 & _). now apply H2. }
  split; [apply Hd|]. split.
  - rewrite Hjoin. apply Permutation_map, SqlFacts.order_by_perm.
  - assert (E : map (fun x => fst (fst x)) (get_queue db pid)
               = map q_position (by_position (walkins db pid))).
    { transitivity (map fst (map (fun x => (fst (fst x), snd (fst x)))
                               (get_queue db pid))).
      - rewrite map_map. reflexivity.
      - rewrite Hjoin, map_map. reflexivity. }
    rewrite E. apply sorted_distinct_strict.
    + apply SqlFacts.order_by_sorted, SqlFacts.good_Z.
    + eapply Permutation_NoDup; [|apply Hd].
      apply Permutation_map. symmetry. apply SqlFacts.order_by_perm.
Qed.

(** The line of the sample store. *)
Example get_queue_demo :
  get_queue Demo.line 1 = [(1, 7, "Haircut"); (2, 8, "Haircut"); (3, 9, "Haircut")].
Proof. reflexivity. Qed.

(** ** Popping with [include_scheduled=True] *)

Lemma before_null_is_null (d t : option string) :
  Sql.leb_of (Sql.lex text_cmp text_cmp) (d, t) (None, None) = true ->
  d = None.
Proof.
  unfold Sql.leb_of, Sql.lex, text_cmp; simpl.
  destruct d as [x|]; simpl; [discriminate|reflexivity].
Qed.

(** X6. [pop_next_in_queue] with [include_scheduled=True] sorts all
    entries of the provider by date and time, and the walk-ins, whose
    date is [NULL], sort first: as long as the provider has a walk-in,
    the entry popped is a walk-in and the tuple returned carries no date
    and no time, whatever bookings exist. *)
Theorem pop_scheduled_takes_walkin :
  forall (db : DB) (pid : Z),
    queue_shapes db ->
    (exists w, In w (queues db) /\ q_provider w = pid /\ 0 < q_position w) ->
    exists r,
      In r (queues db) /\ q_provider r = pid /\ is_walkin r /\
      pop_next_in_queue db pid true
      = (Some (PopScheduled (q_user r) (q_service r) None None),
         delete_queue_row db (q_id r)).
Proof.
  intros db pid Hs (w & Hw & Hwp & Hwpos).
  assert (Hne : filter (fun q => q_provider q =? pid) (queues db) <> []).
  { apply nonempty_of_In with (x := w). apply provider_rows_In; auto. }
  destruct (pop_any_some db pid Hne) as (r & Hr & Hrp & Hmin & Hpop).
  assert (Hww : is_walkin w).
  { destruct (Hs w Hw) as [H|(H0 & _)]; [exact H|lia]. }
  destruct Hww as (_ & Hwd & Hwt).
  specialize (Hmin w Hw Hwp). rewrite Hwd, Hwt in Hmin.
  apply before_null_is_null in Hmin.
  assert (Hrw : is_walkin r).
  { destruct (Hs r Hr) as [H|(_ & (d & Hd) & _)]; [exact H|congruence]. }
  exists r. repeat (split; [assumption|]).
  destruct Hrw as (_ & Hrd & Hrt). now rewrite Hpop, Hrd, Hrt.
Qed.

Lemma demo_line_shapes : queue_shapes Demo.line.
Proof.
  apply (run_invariants
           [OpCreateProvider 100 "Salon" "abcd1234"; OpAddService 1 "Haircut";
            OpBook 5 1 1 "2025-08-20" "09:00"; OpAddToQueue 1 7 1 None None;
            OpAddToQueue 1 8 1 None None; OpAddToQueue 1 9 1 None None]
           empty_db empty_invariants).
Defined.

(** On the sample store the booking of 2025-08-20 is passed over. *)
Lemma pop_scheduled_takes_walkin_witness :
  exists r,
    In r (queues Demo.line) /\ q_provider r = 1 /\ is_walkin r /\
    pop_next_in_queue Demo.line 1 true
    = (Some (PopScheduled (q_user r) (q_service r) None None),
       delete_queue_row Demo.line (q_id r)).
Proof.
  apply (pop_scheduled_takes_walkin Demo.line 1 demo_line_shapes).
  exists {| q_id := 2; q_provider := 1; q_user := 7; q_service := 1;
            q_position := 1; q_date := None; q_time := None |}.
  vm_compute. intuition.
Defined.

(** ** Clearing the queue *)

Lemma busy_only (db : DB) (pid : Z) (d t : string) :
  (forall q, In q (queues db) -> q_provider q <> pid) ->
  (In t (get_booked_slots db pid d) <->
   exists b, In b (busy_times db) /\ b_provider b = pid /\
             b_date b = d /\ b_time b = t).
Proof.
  intros Hno. rewrite get_booked_slots_In. split; [|now right].
  intros [(q & Hq & Hp & _)|H]; [|exact H].
  exfalso. eapply Hno; eauto.
Qed.

(** X7. [clear_queue] does nothing for a caller without a provider.
    For a registered caller it deletes every queue entry of the caller's
    provider, walk-in or scheduled, and nothing else; afterwards the
    listing and [call_next] find the queue empty, the next walk-in gets
    position 1 again, and only busy blocks still take slots of that
    provider. *)
Theorem clear_queue_effect :
  forall (db : DB) (owner : Z),
    (get_provider_by_owner db owner = None ->
     clear_queue db owner = (false, db)) /\
    (forall pid name ref,
       get_provider_by_owner db owner = Some (pid, name, ref) ->
       fst (clear_queue db owner) = true /\
       (forall q, In q (queues (snd (clear_queue db owner))) <->
                  In q (queues db) /\ q_provider q <> pid) /\
       providers (snd (clear_queue db owner)) = providers db /\
       services (snd (clear_queue db owner)) = services db /\
       busy_times (snd (clear_queue db owner)) = busy_times db /\
       call_next (snd (clear_queue db owner)) owner
       = (CN_Empty, snd (clear_queue db owner)) /\
       show_queue (snd (clear_queue db owner)) owner = SQ_Empty /\
       max_position (snd (clear_queue db owner)) pid = 0 /\
       (forall d t,
          In t (get_booked_slots (snd (clear_queue db owner)) pid d) <->
          exists b, In b (busy_times db) /\ b_provider b = pid /\
                    b_date b = d /\ b_time b = t)).
Proof.
  intros db owner. unfold clear_queue. split.
  - intros H. now rewrite H.
  - intros pid name ref H. rewrite H. simpl.
    set (db' := set_queues db
                  (filter (fun q => negb (q_provider q =? pid)) (queues db))
                  (seq_queues db)).
    assert (Hin : forall q, In q (queues db') <->
                            In q (queues db) /\ q_provider q <> pid).
    { intros q. unfold db'; simpl.
      rewrite filter_In, negb_true_iff, Z.eqb_neq. tauto. }
    assert (Hp : get_provider_by_owner db' owner = Some (pid, name, ref))
      by exact H.
    assert (Hrows : filter (fun q => q_provider q =? pid) (queues db') = []).
    { apply filter_none. intros q Hq. apply Hin in Hq. apply Z.eqb_neq. tauto. }
    assert (Hwalk : walkins db' pid = []).
    { apply filter_none. intros q Hq. apply Hin in Hq.
      apply andb_false_iff. left. apply Z.eqb_neq. tauto. }
    split; [reflexivity|]. split; [exact Hin|].
    do 3 (split; [reflexivity|]).
    split.
    { unfold call_next. rewrite Hp.
      rewrite (pop_walkin_none db' pid Hwalk).
      now rewrite (pop_any_none db' pid Hrows). }
    split.
    { unfold show_queue. rewrite Hp. unfold queue_rows, by_position_date_time.
      now rewrite Hrows. }
    split.
    { unfold max_position. now rewrite Hwalk. }
    intros d t. apply (busy_only db' pid d t).
    intros q Hq. apply Hin in Hq. tauto.
Qed.

(** Clearing the queue of the sample store. *)
Lemma clear_queue_effect_witness :
  call_next (snd (clear_queue Demo.line 100)) 100
  = (CN_Empty, snd (clear_queue Demo.line 100)).
Proof.
  assert (H : get_provider_by_owner Demo.line 100
               = Some (1, "Salon", "abcd1234")) by (vm_compute; reflexivity).
  exact (proj1 (proj2 (proj2 (proj2 (proj2 (proj2
           (proj2 (clear_queue_effect Demo.line 100)
              1 "Salon" "abcd1234" H))))))).
Defined.

(** ** What [call_next] does to the store *)

Lemma call_next_cases (db : DB) (u : Z) :
  (get_provider_by_owner db u = None /\
   call_next db u = (CN_NotRegistered, db)) \/
  (exists pid n r,
     get_provider_by_owner db u = Some (pid, n, r) /\
     ((exists row,
         In row (queues db) /\ q_provider row = pid /\ 0 < q_position row /\
         call_next db u
         = (CN_WalkIn (q_user row) (service_label db (q_service row)),
            delete_queue_row db (q_id row))) \/
      (exists row,
         In row (queues db) /\ q_provider row = pid /\
         call_next db u
         = (CN_Scheduled (q_user row) (service_label db (q_service row))
              (q_date row) (q_time row),
            delete_queue_row db (q_id row))) \/
      (provider_rows db pid = [] /\ call_next db u = (CN_Empty, db)))).
Proof.
  unfold call_next.
  destruct (get_provider_by_owner db u) as [[[pid n] r]|]; [right|now left].
  exists pid, n, r. split; [reflexivity|].
  destruct (walkins db pid) as [|w0 l0] eqn:Ew.
  - rewrite (pop_walkin_none db pid Ew). right.
    destruct (provider_rows db pid) as [|q0 l1] eqn:Er.
    + right. split; [reflexivity|]. now rewrite (pop_any_none db pid Er).
    + left. assert (Hne : provider_rows db pid <> [])
        by (rewrite Er; discriminate).
      destruct (pop_any_some db pid Hne) as (row & Hr & Hp & _ & Hpop).
      exists row. rewrite Hpop. simpl. auto.
  - left. assert (Hne : walkins db pid <> []) by (rewrite Ew; discriminate).
    destruct (pop_walkin_some db pid Hne) as (row & Hr & Hp & Hpos & _ & Hpop).
    exists row. rewrite Hpop. simpl. auto.
Qed.

Lemma filter_keeps_all (A : Type) (f : A -> bool) (l : list A) :
  (forall x, In x l -> f x = true) -> filter f l = l.
Proof.
  induction l as [|a l IH]; simpl; intros H; [reflexivity|].
  rewrite (H a (or_introl eq_refl)), IH; [reflexivity|].
  intros x Hx. apply H. now right.
Qed.

(** Deleting by rowid shortens a table with unique rowids by one row. *)
Lemma delete_one_length (l : list queue_row) (r : queue_row) :
  NoDup (map q_id l) -> In r l ->
  List.length l
  = S (List.length (filter (fun q => negb (q_id q =? q_id r)) l)).
Proof.
  induction l as [|a l IH]; simpl; intros Hn Hr; [contradiction|].
  inversion Hn as [|? ? Hnin Hn']; subst.
  destruct (Z.eqb_spec (q_id a) (q_id r)) as [E|E]; simpl.
  - rewrite filter_keeps_all; [reflexivity|].
    intros x Hx. apply negb_true_iff, Z.eqb_neq. intros Ex.
    apply Hnin. rewrite E, <- Ex. now apply in_map.
  - destruct Hr as [->|Hr]; [congruence|]. now rewrite <- IH.
Qed.

(** X8. [call_next] never fails on unpacking what [pop_next_in_queue]
    returns, writes to no table but the queue, and leaves the store as it
    was when it answers that the queue is empty or that the caller is not
    registered; when it dispatches a client, the queue (rowids unique)
    loses exactly one entry. *)
Theorem call_next_effect :
  forall (db : DB) (u : Z),
    fst (call_next db u) <> CN_Raised /\
    providers (snd (call_next db u)) = providers db /\
    services (snd (call_next db u)) = services db /\
    busy_times (snd (call_next db u)) = busy_times db /\
    (~ is_dispatch (fst (call_next db u)) -> snd (call_next db u) = db) /\
    (queue_ids_unique db -> is_dispatch (fst (call_next db u)) ->
     List.length (queues db) = S (List.length (queues (snd (call_next db u))))).
Proof.
  intros db u.
  destruct (call_next_cases db u)
    as [(_ & E)|(pid & n & r & _ & [(row & Hr & _ & _ & E)
                                   |[(row & Hr & _ & E)|(_ & E)]])];
    rewrite E; simpl.
  - repeat split; try discriminate; try reflexivity. intros _ [].
  - repeat split; try discriminate; try reflexivity.
    + intros H. exfalso. apply H. exact I.
    + intros Hu _. now apply delete_one_length.
  - repeat split; try discriminate; try reflexivity.
    + intros H. exfalso. apply H. exact I.
    + intros Hu _. now apply delete_one_length.
  - repeat split; try discriminate; try reflexivity. intros _ [].
Qed.

Lemma call_next_effect_witness :
  List.length (queues Demo.line)
  = S (List.length (queues (snd (call_next Demo.line 100)))).
Proof.
  apply (proj2 (proj2 (proj2 (proj2 (proj2 (call_next_effect Demo.line 100)))))
           demo_line_ids I).
Defined.

(** ** Emptying a queue by calling *)

Lemma provider_rows_after_delete (db : DB) (pid : Z) (row : queue_row) :
  queue_ids_unique db -> In row (queues db) -> q_provider row = pid ->
  List.length (provider_rows db pid)
  = S (List.length (provider_rows (delete_queue_row db (q_id row)) pid)).
Proof.
  intros Hu Hr Hp. unfold provider_rows, delete_queue_row; simpl.
  rewrite filter_filter.
  rewrite (filter_ext_bool _
             (fun x => negb (q_id x =? q_id row) && (q_provider x =? pid))
             (fun x => (q_provider x =? pid) && negb (q_id x =? q_id row)))
    by (intros x; apply andb_comm).
  rewrite <- filter_filter.
  apply delete_one_length.
  - now apply NoDup_map_filter.
  - apply filter_In. split; [assumption|now apply Z.eqb_eq].
Qed.

Lemma call_next_n_drains (n : nat) :
  forall (db : DB) (owner pid : Z) (name ref : string),
    queue_ids_unique db ->
    get_provider_by_owner db owner = Some (pid, name, ref) ->
    List.length (provider_rows db pid) = n ->
    List.length (fst (call_next_n n db owner)) = n /\
    Forall is_dispatch (fst (call_next_n n db owner)) /\
    provider_rows (snd (call_next_n n db owner)) pid = [] /\
    call_next (snd (call_next_n n db owner)) owner
    = (CN_Empty, snd (call_next_n n db owner)).
Proof.
  induction n as [|n IH]; intros db owner pid name ref Hu Hp Hlen.
  - simpl. split; [reflexivity|]. split; [constructor|].
    assert (Hnil : provider_rows db pid = [])
      by (destruct (provider_rows db pid); [reflexivity|discriminate]).
    split; [exact Hnil|].
    unfold call_next. rewrite Hp.
    assert (Hw : walkins db pid = []).
    { apply filter_none. intros q Hq. apply andb_false_iff. left.
      apply Z.eqb_neq. intros E.
      assert (Hin : In q (provider_rows db pid))
        by (apply provider_rows_In; auto).
      rewrite Hnil in Hin. contradiction. }
    rewrite (pop_walkin_none db pid Hw).
    now rewrite (pop_any_none db pid Hnil).
  - assert (Hstep : exists r row,
              In row (queues db) /\ q_provider row = pid /\ is_dispatch r /\
              call_next db owner = (r, delete_queue_row db (q_id row))).
    { destruct (call_next_cases db owner)
        as [(E & _)|(pid' & n' & r' & E & H)]; [congruence|].
      rewrite Hp in E. inversion E; subst pid' n' r'; clear E.
      destruct H as [(row & Hr & Hrp & _ & E)|[(row & Hr & Hrp & E)|(Hnil & _)]].
      - eexists _, row. repeat split; eauto. exact I.
      - eexists _, row. repeat split; eauto. exact I.
      - rewrite Hnil in Hlen. discriminate. }
    destruct Hstep as (r & row & Hr & Hrp & Hd & E).
    simpl. rewrite E.
    set (db1 := delete_queue_row db (q_id row)).
    assert (Hlen1 : List.length (provider_rows db1 pid) = n).
    { pose proof (provider_rows_after_delete db pid row Hu Hr Hrp) as H.
      fold db1 in H. lia. }
    destruct (IH db1 owner pid name ref
                (delete_queue_row_ids db (q_id row) Hu) Hp Hlen1)
      as (H1 & H2 & H3 & H4).
    destruct (call_next_n n db1 owner) as [rs db2]. simpl in *.
    split; [now rewrite H1|]. split; [now constructor|]. now split.
Qed.

(** X9. Calling the next client as many times as the caller's provider
    has queue entries dispatches a client every time and leaves that
    provider with no entry; the next call answers that the queue is
    empty. *)
Theorem call_next_drains :
  forall (db : DB) (owner pid : Z) (name ref : string),
    queue_ids_unique db ->
    get_provider_by_owner db owner = Some (pid, name, ref) ->
    List.length
      (fst (call_next_n (List.length (provider_rows db pid)) db owner))
    = List.length (provider_rows db pid) /\
    Forall is_dispatch
      (fst (call_next_n (List.length (provider_rows db pid)) db owner)) /\
    provider_rows
      (snd (call_next_n (List.length (provider_rows db pid)) db owner)) pid
    = [] /\
    call_next
      (snd (call_next_n (List.length (provider_rows db pid)) db owner)) owner
    = (CN_Empty,
       snd (call_next_n (List.length (provider_rows db pid)) db owner)).
Proof.
  intros db owner pid name ref Hu Hp.
  now apply (call_next_n_drains _ db owner pid name ref).
Qed.

(** The four entries of the sample store are called in four calls. *)
Lemma call_next_drains_witness :
  provider_rows
    (snd (call_next_n (List.length (provider_rows Demo.line 1)) Demo.line 100)) 1
  = [].
Proof.
  assert (H : get_provider_by_owner Demo.line 100
               = Some (1, "Salon", "abcd1234")) by (vm_compute; reflexivity).
  exact (proj1 (proj2 (proj2
           (call_next_drains Demo.line 100 1 "Salon" "abcd1234"
              demo_line_ids H)))).
Defined.

(** ** Busy blocks *)

Lemma available_minus (db db' : DB) (p : Z) (d t : string) :
  (forall x, In x (get_booked_slots db' p d) <->
             In x (get_booked_slots db p d) \/ x = t) ->
  available_slots db' p d
  = filter (fun x => negb (x =? t)%string) (available_slots db p d).
Proof.
  intros H. unfold available_slots. cbv zeta. rewrite filter_filter.
  apply filter_ext_bool. intros x.
  assert (E : mem x (get_booked_slots db' p d)
              = mem x (get_booked_slots db p d) || (x =? t)%string).
  { apply eq_true_iff_eq. rewrite orb_true_iff.
    rewrite (mem_In x (get_booked_slots db' p d)),
      (mem_In x (get_booked_slots db p d)), String.eqb_eq.
    apply H. }
  rewrite E. apply negb_orb.
Qed.

Lemma owner_has_provider (db : DB) (owner pid : Z) (name ref : string) :
  get_provider_by_owner db owner = Some (pid, name, ref) ->
  exists p, In p (providers db) /\ p_owner p = owner /\ p_id p = pid /\
            p_name p = name /\ p_ref p = ref.
Proof.
  unfold get_provider_by_owner. intros H.
  destruct (find (fun p => p_owner p =? owner) (providers db)) as [p|] eqn:E;
    [|discriminate].
  simpl in H. inversion H; subst; clear H.
  apply find_some in E. destruct E as [Hin Ho]. apply Z.eqb_eq in Ho.
  exists p. auto.
Qed.

Lemma owner_provider_exists (db : DB) (owner pid : Z) (name ref : string) :
  get_provider_by_owner db owner = Some (pid, name, ref) ->
  provider_exists db pid = true.
Proof.
  intros H. apply owner_has_provider in H.
  destruct H as (p & Hin & _ & Hid & _).
  apply provider_exists_iff. rewrite <- Hid. now apply in_map.
Qed.

(** X10. [add_busy_time] raises exactly when the provider does not
    exist.  Otherwise it returns a rowid not in use, the block appears in
    the provider's list of busy times, its time joins the booked slots of
    that provider and date, so that the slot is no longer offered, the
    queue is untouched, and [remove_busy_time] on the rowid returned
    gives back the former busy blocks. *)
Theorem add_busy_time_blocks :
  forall (db : DB) (pid : Z) (d t : string),
    (add_busy_time db pid d t = IntegrityError <->
     provider_exists db pid = false) /\
    (forall id db',
       add_busy_time db pid d t = Ok (id, db') ->
       ~ In id (map b_id (busy_times db)) /\
       In (id, d, t) (get_busy_times db' pid) /\
       (forall x, In x (get_booked_slots db' pid d) <->
                  In x (get_booked_slots db pid d) \/ x = t) /\
       available_slots db' pid d
       = filter (fun x => negb (x =? t)%string) (available_slots db pid d) /\
       queues db' = queues db /\
       busy_times (remove_busy_time db' id) = busy_times db).
Proof.
  intros db pid d t. unfold add_busy_time.
  destruct (provider_exists db pid) eqn:Ep.
  2:{ split; [tauto|discriminate]. }
  split; [split; discriminate|].
  intros id db' H. inversion H; subst; clear H.
  set (id := next_rowid (seq_busy db) (map b_id (busy_times db))).
  set (b := {| b_id := id; b_provider := pid; b_date := d; b_time := t |}).
  assert (Hfresh : ~ In id (map b_id (busy_times db)))
    by apply next_rowid_fresh.
  assert (Hbooked : forall x,
    In x (get_booked_slots (set_busy db (busy_times db ++ [b]) id) pid d) <->
    In x (get_booked_slots db pid d) \/ x = t).
  { intros x.
    rewrite (get_booked_slots_In (set_busy db (busy_times db ++ [b]) id) pid d x),
      (get_booked_slots_In db pid d x).
    unfold set_busy; cbn [queues busy_times]. split.
    - intros [H|(b0 & Hin & H1 & H2 & H3)]; [tauto|].
      apply in_app_or in Hin. destruct Hin as [Hin|[<-|[]]].
      + left. right. eauto.
      + right. now subst x.
    - intros [[H|(b0 & Hin & H)]| ->].
      + now left.
      + right. exists b0. split; [apply in_or_app; now left|exact H].
      + right. exists b. split; [apply in_or_app; right; now left|].
        simpl. auto. }
  split; [exact Hfresh|]. split; [|split; [exact Hbooked|split; [|split]]].
  - unfold get_busy_times.
    apply (in_map (fun b => (b_id b, b_date b, b_time b)) _ b).
    apply SqlFacts.order_by_In. simpl. rewrite filter_snoc; simpl.
    rewrite Z.eqb_refl. apply in_or_app. right. now left.
  - now apply available_minus.
  - reflexivity.
  - simpl. rewrite filter_snoc; simpl. rewrite Z.eqb_refl; simpl.
    rewrite app_nil_r. apply filter_keeps_all.
    intros x Hx. apply negb_true_iff, Z.eqb_neq. intros E.
    apply Hfresh. rewrite <- E. now apply in_map.
Qed.

(** The owner of the salon blocks 12:00. *)
Lemma add_busy_time_blocks_witness :
  available_slots
    (run Demo.salon [OpAddBusy 1 "2025-08-25" "12:00"]) 1 "2025-08-25"
  = filter (fun x => negb (x =? "12:00")%string)
      (available_slots Demo.salon 1 "2025-08-25").
Proof.
  apply (proj2 (add_busy_time_blocks Demo.salon 1 "2025-08-25" "12:00") 1
           (run Demo.salon [OpAddBusy 1 "2025-08-25" "12:00"])).
  vm_compute. reflexivity.
Defined.

Lemma date_time_le_text (d1 t1 d2 t2 : string) :
  Sql.leb_of (Sql.lex String.compare String.compare) (d1, t1) (d2, t2) = true ->
  not_later d1 t1 d2 t2.
Proof.
  unfold Sql.leb_of, Sql.lex, not_later; simpl.
  destruct (String.compare d1 d2) eqn:E; try discriminate.
  - apply String.compare_eq_iff in E; subst. intros H. right.
    split; [reflexivity|]. destruct (String.compare t1 t2); congruence.
  - now left.
Qed.

(** X11. [get_busy_times] lists exactly the busy blocks of the
    provider, each with its rowid, in ascending (date, time). *)
Theorem busy_times_listing :
  forall (db : DB) (pid : Z),
    Permutation (get_busy_times db pid)
      (map (fun b => (b_id b, b_date b, b_time b))
         (filter (fun b => b_provider b =? pid) (busy_times db))) /\
    (forall (i j : nat) (id1 id2 : Z) (d1 t1 d2 t2 : string),
       (i < j)%nat ->
       nth_error (get_busy_times db pid) i = Some (id1, d1, t1) ->
       nth_error (get_busy_times db pid) j = Some (id2, d2, t2) ->
       not_later d1 t1 d2 t2).
Proof.
  intros db pid. unfold get_busy_times. split.
  - apply Permutation_map, SqlFacts.order_by_perm.
  - intros i j id1 id2 d1 t1 d2 t2 Hij Hi Hj.
    rewrite nth_error_map in Hi, Hj.
    destruct (nth_error _ i) as [b1|] eqn:E1; [|discriminate].
    destruct (nth_error _ j) as [b2|] eqn:E2; [|discriminate].
    simpl in Hi, Hj. inversion Hi; inversion Hj; subst; clear Hi Hj.
    apply date_time_le_text.
    assert (Hg : Sql.good_cmp (Sql.lex String.compare String.compare))
      by (apply SqlFacts.good_lex; apply SqlFacts.good_string).
    pose proof (SqlFacts.order_by_sorted
                  (fun b : busy_row => (b_date b, b_time b)) Hg
                  (filter (fun b => b_provider b =? pid) (busy_times db)))
      as Hs.
    exact (SqlFacts.sorted_nth Hs Hij E1 E2).
Qed.

(** Two blocks entered out of order are listed in order. *)
Example get_busy_times_demo :
  get_busy_times
    (run Demo.salon [OpAddBusy 1 "2025-08-26" "10:00";
                     OpAddBusy 1 "2025-08-25" "12:00"]) 1
  = [(2, "2025-08-25", "12:00"); (1, "2025-08-26", "10:00")].
Proof. vm_compute. reflexivity. Qed.

Lemma provider_by_id (db : DB) (p : provider_row) :
  NoDup (map p_id (providers db)) -> In p (providers db) ->
  get_provider_owner db (p_id p) = Some (p_owner p).
Proof.
  intros Hn Hp. unfold get_provider_owner.
  destruct (find (fun x => p_id x =? p_id p) (providers db)) as [x|] eqn:E.
  - apply find_some in E. destruct E as [Hx Ex]. apply Z.eqb_eq in Ex.
    assert (x = p) by (eapply NoDup_map_eq; eauto). now subst.
  - apply (find_none _ _ E) in Hp. rewrite Z.eqb_refl in Hp. discriminate.
Qed.

(** X12. The buttons [admin_list_busy] shows to a provider's owner
    carry that provider's id and the rowids of its own blocks; pressing
    one makes [admin_delete_busy] delete that block and no other.  A
    caller who does not own the provider named in the payload is turned
    away and nothing is written. *)
Theorem delete_listed_block :
  (forall db caller busy_id pid,
     get_provider_owner db pid <> Some caller ->
     admin_delete_busy db caller busy_id pid = (DB_NoPermission, db)) /\
  (forall db owner pid name ref buttons bid d t p',
     keys_ok db ->
     get_provider_by_owner db owner = Some (pid, name, ref) ->
     admin_list_busy db owner = LB_Blocks buttons ->
     In (bid, d, t, p') buttons ->
     p' = pid /\
     exists b,
       In b (busy_times db) /\ b_id b = bid /\ b_provider b = pid /\
       b_date b = d /\ b_time b = t /\
       admin_delete_busy db owner bid p'
       = (DB_Deleted, remove_busy_time db bid) /\
       (forall b', In b' (busy_times (remove_busy_time db bid)) <->
                   In b' (busy_times db) /\ b' <> b)).
Proof.
  split.
  - intros db caller busy_id pid H. unfold admin_delete_busy.
    destruct (get_provider_owner db pid) as [o|]; [|reflexivity].
    destruct (Z.eqb_spec o caller); [congruence|reflexivity].
  - intros db owner pid name ref buttons bid d t p' Hk Hp Hl Hin.
    unfold admin_list_busy in Hl. rewrite Hp in Hl.
    assert (Hb : In (bid, d, t, p')
                   (map (fun '(busy_id, d, t) => (busy_id, d, t, pid))
                      (get_busy_times db pid))).
    { destruct (get_busy_times db pid); [discriminate|].
      inversion Hl; subst. exact Hin. }
    clear Hl Hin. apply in_map_iff in Hb.
    destruct Hb as ([[bid0 d0] t0] & E & Hb). inversion E; subst; clear E.
    unfold get_busy_times in Hb. apply in_map_iff in Hb.
    destruct Hb as (b & E & Hb). inversion E; subst; clear E.
    apply SqlFacts.order_by_In, filter_In in Hb. destruct Hb as [Hb Hbp].
    apply Z.eqb_eq in Hbp.
    split; [reflexivity|]. exists b. do 5 (split; [auto|]).
    destruct (owner_has_provider db owner _ name ref Hp)
      as (p & Hpin & Ho & Hid & _).
    destruct Hk as (K1 & _ & _ & _ & _ & K6).
    pose proof (provider_by_id db p K1 Hpin) as Hown.
    rewrite Hid, Ho in Hown. split.
    + unfold admin_delete_busy. rewrite <- Hbp at 1.
      rewrite Hbp, Hown, Z.eqb_refl. reflexivity.
    + intros b'. rewrite remove_busy_time_In. split; intros [H1 H2].
      * split; [assumption|]. congruence.
      * split; [assumption|]. intros E. apply H2.
        eapply NoDup_map_eq; eauto.
Qed.

Lemma demo_blocked_keys : keys_ok Demo.blocked.
Proof.
  apply (run_fk_keys
           [OpCreateProvider 100 "Salon" "abcd1234"; OpAddService 1 "Haircut";
            OpCreateProvider 200 "Barber" "ffff0000";
            OpAddBusy 1 "2025-08-25" "12:00"; OpAddBusy 2 "2025-08-25" "13:00"]
           empty_db empty_fk_keys).
Defined.

(** The owner of provider 2 presses the button of its own block. *)
Lemma delete_listed_block_witness :
  2 = 2 /\
  exists b,
    In b (busy_times Demo.blocked) /\ b_id b = 2 /\ b_provider b = 2 /\
    b_date b = "2025-08-25" /\ b_time b = "13:00" /\
    admin_delete_busy Demo.blocked 200 2 2
    = (DB_Deleted, remove_busy_time Demo.blocked 2) /\
    (forall b', In b' (busy_times (remove_busy_time Demo.blocked 2)) <->
                In b' (busy_times Demo.blocked) /\ b' <> b).
Proof.
  assert (H1 : get_provider_by_owner Demo.blocked 200
               = Some (2, "Barber", "ffff0000")) by (vm_compute; reflexivity).
  assert (H2 : admin_list_busy Demo.blocked 200
               = LB_Blocks [(2, "2025-08-25", "13:00", 2)])
    by (vm_compute; reflexivity).
  exact (proj2 delete_listed_block Demo.blocked 200 2 "Barber" "ffff0000"
           [(2, "2025-08-25", "13:00", 2)] 2 "2025-08-25" "13:00" 2
           demo_blocked_keys H1 H2 (or_introl eq_refl)).
Defined.

(** ** Entering a busy time *)

Lemma range_In (a b x : Z) : a <= x < b -> In x (range a b).
Proof.
  intros H. unfold range. apply in_map_iff.
  exists (Z.to_nat (x - a)). split; [lia|].
  apply in_seq. lia.
Qed.

(** Over all hours and minutes [admin_busy_time] accepts: the text it
    stores is the two digits of the hour, a colon and the two digits of
    the minute, and it is a slot of the grid exactly for the half-hour
    marks from 09:00 to 17:00. *)
Lemma time_str_table :
  forallb
    (fun h =>
       forallb
         (fun m =>
            (time_str h m =? two_digits h ++ ":" ++ two_digits m)%string
            && Bool.eqb (mem (time_str h m) slots)
                 ((9 <=? h) && (h <=? 17)
                  && ((m =? 0) || ((m =? 30) && (h <? 17)))))
         (range 0 60))
    (range 0 24)
  = true.
Proof. vm_compute. reflexivity. Qed.

Lemma time_str_grid (h m : Z) :
  0 <= h < 24 -> 0 <= m < 60 ->
  time_str h m = two_digits h ++ ":" ++ two_digits m /\
  (In (time_str h m) slots <->
   9 <= h <= 17 /\ (m = 0 \/ (m = 30 /\ h < 17))).
Proof.
  intros Hh Hm. pose proof time_str_table as T.
  rewrite forallb_forall in T. specialize (T h (range_In 0 24 h Hh)).
  rewrite forallb_forall in T. specialize (T m (range_In 0 60 m Hm)).
  apply andb_true_iff in T. destruct T as [T1 T2].
  apply String.eqb_eq in T1. apply Bool.eqb_prop in T2.
  split; [exact T1|]. rewrite <- mem_In, T2.
  rewrite !andb_true_iff, orb_true_iff, andb_true_iff.
  rewrite !Z.leb_le, !Z.eqb_eq, Z.ltb_lt. tauto.
Qed.

(** A block added for [pid] and [d] is seen by [get_booked_slots] of
    that provider and that date text only. *)
Lemma busy_block_elsewhere (db : DB) (b : busy_row) (seq p' : Z) (d' : string) :
  b_provider b <> p' \/ b_date b <> d' ->
  get_booked_slots (set_busy db (busy_times db ++ [b]) seq) p' d'
  = get_booked_slots db p' d'.
Proof.
  intros Hne. unfold get_booked_slots. cbn [set_busy queues busy_times].
  rewrite filter_snoc.
  assert (E : (b_provider b =? p') && (b_date b =? d')%string = false).
  { apply andb_false_iff. destruct Hne as [H|H].
    - left. now apply Z.eqb_neq.
    - right. now apply String.eqb_neq. }
  rewrite E. now rewrite app_nil_r.
Qed.

(** X13. [admin_busy_time] turns away a text that is not two integers
    and hours or minutes out of range, writing nothing.  For a registered
    caller and a time in range it appends one block to [busy_times]: the
    caller's provider, the date text kept by the conversation and the
    time as [HH:MM] (two digits, a colon, two digits); the other tables
    stay as they were.  That time is then booked and no longer available
    for that provider on that date text, and only there: the slots of
    every other provider and of every other date text are what they
    were.  The text stored is one of the slots offered to clients exactly
    when the time is a half-hour mark from 09:00 to 17:00, so a block at
    any other time takes no slot away. *)
Theorem busy_time_entry :
  forall (db : DB) (st : fsm) (chat u : Z) (d : string),
    admin_busy_time db st chat u d None = (BT_BadFormat, db, st) /\
    (forall h m,
       ~ (0 <= h < 24 /\ 0 <= m < 60) ->
       admin_busy_time db st chat u d (Some (h, m)) = (BT_BadFormat, db, st)) /\
    (forall h m,
       0 <= h < 24 -> 0 <= m < 60 ->
       time_str h m = two_digits h ++ ":" ++ two_digits m /\
       String.length (time_str h m) = 5%nat /\
       (In (time_str h m) slots <->
        9 <= h <= 17 /\ (m = 0 \/ (m = 30 /\ h < 17))) /\
       (get_provider_by_owner db u = None ->
        admin_busy_time db st chat u d (Some (h, m))
        = (BT_NotRegistered, db, clear_state st (chat, u))) /\
       (forall pid name ref,
          get_provider_by_owner db u = Some (pid, name, ref) ->
          exists db',
            admin_busy_time db st chat u d (Some (h, m))
            = (BT_Blocked d (time_str h m), db', clear_state st (chat, u)) /\
            busy_times db'
            = (busy_times db ++
               [{| b_id := next_rowid (seq_busy db) (map b_id (busy_times db));
                   b_provider := pid; b_date := d;
                   b_time := time_str h m |}])%list /\
            providers db' = providers db /\
            services db' = services db /\
            queues db' = queues db /\
            In (time_str h m) (get_booked_slots db' pid d) /\
            ~ In (time_str h m) (available_slots db' pid d) /\
            available_slots db' pid d
            = filter (fun x => negb (x =? time_str h m)%string)
                (available_slots db pid d) /\
            (~ In (time_str h m) slots ->
             available_slots db' pid d = available_slots db pid d) /\
            (forall p' d',
               p' <> pid \/ d' <> d ->
               get_booked_slots db' p' d' = get_booked_slots db p' d' /\
               available_slots db' p' d' = available_slots db p' d'))).
Proof.
  intros db st chat u d. split; [reflexivity|]. split.
  - intros h m Hr. unfold admin_busy_time.
    destruct ((0 <=? h) && (h <? 24) && (0 <=? m) && (m <? 60)) eqn:E;
      [|reflexivity].
    exfalso. apply Hr.
    rewrite !andb_true_iff, !Z.leb_le, !Z.ltb_lt in E. lia.
  - intros h m Hh Hm.
    destruct (time_str_grid h m Hh Hm) as [HT HG].
    split; [exact HT|]. split; [rewrite HT; reflexivity|].
    split; [exact HG|].
    assert (E : (0 <=? h) && (h <? 24) && (0 <=? m) && (m <? 60) = true).
    { rewrite !andb_true_iff, !Z.leb_le, !Z.ltb_lt. lia. }
    unfold admin_busy_time. rewrite E. split.
    + intros Hn. now rewrite Hn.
    + intros pid name ref Hp. rewrite Hp.
      pose proof (owner_provider_exists db u pid name ref Hp) as Hex.
      unfold add_busy_time. rewrite Hex.
      set (row := {| b_id := next_rowid (seq_busy db) (map b_id (busy_times db));
                     b_provider := pid; b_date := d; b_time := time_str h m |}).
      set (db' := set_busy db (busy_times db ++ [row]) (b_id row)).
      exists db'. split; [reflexivity|].
      split; [reflexivity|]. do 3 (split; [reflexivity|]).
      assert (Hb : forall x,
                In x (get_booked_slots db' pid d) <->
                In x (get_booked_slots db pid d) \/ x = time_str h m).
      { intros x. rewrite (get_booked_slots_In db' pid d x),
          (get_booked_slots_In db pid d x).
        unfold db'. cbn [set_busy busy_times queues]. split.
        - intros [H|(b0 & Hin & H1 & H2 & H3)]; [tauto|].
          apply in_app_or in Hin. destruct Hin as [Hin|[<-|[]]].
          + left. right. eauto.
          + right. now subst x.
        - intros [[H|(b0 & Hin & H)]| ->].
          + now left.
          + right. exists b0. split; [apply in_or_app; now left|exact H].
          + right. exists row. split; [apply in_or_app; right; now left|].
            simpl. auto. }
      pose proof (available_minus db db' pid d (time_str h m) Hb) as Ha.
      split; [apply Hb; now right|]. split; [|split; [exact Ha|split]].
      * rewrite Ha. intros Hin. apply filter_In in Hin.
        destruct Hin as [_ Hin]. rewrite String.eqb_refl in Hin. discriminate.
      * intros Hns. rewrite Ha. apply filter_keeps_all.
        intros x Hx. apply negb_true_iff, String.eqb_neq. intros ->.
        apply Hns. apply available_slots_In in Hx. tauto.
      * intros p' d' Hne.
        assert (Eb : get_booked_slots db' p' d' = get_booked_slots db p' d').
        { unfold db'. apply busy_block_elsewhere. simpl.
          destruct Hne as [H|H]; [left|right]; congruence. }
        split; [exact Eb|]. unfold available_slots. cbv zeta. now rewrite Eb.
Qed.

(** The owner of the salon typed the date as 2025-8-25 and blocks 10:00:
    the block is stored under that text, and 10:00 is still offered to
    the clients, whose date buttons say 2025-08-25. *)
Lemma busy_time_entry_witness :
  exists db',
    admin_busy_time Demo.salon [] 100 100 "2025-8-25" (Some (10, 0))
    = (BT_Blocked "2025-8-25" "10:00", db', []) /\
    busy_times db'
    = [{| b_id := 1; b_provider := 1; b_date := "2025-8-25";
          b_time := "10:00" |}] /\
    In "10:00" (get_booked_slots db' 1 "2025-8-25") /\
    available_slots db' 1 "2025-08-25"
    = available_slots Demo.salon 1 "2025-08-25".
Proof.
  assert (Hp : get_provider_by_owner Demo.salon 100
               = Some (1, "Salon", "abcd1234")) by (vm_compute; reflexivity).
  destruct (proj2 (proj2 (proj2 (proj2
              (proj2 (proj2 (busy_time_entry Demo.salon [] 100 100 "2025-8-25"))
                 10 0 ltac:(lia) ltac:(lia)))))
              1 "Salon" "abcd1234" Hp)
    as (db' & H1 & H2 & _ & _ & _ & H6 & _ & _ & _ & H10).
  exists db'. split; [exact H1|]. split; [exact H2|]. split; [exact H6|].
  apply (H10 1 "2025-08-25"). right. discriminate.
Defined.

Example admin_busy_time_demo :
  fst (fst (admin_busy_time Demo.salon [] 100 100 "2025-08-25" (Some (9, 5))))
  = BT_Blocked "2025-08-25" "09:05" /\
  fst (fst (admin_busy_time Demo.salon [] 100 100 "2025-08-25" (Some (24, 0))))
  = BT_BadFormat.
Proof. vm_compute. split; reflexivity. Qed.

(** ** Registration in private chats *)








(** [register_finish] is its two halves, one after the other. *)
Lemma register_finish_halves (db : DB) (st : fsm) (c u : Z)
    (text uuid : string) (ok : bool) :
  get_state st (c, u) = Some RegisterProvider_name ->
  register_finish_insert db u text uuid <> None ->
  reg_step (db, st) (SendText c u text uuid ok)
  = reg_step (reg_step (db, st) (TextArrives c u text uuid))
      (GetMeReturns c u ok).
Proof.
  intros Hst Hins. simpl. rewrite Hst.
  unfold register_finish, register_finish_insert, register_finish_resume in *.
  cbv zeta in *.
  destruct (strip text =? "")%string; [congruence|].
  destruct (create_provider db u (strip text) uuid) as [[r db']|];
    [|congruence].
  now destruct ok.
Qed.






(** Taken up one after the other, the second text of the race finds the
    state cleared and registers nothing. *)
Example registration_in_turn :
  providers_of
    (fst (reg_run (empty_db, [])
            [PressRegister 100 100;
             TextArrives 100 100 "Salon" "aaaaaaaa";
             GetMeReturns 100 100 true;
             TextArrives 100 100 "Salon 2" "bbbbbbbb"])) 100
  = [{| p_id := 1; p_owner := 100; p_name := "Salon"; p_ref := "aaaaaaaa" |}].
Proof. reflexivity. Qed.

(** ** From the service button to the booking *)

Lemma service_found (db : DB) (svc_id : Z) (s : service_row) :
  find (fun s => s_id s =? svc_id) (services db) = Some s ->
  In s (services db) /\ s_id s = svc_id /\
  service_exists db svc_id = true /\
  service_label db svc_id = s_name s.
Proof.
  intros E. pose proof (find_some _ _ E) as [Hin Hid].
  apply Z.eqb_eq in Hid. repeat split; try assumption.
  - apply service_exists_iff. rewrite <- Hid. now apply in_map.
  - unfold service_label, service_name_of. now rewrite E.
Qed.

(** X15. A client who follows the buttons books what the buttons say.
    [client_pick_service] finds the service and builds one date button
    per date, in order, each carrying the provider that owns the service.
    For such a button [client_pick_date] answers "no slots" exactly when
    no slot is available and otherwise builds one slot button per
    available slot, all of them and in grid order, each carrying that
    provider, service and date.  Pressing a slot button makes
    [client_book_slot] append one scheduled entry for that provider,
    service, date and time on behalf of the presser, notify the owner of
    that provider and touch no other table; afterwards that slot is no
    longer offered. *)
Theorem booking_flow :
  forall (db : DB) (svc_id : Z) (dates : list string) (name : string)
         (buttons : list (Z * Z * string)),
    fk_ok db ->
    client_pick_service db svc_id dates = Some (name, buttons) ->
    exists s,
      In s (services db) /\ s_id s = svc_id /\ s_name s = name /\
      buttons = map (fun d => (s_provider s, svc_id, d)) dates /\
      forall pid sid d,
        In (pid, sid, d) buttons ->
        pid = s_provider s /\ sid = svc_id /\ In d dates /\
        (client_pick_date db pid sid d = PD_NoSlots <->
         available_slots db pid d = []) /\
        (available_slots db pid d <> [] ->
         client_pick_date db pid sid d
         = PD_Slots (map (fun t => (pid, svc_id, d, t))
                       (available_slots db pid d))) /\
        (forall btns p2 s2 d2 t u,
           d <> "" ->
           client_pick_date db pid sid d = PD_Slots btns ->
           In (p2, s2, d2, t) btns ->
           p2 = pid /\ s2 = svc_id /\ d2 = d /\
           In t (available_slots db pid d) /\
           exists db',
             client_book_slot db u p2 s2 d2 t
             = (BK_Booked (get_provider_owner db pid) name, db') /\
             queues db'
             = (queues db ++
                [{| q_id := next_rowid (seq_queues db) (map q_id (queues db));
                    q_provider := pid; q_user := u; q_service := svc_id;
                    q_position := 0; q_date := Some d;
                    q_time := Some t |}])%list /\
             providers db' = providers db /\
             services db' = services db /\
             busy_times db' = busy_times db /\
             ~ In t (available_slots db' pid d) /\
             (forall x, x <> t ->
                (In x (available_slots db' pid d) <->
                 In x (available_slots db pid d)))).
Proof.
  intros db svc_id dates name buttons Hfk Hps.
  unfold client_pick_service in Hps.
  destruct (find (fun s => s_id s =? svc_id) (services db)) as [s|] eqn:Ef;
    [|discriminate].
  inversion Hps; subst; clear Hps.
  destruct (service_found db svc_id s Ef) as (Hs & Hid & Hex & Hlab).
  assert (Hpex : provider_exists db (s_provider s) = true).
  { destruct Hfk as (H1 & _). now apply H1. }
  exists s. do 4 (split; [first [assumption | reflexivity]|]).
  intros pid sid d Hin.
  apply in_map_iff in Hin. destruct Hin as (d0 & E & Hd).
  injection E as E1 E2 E3. subst pid sid d0.
  do 2 (split; [reflexivity|]). split; [assumption|].
  split.
  { unfold client_pick_date.
    destruct (available_slots db (s_provider s) d); split;
      intros H; first [reflexivity | discriminate]. }
  split.
  { unfold client_pick_date.
    destruct (available_slots db (s_provider s) d); [congruence|reflexivity]. }
  intros btns p2 s2 d2 t u Hne Hpd Hb.
  unfold client_pick_date in Hpd.
  assert (Hb' : In (p2, s2, d2, t)
                  (map (fun t => (s_provider s, svc_id, d, t))
                     (available_slots db (s_provider s) d))).
  { destruct (available_slots db (s_provider s) d); [discriminate|].
    inversion Hpd; subst. exact Hb. }
  clear Hpd Hb. apply in_map_iff in Hb'. destruct Hb' as (t0 & E & Ht).
  injection E as E1 E2 E3 E4. subst p2 s2 d2 t0.
  do 3 (split; [reflexivity|]). split; [assumption|].
  pose proof Ht as Ht'. apply available_slots_In in Ht'.
  destruct Ht' as [Hslot Hfree].
  pose proof (slots_nonempty t Hslot) as Htne.
  assert (Hm : mem t (get_booked_slots db (s_provider s) d) = false).
  { apply not_true_iff_false. intros H. now apply mem_In in H. }
  assert (Ed : (d =? "")%string = false) by now apply String.eqb_neq.
  assert (Et : (t =? "")%string = false) by now apply String.eqb_neq.
  set (row := {| q_id := next_rowid (seq_queues db) (map q_id (queues db));
                 q_provider := s_provider s; q_user := u; q_service := svc_id;
                 q_position := 0; q_date := Some d; q_time := Some t |}).
  set (db' := set_queues db (queues db ++ [row]) (q_id row)).
  assert (Hbook : client_book_slot db u (s_provider s) svc_id d t
                  = (BK_Booked (get_provider_owner db (s_provider s)) (s_name s),
                     db')).
  { unfold client_book_slot. cbv zeta. rewrite Hm.
    unfold add_to_queue, truthy. rewrite Ed, Et. simpl negb. cbn [andb].
    unfold insert_queue. rewrite Hpex, Hex. cbn [andb].
    fold row. fold db'. rewrite <- Hlab. reflexivity. }
  exists db'. split; [exact Hbook|]. split; [reflexivity|].
  do 3 (split; [reflexivity|]).
  pose proof (book_then_available db db' u (s_provider s) svc_id d t _ _
                Hne Ht Hbook) as Ha.
  split.
  - rewrite Ha. intros Hin. apply filter_In in Hin.
    destruct Hin as [_ Hin]. rewrite String.eqb_refl in Hin. discriminate.
  - intros x Hx. rewrite Ha, filter_In. split; [tauto|].
    intros H. split; [exact H|]. now apply negb_true_iff, String.eqb_neq.
Qed.

Lemma demo_salon_fk : fk_ok Demo.salon.
Proof.
  apply (run_fk_keys
           [OpCreateProvider 100 "Salon" "abcd1234"; OpAddService 1 "Haircut"]
           empty_db empty_fk_keys).
Defined.

(** Client 5 opens the haircut at the salon, picks 2025-08-25 and then
    the 10:00 button: the booking is stored and the owner is told. *)
Lemma booking_flow_witness :
  client_pick_date Demo.salon 1 1 "2025-08-25"
  = PD_Slots (map (fun t => (1, 1, "2025-08-25", t)) slots) /\
  exists db',
    client_book_slot Demo.salon 5 1 1 "2025-08-25" "10:00"
    = (BK_Booked (Some 100) "Haircut", db') /\
    queues db'
    = [{| q_id := 1; q_provider := 1; q_user := 5; q_service := 1;
          q_position := 0; q_date := Some "2025-08-25";
          q_time := Some "10:00" |}] /\
    ~ In "10:00" (available_slots db' 1 "2025-08-25").
Proof.
  assert (H : client_pick_service Demo.salon 1 ["2025-08-25"; "2025-08-26"]
              = Some ("Haircut", [(1, 1, "2025-08-25"); (1, 1, "2025-08-26")]))
    by (vm_compute; reflexivity).
  assert (Hav : available_slots Demo.salon 1 "2025-08-25" = slots)
    by (vm_compute; reflexivity).
  destruct (booking_flow Demo.salon 1 ["2025-08-25"; "2025-08-26"] "Haircut"
              [(1, 1, "2025-08-25"); (1, 1, "2025-08-26")] demo_salon_fk H)
    as (s & _ & _ & _ & _ & R).
  destruct (R 1 1 "2025-08-25" (or_introl eq_refl))
    as (_ & _ & _ & _ & Rpick & Rbook).
  assert (Hne : available_slots Demo.salon 1 "2025-08-25" <> [])
    by (rewrite Hav; vm_compute; discriminate).
  pose proof (Rpick Hne) as Hpick. rewrite Hav in Hpick.
  split; [exact Hpick|].
  assert (Hbtn : In (1, 1, "2025-08-25", "10:00")
                   (map (fun t => (1, 1, "2025-08-25", t)) slots))
    by (vm_compute; tauto).
  destruct (Rbook _ 1 1 "2025-08-25" "10:00" 5 ltac:(discriminate) Hpick Hbtn)
    as (_ & _ & _ & _ & db' & B1 & B2 & _ & _ & _ & B6 & _).
  exists db'. split; [exact B1|]. split; [exact B2|exact B6].
Defined.

(** ** Leaving and coming back *)

Lemma find_is_first (A : Type) (f : A -> bool) (l : list A) :
  find f l = hd_error (filter f l).
Proof.
  induction l as [|a l IH]; simpl; [reflexivity|].
  destruct (f a); [reflexivity|exact IH].
Qed.

(** X16. An owner with one provider record who unregisters has none
    left, is "not registered" for [call_next], and may register again:
    [register_start] asks for a name. *)
Theorem unregister_then_register :
  forall (db : DB) (owner : Z) (p : provider_row) (st : fsm) (chat : Z),
    providers_of db owner = [p] ->
    unregister db owner = (true, delete_provider db (p_id p)) /\
    providers_of (delete_provider db (p_id p)) owner = [] /\
    get_provider_by_owner (delete_provider db (p_id p)) owner = None /\
    call_next (delete_provider db (p_id p)) owner
    = (CN_NotRegistered, delete_provider db (p_id p)) /\
    register_start (delete_provider db (p_id p)) st chat owner
    = (RG_AskName, set_state st (chat, owner) RegisterProvider_name).
Proof.
  intros db owner p st chat Hone.
  assert (Hfind : find (fun x => p_owner x =? owner) (providers db) = Some p).
  { rewrite find_is_first. unfold providers_of in Hone. now rewrite Hone. }
  assert (Hnone : providers_of (delete_provider db (p_id p)) owner = []).
  { unfold providers_of, delete_provider; simpl.
    rewrite filter_filter.
    rewrite (filter_ext_bool _
               (fun x => negb (p_id x =? p_id p) && (p_owner x =? owner))
               (fun x => (p_owner x =? owner) && negb (p_id x =? p_id p)))
      by (intros x; apply andb_comm).
    rewrite <- filter_filter. unfold providers_of in Hone. rewrite Hone.
    simpl. now rewrite Z.eqb_refl. }
  assert (Hlook : get_provider_by_owner (delete_provider db (p_id p)) owner
                  = None).
  { unfold get_provider_by_owner. rewrite find_is_first.
    unfold providers_of in Hnone. now rewrite Hnone. }
  split.
  { unfold unregister, get_provider_by_owner. now rewrite Hfind. }
  split; [exact Hnone|]. split; [exact Hlook|]. split.
  - unfold call_next. now rewrite Hlook.
  - unfold register_start. now rewrite Hlook.
Qed.

Lemma unregister_then_register_witness :
  get_provider_by_owner (delete_provider Demo.line 1) 100 = None.
Proof.
  assert (H : providers_of Demo.line 100
              = [{| p_id := 1; p_owner := 100; p_name := "Salon";
                    p_ref := "abcd1234" |}]) by (vm_compute; reflexivity).
  exact (proj1 (proj2 (proj2
           (unregister_then_register Demo.line 100 _ [] 100 H)))).
Defined.

(** ** Saving a service *)

(** X17. [add_service_save] adds a service only to the provider of the
    caller.  A caller without a provider and a blank name write nothing
    (the blank name also keeps the conversation open); a name the
    provider already has is answered as existing, with the store as it
    was; a new name becomes the last service of the caller's provider,
    leaves the services of other providers alone, and its button leads
    clients to that provider. *)
Theorem add_service_save_effect :
  forall (db : DB) (st : fsm) (chat u : Z) (text : string),
    (get_provider_by_owner db u = None ->
     add_service_save db st chat u text
     = (AS_NotRegistered, db, clear_state st (chat, u))) /\
    (forall pid name ref,
       get_provider_by_owner db u = Some (pid, name, ref) ->
       (strip text = "" ->
        add_service_save db st chat u text = (AS_EmptyName, db, st)) /\
       (strip text <> "" ->
        (add_service_save db st chat u text
         = (AS_Exists (strip text), db, clear_state st (chat, u)) /\
         exists s, In s (services db) /\ s_provider s = pid /\
                   s_name s = strip text) \/
        (exists db',
           add_service_save db st chat u text
           = (AS_Added (strip text), db', clear_state st (chat, u)) /\
           get_services db' pid
           = (get_services db pid ++
              [(next_rowid (seq_services db) (map s_id (services db)),
                strip text)])%list /\
           (forall p', p' <> pid -> get_services db' p' = get_services db p') /\
           (forall dates,
              client_pick_service db'
                (next_rowid (seq_services db) (map s_id (services db))) dates
              = Some (strip text,
                      map (fun d =>
                             (pid,
                              next_rowid (seq_services db)
                                (map s_id (services db)), d)) dates))))).
Proof.
  intros db st chat u text. unfold add_service_save. split.
  - intros H. now rewrite H.
  - intros pid name ref Hp. rewrite Hp. cbv zeta.
    destruct (String.eqb_spec (strip text) "") as [E|E].
    + split; [reflexivity|]. intros H. contradiction.
    + split; [intros H; contradiction|]. intros _.
      pose proof (owner_provider_exists db u pid name ref Hp) as Hex.
      destruct (add_service_cases db pid (strip text))
        as [(Ep & _)|[(_ & Ed & Ea)|(_ & Ed & Ea)]]; [congruence| |].
      * left. rewrite Ea. split; [reflexivity|]. now apply service_taken.
      * right. rewrite Ea. eexists. split; [reflexivity|].
        unfold get_services, client_pick_service; cbn [services].
        split; [|split].
        -- rewrite filter_snoc; simpl. now rewrite Z.eqb_refl, map_app.
        -- intros p' Hne. rewrite filter_snoc; simpl.
           destruct (Z.eqb_spec pid p'); [congruence|]. now rewrite app_nil_r.
        -- intros dates. rewrite find_snoc.
           assert (Hn : find (fun s => s_id s
                                =? next_rowid (seq_services db)
                                     (map s_id (services db)))
                          (services db) = None).
           { apply find_none_iff. intros x Hx. apply Z.eqb_neq. intros Ex.
             apply (next_rowid_fresh (seq_services db)
                      (map s_id (services db))).
             rewrite <- Ex. now apply in_map. }
           rewrite Hn. simpl. now rewrite Z.eqb_refl.
Qed.

(** The owner of the salon sends a text of spaces only, one of them a
    no-break space and one an ideographic space: nothing is written and
    the conversation stays open. *)
Lemma add_service_save_effect_witness :
  add_service_save Demo.salon [] 100 100 Demo.blank
  = (AS_EmptyName, Demo.salon, []).
Proof.
  assert (H : get_provider_by_owner Demo.salon 100
              = Some (1, "Salon", "abcd1234")) by (vm_compute; reflexivity).
  assert (Hb : strip Demo.blank = "") by (vm_compute; reflexivity).
  exact (proj1 (proj2 (add_service_save_effect Demo.salon [] 100 100 Demo.blank)
                  1 "Salon" "abcd1234" H) Hb).
Defined.

(** The owner of the salon adds "Shave", then "Haircut" once more. *)
Example add_service_save_demo :
  fst (fst (add_service_save Demo.salon [] 100 100 " Shave "))
  = AS_Added "Shave" /\
  fst (fst (add_service_save Demo.salon [] 100 100 "Haircut"))
  = AS_Exists "Haircut".
Proof. vm_compute. split; reflexivity. Qed.

(** Each of the 29 whitespace characters is stripped at both ends of a
    name, and kept inside it. *)
Example strip_whitespace :
  forallb
    (fun w =>
       (strip (w ++ "Soch" ++ w ++ "olish" ++ w ++ w)
        =? "Soch" ++ w ++ "olish")%string
       && (strip (w ++ w) =? "")%string)
    Demo.whitespace
  = true.
Proof. vm_compute. reflexivity. Qed.

(** ** Walk-ins and slots *)

(** X18. A walk-in takes no slot: after [add_to_queue] without date
    and time the booked and the available slots of every provider and
    date are what they were. *)
Theorem walkin_takes_no_slot :
  forall (db db' : DB) (p u s pos : Z),
    add_to_queue db p u s None None = Ok (pos, db') ->
    forall pid d,
      get_booked_slots db' pid d = get_booked_slots db pid d /\
      available_slots db' pid d = available_slots db pid d.
Proof.
  intros db db' p u s pos H pid d.
  apply add_to_queue_spec in H.
  destruct H as (row & Hq & _ & _ & _ & _ & _ & Hcase & _ & _ & Hb).
  destruct Hcase as [(Hd & _)|(_ & _ & Hrd & _)]; [discriminate|].
  assert (E : get_booked_slots db' pid d = get_booked_slots db pid d).
  { unfold get_booked_slots. rewrite Hq, Hb, filter_snoc, Hrd. simpl.
    now rewrite andb_false_r, app_nil_r. }
  split; [exact E|]. unfold available_slots. cbv zeta. now rewrite E.
Qed.

Lemma walkin_takes_no_slot_witness :
  get_booked_slots (run Demo.booked [OpAddToQueue 1 7 1 None None]) 1 "2025-08-20"
  = get_booked_slots Demo.booked 1 "2025-08-20" /\
  available_slots (run Demo.booked [OpAddToQueue 1 7 1 None None]) 1 "2025-08-20"
  = available_slots Demo.booked 1 "2025-08-20".
Proof.
  assert (H : add_to_queue Demo.booked 1 7 1 None None
              = Ok (1, run Demo.booked [OpAddToQueue 1 7 1 None None]))
    by (vm_compute; reflexivity).
  exact (walkin_takes_no_slot Demo.booked _ 1 7 1 1 H 1 "2025-08-20").
Defined.

(** ** Booking, then being called *)

Lemma delete_last_inserted (db : DB) (row : queue_row) :
  q_id row = next_rowid (seq_queues db) (map q_id (queues db)) ->
  filter (fun q => negb (q_id q =? q_id row)) (queues db ++ [row])
  = queues db.
Proof.
  intros Hid. rewrite filter_snoc, Z.eqb_refl. simpl. rewrite app_nil_r.
  apply filter_keeps_all. intros x Hx. apply negb_true_iff, Z.eqb_neq.
  intros E. apply (next_rowid_fresh (seq_queues db) (map q_id (queues db))).
  rewrite <- Hid, <- E. now apply in_map.
Qed.

(** X19. Booking and calling undo each other on an empty queue: when
    the provider has no queue entry and a client books a slot, the next
    [call_next] of the owner dispatches that client with the date and
    time booked, the queue table is again what it was before the booking
    and the slot is available again. *)
Theorem book_then_call :
  forall (db db1 : DB) (owner pid u svc : Z) (name ref d t sname : string)
         (o : option Z),
    get_provider_by_owner db owner = Some (pid, name, ref) ->
    provider_rows db pid = [] ->
    d <> "" -> t <> "" ->
    client_book_slot db u pid svc d t = (BK_Booked o sname, db1) ->
    fst (call_next db1 owner) = CN_Scheduled u sname (Some d) (Some t) /\
    queues (snd (call_next db1 owner)) = queues db /\
    available_slots (snd (call_next db1 owner)) pid d
    = available_slots db pid d.
Proof.
  intros db db1 owner pid u svc name ref d t sname o Hp Hnil Hd Ht Hb.
  unfold client_book_slot in Hb. cbv zeta in Hb.
  destruct (mem t (get_booked_slots db pid d)); [discriminate|].
  destruct (add_to_queue db pid u svc (Some d) (Some t)) as [[pos db']|] eqn:Ea;
    [|discriminate].
  inversion Hb; subst db' o sname; clear Hb.
  apply add_to_queue_spec in Ea.
  destruct Ea as (row & Hq & Hid & Hrp & Hru & Hrs & Hpos & Hcase
                  & Hprov & Hserv & Hbusy).
  destruct Hcase as [(_ & _ & H0 & Hrd & Hrt)|(Hf & _)].
  2:{ simpl in Hf. apply andb_false_iff in Hf.
      rewrite !negb_false_iff, !String.eqb_eq in Hf. tauto. }
  rewrite H0 in Hpos.
  assert (Hp1 : get_provider_by_owner db1 owner = Some (pid, name, ref)).
  { unfold get_provider_by_owner. now rewrite Hprov. }
  assert (Hrows : filter (fun q => q_provider q =? pid) (queues db1) = [row]).
  { rewrite Hq, filter_snoc. fold (provider_rows db pid). rewrite Hnil, Hrp.
    now rewrite Z.eqb_refl. }
  assert (Hwalk : walkins db1 pid = []).
  { unfold walkins. rewrite Hq, filter_snoc, Hpos. simpl.
    rewrite andb_false_r, app_nil_r.
    apply filter_none. intros q Hin. apply andb_false_iff. left.
    apply Z.eqb_neq. intros E.
    assert (Hin' : In q (provider_rows db pid))
      by (apply provider_rows_In; auto).
    rewrite Hnil in Hin'. contradiction. }
  assert (Hcall : call_next db1 owner
                  = (CN_Scheduled u (service_label db1 svc) (Some d) (Some t),
                     delete_queue_row db1 (q_id row))).
  { unfold call_next. rewrite Hp1, (pop_walkin_none db1 pid Hwalk).
    unfold pop_next_in_queue, by_date_time. rewrite Hrows. simpl.
    now rewrite Hru, Hrs, Hrd, Hrt. }
  rewrite Hcall. simpl.
  assert (Hback : filter (fun q => negb (q_id q =? q_id row)) (queues db1)
                  = queues db).
  { rewrite Hq. now apply delete_last_inserted. }
  split; [reflexivity|]. split; [exact Hback|].
  unfold available_slots, get_booked_slots, delete_queue_row, set_queues.
  cbn [queues busy_times]. now rewrite Hback, Hbusy.
Qed.

(** On the salon with an empty queue. *)
Lemma book_then_call_witness :
  fst (call_next Demo.booked 100)
  = CN_Scheduled 5 "Haircut" (Some "2025-08-20") (Some "09:00") /\
  queues (snd (call_next Demo.booked 100)) = queues Demo.salon /\
  available_slots (snd (call_next Demo.booked 100)) 1 "2025-08-20"
  = available_slots Demo.salon 1 "2025-08-20".
Proof.
  assert (H1 : get_provider_by_owner Demo.salon 100
               = Some (1, "Salon", "abcd1234")) by (vm_compute; reflexivity).
  assert (H2 : provider_rows Demo.salon 1 = []) by (vm_compute; reflexivity).
  assert (H3 : client_book_slot Demo.salon 5 1 1 "2025-08-20" "09:00"
               = (BK_Booked (Some 100) "Haircut", Demo.booked))
    by (vm_compute; reflexivity).
  exact (book_then_call Demo.salon Demo.booked 100 1 5 1
           "Salon" "abcd1234" "2025-08-20" "09:00" "Haircut" (Some 100)
           H1 H2 ltac:(discriminate) ltac:(discriminate) H3).
Defined.

(** ** The referral link *)

(** X20. The referral link of a provider leads to that provider: with
    referral codes unique, [on_start] on the code of a provider record
    shows the services of that provider, all of them and no service of
    another provider, or says that it has none; an unknown code is
    answered with "not found"; without a payload a registered caller gets
    the menu with the caller's own code. *)
Theorem start_link :
  forall (db : DB) (caller : Z),
    keys_ok db ->
    (forall p,
       In p (providers db) -> p_ref p <> "" ->
       (get_services db (p_id p) = [] /\
        on_start db caller (p_ref p) = ST_NoServices (p_name p)) \/
       (on_start db caller (p_ref p)
        = ST_Services (p_name p) (get_services db (p_id p)) /\
        forall sid sname,
          In (sid, sname) (get_services db (p_id p)) <->
          exists s, In s (services db) /\ s_provider s = p_id p /\
                    s_id s = sid /\ s_name s = sname)) /\
    (forall ref,
       ref <> "" -> ~ In ref (map p_ref (providers db)) ->
       on_start db caller ref = ST_ProviderNotFound) /\
    (forall pid name ref,
       get_provider_by_owner db caller = Some (pid, name, ref) ->
       on_start db caller "" = ST_Menu ref).
Proof.
  intros db caller Hk. split; [|split].
  - intros p Hp Hne. unfold on_start.
    assert (E : (p_ref p =? "")%string = false) by now apply String.eqb_neq.
    rewrite E. simpl.
    assert (Hf : get_provider_by_ref db (p_ref p) = Some (p_id p, p_name p)).
    { unfold get_provider_by_ref.
      destruct (find (fun x => (p_ref x =? p_ref p)%string) (providers db))
        as [x|] eqn:Ef.
      - apply find_some in Ef. destruct Ef as [Hx Ex].
        apply String.eqb_eq in Ex. destruct Hk as (_ & K2 & _).
        assert (x = p) by (eapply NoDup_map_eq; eauto). now subst.
      - apply (find_none _ _ Ef) in Hp. rewrite String.eqb_refl in Hp.
        discriminate. }
    rewrite Hf.
    destruct (get_services db (p_id p)) as [|x l] eqn:Es; [now left|].
    right. split; [reflexivity|]. rewrite <- Es.
    intros sid sname. unfold get_services. rewrite in_map_iff. split.
    + intros (s & E1 & Hs). inversion E1; subst.
      apply filter_In in Hs. destruct Hs as [Hs Hp']. apply Z.eqb_eq in Hp'.
      exists s. auto.
    + intros (s & Hs & H1 & H2 & H3). exists s. split; [congruence|].
      apply filter_In. split; [assumption|now apply Z.eqb_eq].
  - intros ref Hne Hn. unfold on_start.
    assert (E : (ref =? "")%string = false) by now apply String.eqb_neq.
    rewrite E. simpl. unfold get_provider_by_ref.
    assert (Hf : find (fun x => (p_ref x =? ref)%string) (providers db) = None).
    { apply find_none_iff. intros x Hx. apply String.eqb_neq. intros Ex.
      apply Hn. rewrite <- Ex. now apply in_map. }
    now rewrite Hf.
  - intros pid name ref H. unfold on_start. simpl. now rewrite H.
Qed.

Lemma demo_salon_keys : keys_ok Demo.salon.
Proof.
  apply (run_fk_keys
           [OpCreateProvider 100 "Salon" "abcd1234"; OpAddService 1 "Haircut"]
           empty_db empty_fk_keys).
Defined.

(** A client opens the link of the salon. *)
Lemma start_link_witness :
  on_start Demo.salon 5 "" = ST_Register /\
  on_start Demo.salon 5 "zzzz9999" = ST_ProviderNotFound.
Proof.
  split; [vm_compute; reflexivity|].
  apply (proj1 (proj2 (start_link Demo.salon 5 demo_salon_keys))).
  - discriminate.
  - vm_compute. intros [H|[]]. discriminate H.
Defined.

Example on_start_demo :
  on_start Demo.salon 5 "abcd1234" = ST_Services "Salon" [(1, "Haircut")].
Proof. vm_compute. reflexivity. Qed.

(** ** The polling loop *)

(** X21. [main] starts polling at most five times.  Between attempts it
    sleeps 10, 20, 40 and 80 seconds, in that order and never after the
    last attempt, so at most 150 seconds in all; it stops at the first
    attempt that does not raise, and raises itself exactly when all five
    attempts raise. *)
Theorem main_retries :
  forall (fails : nat -> bool),
    (exists k, (k <= 4)%nat /\ fst (main fails) = firstn k [10; 20; 40; 80] /\
               (forall i, (i < k)%nat -> fails i = true) /\
               (k < 4 -> fails k = false)%nat) /\
    fold_right Z.add 0 (fst (main fails)) <= 150 /\
    (snd (main fails) = true <->
     forall i, (i < 5)%nat -> fails i = true).
Proof.
  intros fails. unfold main, max_retries. simpl.
  assert (Hcases : forall i, (i < 5)%nat ->
            i = 0%nat \/ i = 1%nat \/ i = 2%nat \/ i = 3%nat \/ i = 4%nat)
    by (intros; lia).
  destruct (fails 0%nat) eqn:E0.
  2:{ split; [exists 0%nat; repeat split; try lia; auto|].
      split; [simpl; lia|]. split; [discriminate|].
      intros H. rewrite (H 0%nat) in E0 by lia. discriminate. }
  destruct (fails 1%nat) eqn:E1.
  2:{ split.
      { exists 1%nat. repeat split; try lia; auto.
        intros i Hi. assert (i = 0%nat) by lia. now subst. }
      split; [simpl; lia|]. split; [discriminate|].
      intros H. rewrite (H 1%nat) in E1 by lia. discriminate. }
  destruct (fails 2%nat) eqn:E2.
  2:{ split.
      { exists 2%nat. repeat split; try lia; auto.
        intros i Hi. assert (i = 0 \/ i = 1)%nat as [-> | ->] by lia; auto. }
      split; [simpl; lia|]. split; [discriminate|].
      intros H. rewrite (H 2%nat) in E2 by lia. discriminate. }
  destruct (fails 3%nat) eqn:E3.
  2:{ split.
      { exists 3%nat. repeat split; try lia; auto.
        intros i Hi.
        assert (i = 0 \/ i = 1 \/ i = 2)%nat as [-> |[-> | ->]] by lia; auto. }
      split; [simpl; lia|]. split; [discriminate|].
      intros H. rewrite (H 3%nat) in E3 by lia. discriminate. }
  assert (H4 : exists k, (k <= 4)%nat /\
                 [10; 20; 40; 80] = firstn k [10; 20; 40; 80] /\
                 (forall i, (i < k)%nat -> fails i = true) /\
                 (k < 4 -> fails k = false)%nat).
  { exists 4%nat. repeat split; try lia.
    intros i Hi.
    assert (i = 0 \/ i = 1 \/ i = 2 \/ i = 3)%nat
      as [-> |[-> |[-> | ->]]] by lia; auto. }
  destruct (fails 4%nat) eqn:E4; simpl.
  - split; [exact H4|]. split; [lia|]. split; [|reflexivity].
    intros _ i Hi.
    destruct (Hcases i Hi) as [-> |[-> |[-> |[-> | ->]]]]; assumption.
  - split; [exact H4|]. split; [lia|]. split; [discriminate|].
    intros H. rewrite (H 4%nat) in E4 by lia. discriminate.
Qed.

(** Polling fails twice, then runs. *)
Example main_demo :
  main (fun i => (i <? 2)%nat) = ([10; 20], false).
Proof. reflexivity. Qed.
